(** * llm-meta-endpoint: the dispatch-and-aggregate core of [src/index.ts]

    A shallow embedding of the worker: request validation, API-key
    resolution, the per-provider adapters, the generic provider invoker
    [createLLMQueryFunction], the dispatcher [buildLLMPromises] with its
    [Promise.all] join, the aggregator [createCombinedResponse], the
    handler [handleRequest] on all of its paths and the worker's [fetch]
    entry point, with what each of them writes to the console.

    JavaScript data is modelled as the engine has it: strings are
    sequences of UTF-16 code units, [any]-typed values are JSON-shaped
    trees, exceptions are explicit completions, and [async] functions are
    trees of effects that the event loop suspends at every [await]. *)

From Stdlib Require Import ZArith NArith String Ascii List Bool Lia DecimalString.
From Stdlib Require Import Floats.SpecFloat.
Import ListNotations.

Set Implicit Arguments.
Set Warnings "-register-all".

(* ====================================================================== *)
(** * JavaScript values                                                    *)
(* ====================================================================== *)

Module JS.

(** A JavaScript string is a sequence of 16-bit code units. *)
Definition jsstring := list N.

(** [js "abc"] is the JavaScript string of an ASCII literal. *)
Definition js (s : string) : jsstring :=
  map N_of_ascii (list_ascii_of_string s).

Fixpoint String_eqb (a b : jsstring) : bool :=
  match a, b with
  | [], [] => true
  | x :: a', y :: b' => N.eqb x y && String_eqb a' b'
  | _, _ => false
  end.

(** ECMA-262 WhiteSpace and LineTerminator code points, the ones
    [String.prototype.trim] strips. *)
Definition is_white_space (c : N) : bool :=
  let hit := fun k => N.eqb c k in
  (hit 9 || hit 10 || hit 11 || hit 12 || hit 13 || hit 32 || hit 160
   || hit 5760 || (N.leb 8192 c && N.leb c 8202)
   || hit 8232 || hit 8233 || hit 8239 || hit 8287 || hit 12288
   || hit 65279)%N.

Fixpoint trimStart (s : jsstring) : jsstring :=
  match s with
  | c :: s' => if is_white_space c then trimStart s' else s
  | [] => []
  end.

Definition trimEnd (s : jsstring) : jsstring := rev (trimStart (rev s)).

Definition trim (s : jsstring) : jsstring := trimEnd (trimStart s).

(** [s.substring(0, n)] *)
Definition substring0 (n : nat) (s : jsstring) : jsstring := firstn n s.

(** Numbers are IEEE-754 binary64 values. *)
Definition number := spec_float.

Definition Number_of_Z (z : Z) : number := binary_normalize 53 1024 z 0 false.

(** Values of type [any] that reach the worker: what [JSON.parse] builds,
    plus [undefined] for absent properties. An object keeps its own
    properties in insertion order. *)
Inductive JSValue : Type :=
| JUndefined
| JNull
| JBool (b : bool)
| JNumber (x : number)
| JString (s : jsstring)
| JArray (elems : list JSValue)
| JObject (props : list (jsstring * JSValue)).

(** ToBoolean *)
Definition truthy (v : JSValue) : bool :=
  match v with
  | JUndefined | JNull => false
  | JBool b => b
  | JNumber (S754_zero _) | JNumber S754_nan => false
  | JNumber _ => true
  | JString s => negb (Nat.eqb (length s) 0)
  | JArray _ | JObject _ => true
  end.

(** the [typeof] operator *)
Definition typeof (v : JSValue) : jsstring :=
  match v with
  | JUndefined => js "undefined"
  | JNull => js "object"
  | JBool _ => js "boolean"
  | JNumber _ => js "number"
  | JString _ => js "string"
  | JArray _ | JObject _ => js "object"
  end.

Definition nullish (v : JSValue) : bool :=
  match v with JUndefined | JNull => true | _ => false end.

Fixpoint own_property (props : list (jsstring * JSValue)) (name : jsstring)
  : option JSValue :=
  match props with
  | [] => None
  | (k, v) :: rest => if String_eqb k name then Some v else own_property rest name
  end.

(** Strict equality [===] against a string literal. *)
Definition strict_equals_string (v : JSValue) (s : jsstring) : bool :=
  match v with JString t => String_eqb t s | _ => false end.

(** What a [throw] carries: an [Error] instance with its [name] and
    [message], or any other value. *)
Inductive Thrown : Type :=
| ErrorInstance (name message : jsstring)
| NotAnError (v : JSValue).

Definition TypeError (message : jsstring) : Thrown :=
  ErrorInstance (js "TypeError") message.

(** The completion of an expression: a value, or an exception. *)
Inductive Completion (A : Type) : Type :=
| Normal (a : A)
| Throw (e : Thrown).
Arguments Throw {A} e.

Definition bind {A B} (c : Completion A) (k : A -> Completion B) : Completion B :=
  match c with
  | Normal a => k a
  | Throw e => Throw e
  end.

(** [try { body } catch (error) { handler }] *)
Definition try_catch {A} (body : Completion A) (handler : Thrown -> Completion A)
  : Completion A :=
  match body with
  | Normal a => Normal a
  | Throw e => handler e
  end.

(** [error instanceof Error ? error.message : fallback] *)
Definition message_or (fallback : jsstring) (error : Thrown) : jsstring :=
  match error with
  | ErrorInstance _ message => message
  | NotAnError _ => fallback
  end.

Declare Scope js_scope.
Delimit Scope js_scope with js.
Notation "x <- c ;; k" := (bind c (fun x => k))
  (at level 61, c at next level, right associativity) : js_scope.
Local Open Scope js_scope.

(** Decimal rendering of a non-negative integer ([String(429)]). *)
Definition decimal (n : N) : jsstring :=
  js (DecimalString.NilZero.string_of_uint (N.to_uint n)).

(** The array index a property name denotes, if it is a canonical
    decimal numeral. *)
Definition digit_value (c : N) : option nat :=
  if (N.leb 48 c && N.leb c 57)%N then Some (N.to_nat (c - 48)) else None.

Fixpoint digits_value (acc : nat) (s : jsstring) : option nat :=
  match s with
  | [] => Some acc
  | c :: s' =>
      match digit_value c with
      | Some d => digits_value (10 * acc + d) s'
      | None => None
      end
  end.

Definition array_index (name : jsstring) : option nat :=
  match name with
  | [] => None
  | [c] => digit_value c
  | c :: _ => if N.eqb c 48 then None else digits_value 0 name
  end.

(** The wording of the [TypeError]s the engine raises (V8, which runs
    the worker). *)
Definition cannot_read_message (v : JSValue) (name : jsstring) : jsstring :=
  js "Cannot read properties of "
  ++ (match v with JNull => js "null" | _ => js "undefined" end)
  ++ js " (reading '" ++ name ++ js "')".

Definition not_a_function_message (callee : jsstring) : jsstring :=
  callee ++ js " is not a function".

Definition cannot_convert_message : jsstring :=
  js "Cannot convert object to primitive value".

(** [new Date(t).toISOString()]: the ISO-8601 text is determined by the
    time value [t], which stands for it here. *)
Inductive Timestamp : Type := toISOString (timeValue : Z).

(** [v.name] for a data property: own properties of objects, elements
    and [length] of arrays and strings. None of the names the worker
    reads is defined on a built-in prototype. *)
Definition get (v : JSValue) (name : jsstring) : JSValue :=
  match v with
  | JObject props =>
      match own_property props name with Some x => x | None => JUndefined end
  | JArray elems =>
      match array_index name with
      | Some i => nth i elems JUndefined
      | None =>
          if String_eqb name (js "length")
          then JNumber (Number_of_Z (Z.of_nat (length elems)))
          else JUndefined
      end
  | JString s =>
      match array_index name with
      | Some i => match nth_error s i with Some c => JString [c] | None => JUndefined end
      | None =>
          if String_eqb name (js "length")
          then JNumber (Number_of_Z (Z.of_nat (length s)))
          else JUndefined
      end
  | _ => JUndefined
  end.

(** [v.name]: throws on [null] and [undefined]. *)
Definition member (v : JSValue) (name : jsstring) : Completion JSValue :=
  if nullish v then Throw (TypeError (cannot_read_message v name))
  else Normal (get v name).

(** [v?.name] *)
Definition opt_member (v : JSValue) (name : jsstring) : JSValue :=
  if nullish v then JUndefined else get v name.

(** [v?.[i]] *)
Definition opt_index (v : JSValue) (i : N) : JSValue :=
  opt_member v (decimal i).

(** [a || b] *)
Definition or_else (a b : JSValue) : JSValue := if truthy a then a else b.

(** [s.trim()] where [s] has type [any]. *)
Definition String_trim (v : JSValue) : Completion jsstring :=
  match v with
  | JString s => Normal (trim s)
  | JUndefined | JNull => Throw (TypeError (cannot_read_message v (js "trim")))
  | _ => Throw (TypeError (not_a_function_message (js "requestData.query.trim")))
  end.

(** [s.substring(0, n)] where [s] has type [any]. *)
Definition String_substring0 (n : nat) (v : JSValue) : Completion jsstring :=
  match v with
  | JString s => Normal (substring0 n s)
  | JUndefined | JNull => Throw (TypeError (cannot_read_message v (js "substring")))
  | _ => Throw (TypeError (not_a_function_message (js "query.substring")))
  end.

(** What the engine supplies and the worker does not define: the JSON
    parser and serialiser, and the formatting of numbers and dates. *)
Class Runtime : Type := {
  (** [JSON.parse] on a string: the parsed value, or the message of the
      error (a [SyntaxError]) the parser throws. *)
  JSON_parse : jsstring -> JSValue + jsstring;
  (** [Number::toString] *)
  Number_toString : number -> jsstring;
  (** [JSON.stringify(value, null, space)] on an object: the text, or
      the exception the serialiser throws (a [RangeError] when the value
      is nested too deep for its stack). *)
  JSON_stringify : JSValue -> nat -> Completion jsstring;
  (** [new Date(t).toISOString()] *)
  Date_toISOString : Z -> jsstring
}.

Section Operations.
Context {rt : Runtime}.

Definition join_with (sep : jsstring) (parts : list jsstring) : jsstring :=
  match parts with
  | [] => []
  | p :: rest => p ++ flat_map (fun q => sep ++ q) rest
  end.

(** ToString. An array joins its elements with commas; an object prints
    as [[object Object]] unless an own (hence non-callable) [toString]
    property shadows the inherited method. *)
Fixpoint ToString (v : JSValue) : Completion jsstring :=
  match v with
  | JUndefined => Normal (js "undefined")
  | JNull => Normal (js "null")
  | JBool true => Normal (js "true")
  | JBool false => Normal (js "false")
  | JNumber x => Normal (Number_toString x)
  | JString s => Normal s
  | JArray elems =>
      parts <- (fix each (l : list JSValue) : Completion (list jsstring) :=
                  match l with
                  | [] => Normal []
                  | x :: l' =>
                      p <- (if nullish x then Normal [] else ToString x) ;;
                      ps <- each l' ;;
                      Normal (p :: ps)
                  end) elems ;;
      Normal (join_with (js ",") parts)
  | JObject props =>
      match own_property props (js "toString") with
      | None => Normal (js "[object Object]")
      | Some _ => Throw (TypeError cannot_convert_message)
      end
  end.

(** [`${error}`] for a caught exception. *)
Definition Thrown_toString (error : Thrown) : Completion jsstring :=
  match error with
  | ErrorInstance name message =>
      Normal (match name, message with
              | [], _ => message
              | _, [] => name
              | _, _ => name ++ js ": " ++ message
              end)
  | NotAnError v => ToString v
  end.

End Operations.

End JS.
Export JS.
Local Open Scope js_scope.

(* ====================================================================== *)
(** * Asynchronous computations                                            *)
(* ====================================================================== *)

(** What the worker hands to [fetch]. The body is kept as the value
    whose serialisation is sent; the serialisation itself, which can
    throw, is the sender's. *)
Module FetchRequest.
Record t : Type := {
  url : jsstring;
  method : jsstring;
  headers : list (jsstring * JSValue);
  body : JSValue
}.
End FetchRequest.

(** What [fetch] resolves to: status line, and the outcome of reading the
    body with [response.text()]. *)
Module FetchResponse.
Record t : Type := {
  status : N;
  statusText : jsstring;
  text : Completion jsstring
}.
(** [response.ok]: the status is in the range 200-299. *)
Definition ok (r : t) : bool := (N.leb 200 (status r) && N.leb (status r) 299)%N.
End FetchResponse.

Inductive Level : Type := INFO | WARN | ERROR.

Module LogEntry.
Record t : Type := {
  level : Level;
  timestamp : Timestamp;
  message : jsstring;
  context : option JSValue
}.
End LogEntry.

Inductive ConsoleMethod : Type := console_log | console_warn | console_error.

(** The body of a function, as the tree of its effects: clock readings
    and console output happen synchronously, and every [await] is a node
    at which the event loop suspends the function until the awaited
    promise settles. *)
Inductive Async (A : Type) : Type :=
| Return (a : A)
| Raise (e : Thrown)
| DateNow (k : Z -> Async A)
| Console (method : ConsoleMethod) (line : LogEntry.t) (k : Async A)
| AwaitFetch (req : FetchRequest.t) (k : Completion FetchResponse.t -> Async A)
| AwaitText (resp : FetchResponse.t) (k : Completion jsstring -> Async A).
Arguments Raise {A} e.
Arguments DateNow {A} k.
Arguments Console {A} method line k.
Arguments AwaitFetch {A} req k.
Arguments AwaitText {A} resp k.

Module AsyncOps.

Fixpoint bind {A B} (m : Async A) (f : A -> Async B) : Async B :=
  match m with
  | Return a => f a
  | Raise e => Raise e
  | DateNow k => DateNow (fun t => bind (k t) f)
  | Console c l k => Console c l (bind k f)
  | AwaitFetch req k => AwaitFetch req (fun r => bind (k r) f)
  | AwaitText resp k => AwaitText resp (fun r => bind (k r) f)
  end.

(** [try { body } catch (error) { handler error }] *)
Fixpoint try_catch {A} (body : Async A) (handler : Thrown -> Async A) : Async A :=
  match body with
  | Return a => Return a
  | Raise e => handler e
  | DateNow k => DateNow (fun t => try_catch (k t) handler)
  | Console c l k => Console c l (try_catch k handler)
  | AwaitFetch req k => AwaitFetch req (fun r => try_catch (k r) handler)
  | AwaitText resp k => AwaitText resp (fun r => try_catch (k r) handler)
  end.

(** A synchronous expression inside a function body. *)
Definition lift {A} (c : Completion A) : Async A :=
  match c with
  | Normal a => Return a
  | Throw e => Raise e
  end.

(** [Date.now()], and the time value of [new Date()] *)
Definition Date_now : Async Z := DateNow (fun t => Return t).

(** [await fetch(url, init)]: a rejected promise is rethrown at the await *)
Definition fetch (req : FetchRequest.t) : Async FetchResponse.t :=
  AwaitFetch req lift.

(** [await response.text()] *)
Definition Response_text (resp : FetchResponse.t) : Async jsstring :=
  AwaitText resp lift.

End AsyncOps.

Declare Scope async_scope.
Delimit Scope async_scope with async.
Notation "x <- c ;; k" := (AsyncOps.bind c (fun x => k))
  (at level 61, c at next level, right associativity) : async_scope.
Notation "c ;; k" := (AsyncOps.bind c (fun _ => k))
  (at level 61, right associativity) : async_scope.

(* ====================================================================== *)
(** * The worker ([src/index.ts])                                          *)
(* ====================================================================== *)

(** ** Types *)

(** [interface Env]: the process-level API keys, each optional. *)
Record Env : Type := {
  OPENAI_API_KEY : option jsstring;
  ANTHROPIC_API_KEY : option jsstring;
  GEMINI_API_KEY : option jsstring;
  GROK_API_KEY : option jsstring
}.

(** Reading an optional binding: [undefined] when it is not configured. *)
Definition binding (key : option jsstring) : JSValue :=
  match key with
  | Some s => JString s
  | None => JUndefined
  end.

(** [interface LLMResponse]; the optional fields are present exactly when
    the object literal that builds the response lists them. *)
Record LLMResponse : Type := {
  provider : jsstring;
  success : bool;
  data : option JSValue;
  error : option jsstring;
  latency : Z
}.

(** [interface CombinedResponse] *)
Module CombinedResponse.
Record t : Type := {
  query : JSValue;
  responses : list LLMResponse;
  totalLatency : Z;
  timestamp : Timestamp;
  providersQueried : nat
}.
End CombinedResponse.

(** [type Result<T, E>] *)
Inductive Result (T E : Type) : Type :=
| Success (value : T)
| Failure (error : E).
Arguments Success {T E} value.
Arguments Failure {T E} error.

(** The resolved keys, [ReturnType<typeof resolveApiKeys>]. *)
Module ApiKeys.
Record t : Type := {
  openai : JSValue;
  anthropic : JSValue;
  gemini : JSValue;
  grok : JSValue
}.
End ApiKeys.

(** The inbound [Request]: method, URL, and what [request.json()] settles
    to. *)
Module Request.
Record t : Type := {
  method : jsstring;
  url : jsstring;
  json : Completion JSValue
}.
End Request.

(** The outbound [Response]. Its body is kept as the value whose
    serialisation is sent. An error body is a record of strings nested
    two deep, as is every log entry: the serialiser cannot run out of
    stack on these, and their serialisation is left out. The body of a
    success holds what the providers answered, however deep, and
    [createSuccessResponse] serialises it. *)
Inductive ResponseBody : Type :=
| ErrorBody (error : jsstring) (details : option JSValue) (timestamp : Timestamp)
| SuccessBody (data : CombinedResponse.t).

Module Response.
Record t : Type := {
  body : ResponseBody;
  status : N;
  headers : list (jsstring * jsstring)
}.
End Response.

(** ** Constants *)

Definition DEFAULT_SCHEMA : JSValue :=
  JObject [
    (js "type", JString (js "object"));
    (js "properties", JObject [
      (js "answer", JObject [
        (js "type", JString (js "string"));
        (js "description", JString (js "The answer to the query"))]);
      (js "confidence", JObject [
        (js "type", JString (js "number"));
        (js "description", JString (js "Confidence level from 0 to 1"))])]);
    (js "required", JArray [JString (js "answer"); JString (js "confidence")]);
    (js "additionalProperties", JBool false)].

Module LLMConfig.
Record t : Type := { name : jsstring; url : jsstring; model : jsstring }.
End LLMConfig.

Module LLM_CONFIGS.
Definition openai : LLMConfig.t := {|
  LLMConfig.name := js "OpenAI GPT-4";
  LLMConfig.url := js "https://api.openai.com/v1/chat/completions";
  LLMConfig.model := js "gpt-4o-2024-08-06" |}.
Definition anthropic : LLMConfig.t := {|
  LLMConfig.name := js "Anthropic Claude";
  LLMConfig.url := js "https://api.anthropic.com/v1/messages";
  LLMConfig.model := js "claude-sonnet-4-20250514" |}.
Definition gemini : LLMConfig.t := {|
  LLMConfig.name := js "Google Gemini";
  LLMConfig.url := js "https://generativelanguage.googleapis.com/v1beta/models/gemini-1.5-pro:generateContent";
  LLMConfig.model := js "gemini-1.5-pro" |}.
Definition grok : LLMConfig.t := {|
  LLMConfig.name := js "xAI Grok";
  LLMConfig.url := js "https://api.x.ai/v1/chat/completions";
  LLMConfig.model := js "grok-2-1212" |}.
End LLM_CONFIGS.

Section Worker.
Context {rt : Runtime}.

(** ** Pure utility functions *)

Local Open Scope async_scope.

Definition getCurrentTimestamp : Async Timestamp :=
  now <- AsyncOps.Date_now ;; Return (toISOString now).

Definition createLogEntry (level : Level) (message : jsstring)
    (context : option JSValue) : Async LogEntry.t :=
  timestamp <- getCurrentTimestamp ;;
  Return {| LogEntry.level := level;
            LogEntry.timestamp := timestamp;
            LogEntry.message := message;
            LogEntry.context :=
              match context with
              | Some c => if truthy c then Some c else None
              | None => None
              end |}.

Definition logToConsole (entry : LogEntry.t) : Async unit :=
  let logMethod :=
    match LogEntry.level entry with
    | ERROR => console_error
    | WARN => console_warn
    | INFO => console_log
    end in
  Console logMethod entry (Return tt).

Definition log (level : Level) (message : jsstring) (context : option JSValue)
  : Async unit :=
  entry <- createLogEntry level message context ;; logToConsole entry.

Definition logInfo := log INFO.
Definition logWarn := log WARN.
Definition logError := log ERROR.

Local Close Scope async_scope.

(** [JSON.parse(text)]: the argument is converted to a string first. *)
Definition JSON_parse_any (text : JSValue) : Completion JSValue :=
  s <- ToString text ;;
  match JSON_parse s with
  | inl value => Normal value
  | inr message => Throw (ErrorInstance (js "SyntaxError") message)
  end.

Definition safeJsonParse (text : JSValue) : Completion (Result JSValue jsstring) :=
  try_catch
    (value <- JSON_parse_any text ;; Normal (Success value))
    (fun error =>
       Normal (Failure (js "JSON parse error: "
                        ++ message_or (js "Unknown error") error))).

Local Open Scope async_scope.

Definition createErrorResponse (status : N) (message : jsstring)
    (details : option JSValue) : Async Response.t :=
  logError message
    (Some (JObject [(js "status", JNumber (Number_of_Z (Z.of_N status)));
                    (js "details", match details with Some d => d | None => JUndefined end)])) ;;
  timestamp <- getCurrentTimestamp ;;
  Return {| Response.body :=
              ErrorBody message
                (match details with
                 | Some d => if truthy d then Some d else None
                 | None => None
                 end)
                timestamp;
            Response.status := status;
            Response.headers := [(js "Content-Type", js "application/json")] |}.

(** The object an [LLMResponse] is: [data] and [error] are own
    properties when the literal that built it lists them. *)
Definition LLMResponse_value (r : LLMResponse) : JSValue :=
  JObject ([(js "provider", JString (provider r));
            (js "success", JBool (success r))]
           ++ match data r with Some value => [(js "data", value)] | None => [] end
           ++ match error r with Some message => [(js "error", JString message)] | None => [] end
           ++ [(js "latency", JNumber (Number_of_Z (latency r)))]).

(** The object a [CombinedResponse] is. *)
Definition CombinedResponse_value (data : CombinedResponse.t) : JSValue :=
  JObject [
    (js "query", CombinedResponse.query data);
    (js "responses", JArray (map LLMResponse_value (CombinedResponse.responses data)));
    (js "totalLatency", JNumber (Number_of_Z (CombinedResponse.totalLatency data)));
    (js "timestamp",
     JString (match CombinedResponse.timestamp data with
              | toISOString timeValue => Date_toISOString timeValue
              end));
    (js "providersQueried",
     JNumber (Number_of_Z (Z.of_nat (CombinedResponse.providersQueried data))))].

Definition createSuccessResponse (data : CombinedResponse.t) : Async Response.t :=
  preview <- AsyncOps.lift (String_substring0 100 (CombinedResponse.query data)) ;;
  logInfo (js "Request completed successfully")
    (Some (JObject [
       (js "query", JString preview);
       (js "providersQueried",
        JNumber (Number_of_Z (Z.of_nat (CombinedResponse.providersQueried data))));
       (js "totalLatency", JNumber (Number_of_Z (CombinedResponse.totalLatency data)))])) ;;
  text <- AsyncOps.lift (JSON_stringify (CombinedResponse_value data) 2) ;;
  Return {| Response.body := SuccessBody data;
            Response.status := 200;
            Response.headers := [(js "Content-Type", js "application/json");
                                 (js "Access-Control-Allow-Origin", js "*")] |}.

Local Close Scope async_scope.

(** ** Request body builders *)

Definition buildOpenAIRequestBody (query schema : JSValue) : JSValue :=
  JObject [
    (js "model", JString (LLMConfig.model LLM_CONFIGS.openai));
    (js "messages", JArray [JObject [(js "role", JString (js "user"));
                                     (js "content", query)]]);
    (js "response_format", JObject [
      (js "type", JString (js "json_schema"));
      (js "json_schema", JObject [
        (js "name", JString (js "response"));
        (js "strict", JBool true);
        (js "schema", schema)])])].

Definition buildClaudeRequestBody (query schema : JSValue) : JSValue :=
  JObject [
    (js "model", JString (LLMConfig.model LLM_CONFIGS.anthropic));
    (js "max_tokens", JNumber (Number_of_Z 4096));
    (js "tools", JArray [JObject [
      (js "name", JString (js "respond"));
      (js "description", JString (js "Respond to the query with structured data"));
      (js "input_schema", schema)]]);
    (js "tool_choice", JObject [
      (js "type", JString (js "tool"));
      (js "name", JString (js "respond"))]);
    (js "messages", JArray [JObject [(js "role", JString (js "user"));
                                     (js "content", query)]])].

Definition buildGeminiRequestBody (query schema : JSValue) : JSValue :=
  JObject [
    (js "contents", JArray [JObject [
      (js "parts", JArray [JObject [(js "text", query)]])]]);
    (js "generationConfig", JObject [
      (js "responseMimeType", JString (js "application/json"));
      (js "responseSchema", schema)])].

Definition buildGrokRequestBody (query schema : JSValue) : JSValue :=
  JObject [
    (js "model", JString (LLMConfig.model LLM_CONFIGS.grok));
    (js "messages", JArray [JObject [(js "role", JString (js "user"));
                                     (js "content", query)]]);
    (js "response_format", JObject [
      (js "type", JString (js "json_schema"));
      (js "json_schema", JObject [
        (js "name", JString (js "response"));
        (js "strict", JBool true);
        (js "schema", schema)])])].

(** ** Response parsers *)

(** [array.find(predicate)]; on anything but an array, [find] is not a
    function. *)
Fixpoint find_first (predicate : JSValue -> Completion bool) (elems : list JSValue)
  : Completion JSValue :=
  match elems with
  | [] => Normal JUndefined
  | x :: rest =>
      hit <- predicate x ;;
      if hit then Normal x else find_first predicate rest
  end.

Definition Array_find (v : JSValue) (predicate : JSValue -> Completion bool)
  : Completion JSValue :=
  match v with
  | JArray elems => find_first predicate elems
  | _ => Throw (TypeError (not_a_function_message (js "data?.content?.find")))
  end.

Definition parse_error (label : jsstring) (error : Thrown)
  : Completion (Result JSValue jsstring) :=
  shown <- Thrown_toString error ;;
  Normal (Failure (label ++ js " parse error: " ++ shown)).

Definition parseOpenAIResponse (data : JSValue) : Completion (Result JSValue jsstring) :=
  try_catch
    (let content :=
       opt_member (opt_member (opt_index (opt_member data (js "choices")) 0)
                     (js "message")) (js "content") in
     if negb (truthy content) then
       Normal (Failure (js "No content in OpenAI response"))
     else safeJsonParse content)
    (parse_error (js "OpenAI")).

Definition parseClaudeResponse (data : JSValue) : Completion (Result JSValue jsstring) :=
  try_catch
    (toolUse <-
       (let content := opt_member data (js "content") in
        if nullish content then Normal JUndefined
        else Array_find content
               (fun block =>
                  type <- member block (js "type") ;;
                  Normal (strict_equals_string type (js "tool_use")))) ;;
     if negb (truthy (opt_member toolUse (js "input"))) then
       Normal (Failure (js "No tool_use in Claude response"))
     else
       input <- member toolUse (js "input") ;;
       Normal (Success input))
    (parse_error (js "Claude")).

Definition parseGeminiResponse (data : JSValue) : Completion (Result JSValue jsstring) :=
  try_catch
    (let content :=
       opt_member
         (opt_index
            (opt_member
               (opt_member (opt_index (opt_member data (js "candidates")) 0)
                  (js "content"))
               (js "parts")) 0)
         (js "text") in
     if negb (truthy content) then
       Normal (Failure (js "No content in Gemini response"))
     else safeJsonParse content)
    (parse_error (js "Gemini")).

Definition parseGrokResponse (data : JSValue) : Completion (Result JSValue jsstring) :=
  try_catch
    (let content :=
       opt_member (opt_member (opt_index (opt_member data (js "choices")) 0)
                     (js "message")) (js "content") in
     if negb (truthy content) then
       Normal (Failure (js "No content in Grok response"))
     else safeJsonParse content)
    (parse_error (js "Grok")).

(** ** LLM query functions *)

Local Open Scope async_scope.

Definition createLLMQueryFunction
    (provider : jsstring)
    (url : jsstring)
    (buildHeaders : JSValue -> Completion (list (jsstring * JSValue)))
    (buildBody : JSValue -> JSValue -> Completion JSValue)
    (parseResponse : JSValue -> Completion (Result JSValue jsstring))
    (urlModifier : option (jsstring -> JSValue -> Completion jsstring))
    (query schema apiKey : JSValue) : Async LLMResponse :=
  startTime <- AsyncOps.Date_now ;;
  preview <- AsyncOps.lift (String_substring0 100 query) ;;
  logInfo (js "Querying " ++ provider)
    (Some (JObject [(js "query", JString preview)])) ;;
  AsyncOps.try_catch
    (finalUrl <- AsyncOps.lift
                   (match urlModifier with
                    | Some modify => modify url apiKey
                    | None => Normal url
                    end) ;;
     headers <- AsyncOps.lift (buildHeaders apiKey) ;;
     body <- AsyncOps.lift (buildBody query schema) ;;
     text <- AsyncOps.lift (JSON_stringify body 0) ;;
     response <- AsyncOps.fetch
                   {| FetchRequest.url := finalUrl;
                      FetchRequest.method := js "POST";
                      FetchRequest.headers := headers;
                      FetchRequest.body := body |} ;;
     responseText <- AsyncOps.Response_text response ;;
     now <- AsyncOps.Date_now ;;
     let latency := (now - startTime)%Z in
     if negb (FetchResponse.ok response) then
       let errorMsg :=
         provider ++ js " API error: "
         ++ decimal (FetchResponse.status response) ++ js " "
         ++ FetchResponse.statusText response in
       logWarn errorMsg
         (Some (JObject [
            (js "status",
             JNumber (Number_of_Z (Z.of_N (FetchResponse.status response))));
            (js "responsePreview", JString (substring0 200 responseText))])) ;;
       Return {| provider := provider; success := false; data := None;
                 error := Some errorMsg; latency := latency |}
     else
       jsonParseResult <- AsyncOps.lift (safeJsonParse (JString responseText)) ;;
       match jsonParseResult with
       | Failure parseError =>
           logError (provider ++ js " JSON parse failed")
             (Some (JObject [(js "error", JString parseError)])) ;;
           Return {| provider := provider; success := false; data := None;
                     error := Some parseError; latency := latency |}
       | Success parsed =>
           dataParseResult <- AsyncOps.lift (parseResponse parsed) ;;
           match dataParseResult with
           | Failure parseError =>
               logError (provider ++ js " response parse failed")
                 (Some (JObject [(js "error", JString parseError)])) ;;
               Return {| provider := provider; success := false; data := None;
                         error := Some parseError; latency := latency |}
           | Success value =>
               logInfo (provider ++ js " query successful")
                 (Some (JObject [(js "latency", JNumber (Number_of_Z latency))])) ;;
               Return {| provider := provider; success := true; data := Some value;
                         error := None; latency := latency |}
           end
       end)
    (fun error =>
       now <- AsyncOps.Date_now ;;
       let latency := (now - startTime)%Z in
       let errorMsg := message_or (js "Unknown error") error in
       logError (provider ++ js " query failed")
         (Some (JObject [(js "error", JString errorMsg);
                         (js "latency", JNumber (Number_of_Z latency))])) ;;
       Return {| provider := provider; success := false; data := None;
                 error := Some errorMsg; latency := latency |}).

Local Close Scope async_scope.

(** The header builders and the URL modifier that [queryOpenAI] and
    [queryGrok] (the same bearer-token headers), [queryClaude] and
    [queryGemini] pass as arrow functions. *)
Definition bearer_headers (apiKey : JSValue) : Completion (list (jsstring * JSValue)) :=
  key <- ToString apiKey ;;
  Normal [(js "Content-Type", JString (js "application/json"));
          (js "Authorization", JString (js "Bearer " ++ key))].

Definition claude_headers (apiKey : JSValue) : Completion (list (jsstring * JSValue)) :=
  Normal [(js "Content-Type", JString (js "application/json"));
          (js "x-api-key", apiKey);
          (js "anthropic-version", JString (js "2023-06-01"))].

Definition gemini_headers (_ : JSValue) : Completion (list (jsstring * JSValue)) :=
  Normal [(js "Content-Type", JString (js "application/json"))].

Definition gemini_url (url : jsstring) (apiKey : JSValue) : Completion jsstring :=
  key <- ToString apiKey ;; Normal (url ++ js "?key=" ++ key).

Definition queryOpenAI : JSValue -> JSValue -> JSValue -> Async LLMResponse :=
  createLLMQueryFunction
    (LLMConfig.name LLM_CONFIGS.openai)
    (LLMConfig.url LLM_CONFIGS.openai)
    bearer_headers
    (fun query schema => Normal (buildOpenAIRequestBody query schema))
    parseOpenAIResponse
    None.

Definition queryClaude : JSValue -> JSValue -> JSValue -> Async LLMResponse :=
  createLLMQueryFunction
    (LLMConfig.name LLM_CONFIGS.anthropic)
    (LLMConfig.url LLM_CONFIGS.anthropic)
    claude_headers
    (fun query schema => Normal (buildClaudeRequestBody query schema))
    parseClaudeResponse
    None.

Definition queryGemini : JSValue -> JSValue -> JSValue -> Async LLMResponse :=
  createLLMQueryFunction
    (LLMConfig.name LLM_CONFIGS.gemini)
    (LLMConfig.url LLM_CONFIGS.gemini)
    gemini_headers
    (fun query schema => Normal (buildGeminiRequestBody query schema))
    parseGeminiResponse
    (Some gemini_url).

Definition queryGrok : JSValue -> JSValue -> JSValue -> Async LLMResponse :=
  createLLMQueryFunction
    (LLMConfig.name LLM_CONFIGS.grok)
    (LLMConfig.url LLM_CONFIGS.grok)
    bearer_headers
    (fun query schema => Normal (buildGrokRequestBody query schema))
    parseGrokResponse
    None.

(** ** Main business logic *)

Definition validateRequest (requestData : JSValue)
  : Completion (Result JSValue jsstring) :=
  if negb (truthy requestData) || negb (String_eqb (typeof requestData) (js "object")) then
    Normal (Failure (js "Invalid request body"))
  else
    query <- member requestData (js "query") ;;
    if negb (truthy query) || negb (String_eqb (typeof query) (js "string")) then
      Normal (Failure (js "Missing required field: query"))
    else
      trimmed <- String_trim query ;;
      if Nat.eqb (length trimmed) 0 then
        Normal (Failure (js "Query cannot be empty"))
      else
        Normal (Success requestData).

Definition resolveApiKeys (requestData : JSValue) (env : Env) : Completion ApiKeys.t :=
  apiKeys <- member requestData (js "apiKeys") ;;
  Normal {|
    ApiKeys.openai :=
      or_else (opt_member apiKeys (js "openai")) (binding (OPENAI_API_KEY env));
    ApiKeys.anthropic :=
      or_else (opt_member apiKeys (js "anthropic")) (binding (ANTHROPIC_API_KEY env));
    ApiKeys.gemini :=
      or_else (opt_member apiKeys (js "gemini")) (binding (GEMINI_API_KEY env));
    ApiKeys.grok :=
      or_else (opt_member apiKeys (js "grok")) (binding (GROK_API_KEY env)) |}.

Local Open Scope async_scope.

Definition createCombinedResponse (query : JSValue) (responses : list LLMResponse)
    (totalLatency : Z) : Async CombinedResponse.t :=
  timestamp <- getCurrentTimestamp ;;
  Return {| CombinedResponse.query := query;
            CombinedResponse.responses := responses;
            CombinedResponse.totalLatency := totalLatency;
            CombinedResponse.timestamp := timestamp;
            CombinedResponse.providersQueried := length responses |}.

Local Close Scope async_scope.

End Worker.

(* ====================================================================== *)
(** * The event loop                                                       *)
(* ====================================================================== *)

(** What the worker's surroundings decide: the successive readings of the
    clock, how the network answers a request, and the order in which the
    pending promises of a [Promise.all] get their turn. *)
Record Host : Type := {
  clock : nat -> Z;
  network : FetchRequest.t -> Completion FetchResponse.t;
  completion_order : list nat
}.

(** What the worker has done so far: how many times it read the clock,
    what it wrote to the console, and the requests it sent. *)
Record World : Type := {
  ticks : nat;
  console : list (ConsoleMethod * LogEntry.t);
  requests : list FetchRequest.t
}.

Definition initial_world : World := {| ticks := 0; console := []; requests := [] |}.

(** The state of a promise as its awaiter sees it. *)
Inductive Settlement (A : Type) : Type :=
| Fulfilled (a : A)
| Rejected (e : Thrown)
| Pending.
Arguments Rejected {A} e.
Arguments Pending {A}.

Definition Loop (A : Type) : Type := World -> Settlement A * World.

Module LoopOps.

Definition ret {A} (a : A) : Loop A := fun w => (Fulfilled a, w).

Definition bind {A B} (m : Loop A) (f : A -> Loop B) : Loop B :=
  fun w =>
    match m w with
    | (Fulfilled a, w') => f a w'
    | (Rejected e, w') => (Rejected e, w')
    | (Pending, w') => (Pending, w')
    end.

(** [try { x = await body } catch (error) { return handler error }]
    followed by the rest of the function, which uses [x]. *)
Definition try_or_return {A B} (body : Loop A) (handler : Thrown -> Loop B)
    (rest : A -> Loop B) : Loop B :=
  fun w =>
    match body w with
    | (Fulfilled a, w') => rest a w'
    | (Rejected e, w') => handler e w'
    | (Pending, w') => (Pending, w')
    end.

Definition lift {A} (c : Completion A) : Loop A :=
  fun w => (match c with Normal a => Fulfilled a | Throw e => Rejected e end, w).

Section Host.
Variable host : Host.

Definition read_clock (w : World) : Z * World :=
  (clock host (ticks w),
   {| ticks := S (ticks w); console := console w; requests := requests w |}).

Definition write_console (method : ConsoleMethod) (line : LogEntry.t) (w : World) : World :=
  {| ticks := ticks w; console := console w ++ [(method, line)]; requests := requests w |}.

Definition send (req : FetchRequest.t) (w : World) : World :=
  {| ticks := ticks w; console := console w; requests := requests w ++ [req] |}.

(** Run a function body on its own, each awaited promise settling before
    anything else happens. *)
Fixpoint run {A} (t : Async A) (w : World) : Completion A * World :=
  match t with
  | Return a => (Normal a, w)
  | Raise e => (Throw e, w)
  | DateNow k => let (now, w') := read_clock w in run (k now) w'
  | Console method line k => run k (write_console method line w)
  | AwaitFetch req k => run (k (network host req)) (send req w)
  | AwaitText resp k => run (k (FetchResponse.text resp)) w
  end.

(** Execute a synchronous computation. *)
Definition perform {A} (t : Async A) : Loop A :=
  fun w => let (c, w') := run t w in lift c w'.

(** Run a function body up to its first [await]; a [fetch] it reaches is
    sent at once. *)
Fixpoint run_sync {A} (t : Async A) (w : World) : Async A * World :=
  match t with
  | DateNow k => let (now, w') := read_clock w in run_sync (k now) w'
  | Console method line k => run_sync k (write_console method line w)
  | AwaitFetch req _ => (t, send req w)
  | _ => (t, w)
  end.

(** Calling an [async] function: its body runs synchronously up to the
    first [await], and the caller gets the promise of the rest. *)
Definition call {A} (t : Async A) : Loop (Async A) :=
  fun w => let (p, w') := run_sync t w in (Fulfilled p, w').

(** The awaited promise of a suspended body settles: the body continues
    up to its next [await]. *)
Definition resume {A} (p : Async A) (w : World) : Async A * World :=
  match p with
  | AwaitFetch req k => run_sync (k (network host req)) w
  | AwaitText resp k => run_sync (k (FetchResponse.text resp)) w
  | _ => (p, w)
  end.

Fixpoint first_rejection {A} (ps : list (Async A)) : option Thrown :=
  match ps with
  | [] => None
  | Raise e :: _ => Some e
  | _ :: rest => first_rejection rest
  end.

Fixpoint fulfilled_values {A} (ps : list (Async A)) : option (list A) :=
  match ps with
  | [] => Some []
  | Return a :: rest =>
      match fulfilled_values rest with
      | Some values => Some (a :: values)
      | None => None
      end
  | _ :: _ => None
  end.

Fixpoint replace_nth {A} (i : nat) (x : A) (l : list A) : list A :=
  match l, i with
  | [], _ => []
  | _ :: rest, O => x :: rest
  | y :: rest, S i' => y :: replace_nth i' x rest
  end.

(** [Promise.all]: rejects with the first rejection; fulfils, once every
    promise is fulfilled, with the values in the order of the promises;
    until then the pending promises are resumed in the order the host
    chooses. *)
Fixpoint join {A} (order : list nat) (ps : list (Async A)) (w : World)
  : Settlement (list A) * World :=
  match first_rejection ps with
  | Some e => (Rejected e, w)
  | None =>
      match fulfilled_values ps with
      | Some values => (Fulfilled values, w)
      | None =>
          match order with
          | [] => (Pending, w)
          | i :: rest =>
              match nth_error ps i with
              | Some p => let (p', w') := resume p w in join rest (replace_nth i p' ps) w'
              | None => join rest ps w
              end
          end
      end
  end.

(** [await Promise.all(promises)] *)
Definition Promise_all {A} (promises : list (Async A)) : Loop (list A) :=
  join (completion_order host) promises.

End Host.
End LoopOps.

Declare Scope loop_scope.
Delimit Scope loop_scope with loop.
Notation "x <- c ;; k" := (LoopOps.bind c (fun x => k))
  (at level 61, c at next level, right associativity) : loop_scope.
Notation "c ;; k" := (LoopOps.bind c (fun _ => k))
  (at level 61, right associativity) : loop_scope.

Section Handler.
Context {rt : Runtime}.
Variable host : Host.

Local Open Scope loop_scope.

Definition buildLLMPromises (query schema : JSValue) (apiKeys : ApiKeys.t)
  : Loop (list (Async LLMResponse)) :=
  let promises := [] in
  promises <-
    (if truthy (ApiKeys.openai apiKeys) then
       p <- LoopOps.call host (queryOpenAI query schema (ApiKeys.openai apiKeys)) ;;
       LoopOps.ret (promises ++ [p])
     else LoopOps.ret promises) ;;
  promises <-
    (if truthy (ApiKeys.anthropic apiKeys) then
       p <- LoopOps.call host (queryClaude query schema (ApiKeys.anthropic apiKeys)) ;;
       LoopOps.ret (promises ++ [p])
     else LoopOps.ret promises) ;;
  promises <-
    (if truthy (ApiKeys.gemini apiKeys) then
       p <- LoopOps.call host (queryGemini query schema (ApiKeys.gemini apiKeys)) ;;
       LoopOps.ret (promises ++ [p])
     else LoopOps.ret promises) ;;
  promises <-
    (if truthy (ApiKeys.grok apiKeys) then
       p <- LoopOps.call host (queryGrok query schema (ApiKeys.grok apiKeys)) ;;
       LoopOps.ret (promises ++ [p])
     else LoopOps.ret promises) ;;
  LoopOps.ret promises.

Definition handleRequest (request : Request.t) (env : Env) : Loop Response.t :=
  overallStartTime <- LoopOps.perform host AsyncOps.Date_now ;;
  LoopOps.perform host
    (logInfo (js "Received request")
       (Some (JObject [(js "method", JString (Request.method request));
                       (js "url", JString (Request.url request))]))) ;;
  if negb (String_eqb (Request.method request) (js "POST")) then
    LoopOps.perform host
      (createErrorResponse 405 (js "Method not allowed. Use POST.") None)
  else
    LoopOps.try_or_return
      (LoopOps.lift (Request.json request))
      (fun error =>
         LoopOps.perform host
           (createErrorResponse 400 (js "Invalid JSON in request body")
              (Some (JObject [(js "parseError",
                              JString (message_or (js "Unknown error") error))]))))
      (fun requestData =>
        validationResult <- LoopOps.lift (validateRequest requestData) ;;
        match validationResult with
        | Failure error => LoopOps.perform host (createErrorResponse 400 error None)
        | Success queryRequest =>
            requestSchema <- LoopOps.lift (member queryRequest (js "schema")) ;;
            let schema := or_else requestSchema DEFAULT_SCHEMA in
            apiKeys <- LoopOps.lift (resolveApiKeys queryRequest env) ;;
            query <- LoopOps.lift (member queryRequest (js "query")) ;;
            promises <- buildLLMPromises query schema apiKeys ;;
            if Nat.eqb (length promises) 0 then
              LoopOps.perform host
                (createErrorResponse 400
                   (js "No API keys provided. Include apiKeys in request body or configure environment variables.")
                   None)
            else
              LoopOps.perform host
                (logInfo (js "Querying LLMs in parallel")
                   (Some (JObject [(js "count",
                                    JNumber (Number_of_Z (Z.of_nat (length promises))))]))) ;;
              LoopOps.try_or_return
                (LoopOps.Promise_all host promises)
                (fun error =>
                   LoopOps.perform host
                     (createErrorResponse 500 (js "Failed to query LLMs")
                        (Some (JObject [(js "error",
                                         JString (message_or (js "Unknown error") error))]))))
                (fun responses =>
                   now <- LoopOps.perform host AsyncOps.Date_now ;;
                   let totalLatency := (now - overallStartTime)%Z in
                   result <- LoopOps.perform host
                               (createCombinedResponse query responses totalLatency) ;;
                   LoopOps.perform host (createSuccessResponse result))
        end).

End Handler.

(** ** Cloudflare Worker export *)

(** [ExecutionContext]: the worker does not use it. *)
Definition ExecutionContext : Type := unit.

Module ExportedHandler.
Section Fetch.
Context {rt : Runtime}.
Variable host : Host.

(** [error.stack]: the text the engine attaches to an [Error] instance
    of the given name and message. *)
Variable Error_stack : jsstring -> jsstring -> jsstring.

Local Open Scope loop_scope.

Definition fetch (request : Request.t) (env : Env) (ctx : ExecutionContext)
  : Loop Response.t :=
  LoopOps.try_or_return
    (handleRequest host request env)
    (fun error =>
       LoopOps.perform host
         (logError (js "Unhandled error in worker")
            (Some (JObject [
               (js "error", JString (message_or (js "Unknown error") error));
               (js "stack",
                match error with
                | ErrorInstance name message => JString (Error_stack name message)
                | NotAnError _ => JUndefined
                end)]))) ;;
       LoopOps.perform host
         (createErrorResponse 500 (js "Internal server error") None))
    (fun response => LoopOps.ret response).

End Fetch.
End ExportedHandler.


(* ====================================================================== *)
(** * Specification vocabulary                                             *)
(* ====================================================================== *)

(** The known providers, in the order [buildLLMPromises] registers them. *)
Inductive ProviderId : Type := OpenAI | Anthropic | Gemini | Grok.

Definition registration_order : list ProviderId := [OpenAI; Anthropic; Gemini; Grok].

Definition config (p : ProviderId) : LLMConfig.t :=
  match p with
  | OpenAI => LLM_CONFIGS.openai
  | Anthropic => LLM_CONFIGS.anthropic
  | Gemini => LLM_CONFIGS.gemini
  | Grok => LLM_CONFIGS.grok
  end.

Definition provider_name (p : ProviderId) : jsstring := LLMConfig.name (config p).

(** The property of [apiKeys] that belongs to a provider. *)
Definition key_name (p : ProviderId) : jsstring :=
  match p with
  | OpenAI => js "openai"
  | Anthropic => js "anthropic"
  | Gemini => js "gemini"
  | Grok => js "grok"
  end.

Definition caller_credential (requestData : JSValue) (p : ProviderId) : JSValue :=
  opt_member (get requestData (js "apiKeys")) (key_name p).

Definition default_credential (env : Env) (p : ProviderId) : JSValue :=
  match p with
  | OpenAI => binding (OPENAI_API_KEY env)
  | Anthropic => binding (ANTHROPIC_API_KEY env)
  | Gemini => binding (GEMINI_API_KEY env)
  | Grok => binding (GROK_API_KEY env)
  end.

Definition resolved_credential (keys : ApiKeys.t) (p : ProviderId) : JSValue :=
  match p with
  | OpenAI => ApiKeys.openai keys
  | Anthropic => ApiKeys.anthropic keys
  | Gemini => ApiKeys.gemini keys
  | Grok => ApiKeys.grok keys
  end.

(** The providers with a resolved credential, in registration order. *)
Definition available (keys : ApiKeys.t) : list ProviderId :=
  filter (fun p => truthy (resolved_credential keys p)) registration_order.

(** The schema the handler dispatches with. *)
Definition effective_schema (requestData : JSValue) : JSValue :=
  if truthy (get requestData (js "schema")) then get requestData (js "schema")
  else DEFAULT_SCHEMA.

(** The three ways validation fails, and the dispatcher's own failure. *)
Definition INVALID_BODY : jsstring := js "Invalid request body".
Definition MISSING_FIELD : jsstring := js "Missing required field: query".
Definition EMPTY_QUERY : jsstring := js "Query cannot be empty".
Definition NO_API_KEYS : jsstring :=
  js "No API keys provided. Include apiKeys in request body or configure environment variables.".

(** A non-null value whose [typeof] is ["object"]. *)
Definition is_object (v : JSValue) : Prop :=
  match v with
  | JArray _ | JObject _ => True
  | _ => False
  end.

Definition succeeds (requestData : JSValue) : Prop :=
  exists v, validateRequest requestData = Normal (Success v).

(** The classification of validation failures as the specification words
    it: a missing-field error exactly for an absent or non-string query,
    an empty-query error exactly for a string that trims to nothing. *)
Definition classification_as_specified (requestData : JSValue) : Prop :=
  is_object requestData ->
  (validateRequest requestData = Normal (Failure MISSING_FIELD)
   <-> ~ exists q, get requestData (js "query") = JString q)
  /\ (validateRequest requestData = Normal (Failure EMPTY_QUERY)
      <-> exists q, get requestData (js "query") = JString q /\ length (trim q) = 0).

(** [ProviderOutcome] as a tagged variant: [data] on success, [error] on
    failure, never both and never neither. *)
Definition tagged (r : LLMResponse) : Prop :=
  (success r = true /\ (exists value, data r = Some value) /\ error r = None)
  \/ (success r = false /\ data r = None /\ exists message, error r = Some message).

(** The latency is a later clock reading minus the first one the
    invocation made. *)
Definition latency_between (readings : list Z) (r : LLMResponse) : Prop :=
  exists start between finish after,
    readings = start :: between ++ finish :: after
    /\ latency r = (finish - start)%Z.

Definition outcome_of (name : jsstring) (readings : list Z) (r : LLMResponse) : Prop :=
  provider r = name /\ tagged r /\ latency_between readings r.

(** A clock that never runs backwards. *)
Definition monotone (host : Host) : Prop :=
  forall n m, n <= m -> (clock host n <= clock host m)%Z.

(** ** A program logic for function bodies

    [Yields post exc readings t]: having read the clock [readings] so
    far, when the body [t] returns [a] after the readings [rs], [post rs
    a] holds, and when it throws [e] after the readings [rs], [exc rs e]
    holds. *)
Section Logic.
Variable A : Type.
Variable post : list Z -> A -> Prop.
Variable exc : list Z -> Thrown -> Prop.

Inductive Yields : list Z -> Async A -> Prop :=
| Yields_return rs a : post rs a -> Yields rs (Return a)
| Yields_raise rs e : exc rs e -> Yields rs (Raise e)
| Yields_now rs k : (forall t, Yields (rs ++ [t]) (k t)) -> Yields rs (DateNow k)
| Yields_console rs method line k : Yields rs k -> Yields rs (Console method line k)
| Yields_fetch rs req k : (forall r, Yields rs (k r)) -> Yields rs (AwaitFetch req k)
| Yields_text rs resp k : (forall r, Yields rs (k r)) -> Yields rs (AwaitText resp k).

End Logic.

(** The exception postcondition of a body that never throws. *)
Definition never (_ : list Z) (_ : Thrown) : Prop := False.

(** [Awaits n f t]: on every path the body [t] awaits at most [n] times,
    at most [f] of them a [fetch]. *)
Inductive Awaits (A : Type) : nat -> nat -> Async A -> Prop :=
| Awaits_return n f a : Awaits n f (Return a)
| Awaits_raise n f e : Awaits n f (Raise e)
| Awaits_now n f k : (forall t, Awaits n f (k t)) -> Awaits n f (DateNow k)
| Awaits_console n f method line k : Awaits n f k -> Awaits n f (Console method line k)
| Awaits_fetch n f req k :
    (forall r, Awaits n f (k r)) -> Awaits (S n) (S f) (AwaitFetch req k)
| Awaits_text n f resp k :
    (forall r, Awaits n f (k r)) -> Awaits (S n) f (AwaitText resp k).

(** A body that is not in the middle of synchronous work: it has settled
    or waits at an [await]. *)
Definition suspended (A : Type) (t : Async A) : Prop :=
  match t with
  | DateNow _ | Console _ _ _ => False
  | _ => True
  end.

(** A promise in flight that will never throw and whose value will
    satisfy [post]. *)
Definition in_flight (A : Type) (post : list Z -> A -> Prop) (p : Async A) : Prop :=
  (exists rs, Yields post never rs p) /\ suspended p.

(** A promise in flight that has no request left to send: it waits for
    the answer to the one it sent, or will not fetch again. *)
Definition quiet (A : Type) (p : Async A) : Prop :=
  match p with
  | AwaitFetch _ k => forall r, exists n, Awaits n 0 (k r)
  | _ => exists n, Awaits n 0 p
  end.

(** The host gives each of the first [n] promises of a [Promise.all] the
    two turns a provider invocation needs ([fetch], then the body). *)
Definition every_promise_gets_two_turns (host : Host) (n : nat) : Prop :=
  forall i, i < n -> 2 <= count_occ Nat.eq_dec (completion_order host) i.

Section Requests.
Context {rt : Runtime}.

Definition query_function (p : ProviderId)
  : JSValue -> JSValue -> JSValue -> Async LLMResponse :=
  match p with
  | OpenAI => queryOpenAI
  | Anthropic => queryClaude
  | Gemini => queryGemini
  | Grok => queryGrok
  end.

(** The request body a provider's adapter builds. *)
Definition request_body (p : ProviderId) (query schema : JSValue) : JSValue :=
  match p with
  | OpenAI => buildOpenAIRequestBody query schema
  | Anthropic => buildClaudeRequestBody query schema
  | Gemini => buildGeminiRequestBody query schema
  | Grok => buildGrokRequestBody query schema
  end.

Definition final_url (p : ProviderId) (apiKey : JSValue) : Completion jsstring :=
  match p with
  | Gemini => gemini_url (LLMConfig.url (config p)) apiKey
  | _ => Normal (LLMConfig.url (config p))
  end.

Definition request_headers (p : ProviderId) (apiKey : JSValue)
  : Completion (list (jsstring * JSValue)) :=
  match p with
  | OpenAI | Grok => bearer_headers apiKey
  | Anthropic => claude_headers apiKey
  | Gemini => gemini_headers apiKey
  end.

(** The request an invocation of provider [p] sends: none when building
    its URL or headers or serialising its body throws, which the invoker
    turns into a failed outcome. *)
Definition request_to (query schema : JSValue) (keys : ApiKeys.t) (p : ProviderId)
  : list FetchRequest.t :=
  match final_url p (resolved_credential keys p),
        request_headers p (resolved_credential keys p),
        JSON_stringify (request_body p query schema) 0 with
  | Normal url, Normal headers, Normal text =>
      [{| FetchRequest.url := url;
          FetchRequest.method := js "POST";
          FetchRequest.headers := headers;
          FetchRequest.body := request_body p query schema |}]
  | _, _, _ => []
  end.

(** Whether [JSON.stringify] returns on a request body. *)
Definition serialisable (body : JSValue) : bool :=
  match JSON_stringify body 0 with
  | Normal _ => true
  | Throw _ => false
  end.

End Requests.

(** ** Worked examples: a runtime and a host *)
Module Sample.

(** JSON texts are written with ['] standing for the double quote. *)
Definition json_text (s : string) : jsstring :=
  map (fun c => if N.eqb c 39 then 34%N else c) (js s).

Definition reply : jsstring :=
  json_text "{'choices':[{'message':{'content':'{\'answer\':\'Paris\'}'}}]}".

Definition answer : jsstring := json_text "{'answer':'Paris'}".

(** How deep a value is nested. *)
Fixpoint depth (v : JSValue) : nat :=
  match v with
  | JArray elems => S (fold_right (fun x deepest => Nat.max (depth x) deepest) 0 elems)
  | JObject props =>
      S (fold_right
           (fun (kv : jsstring * JSValue) deepest =>
              let (_, x) := kv in Nat.max (depth x) deepest)
           0 props)
  | _ => 0
  end.

(** A serialiser for the examples: it runs out of stack below sixty-four
    levels of nesting; the text it returns is not looked at. *)
Definition stringify (v : JSValue) (space : nat) : Completion jsstring :=
  if Nat.leb (depth v) 64 then Normal (js "{}")
  else Throw (ErrorInstance (js "RangeError") (js "Maximum call stack size exceeded")).

(** A runtime for the examples. Its JSON parser knows the two texts the
    examples use (a provider reply and the answer embedded in it) and
    reports a syntax error for every other text; numbers do not occur.
    The theorems are proved for every runtime. *)
Definition runtime : Runtime := {|
  JSON_parse := fun text =>
    if String_eqb text reply then
      inl (JObject [(js "choices", JArray [JObject [(js "message",
             JObject [(js "content", JString answer)])]])])
    else if String_eqb text answer then
      inl (JObject [(js "answer", JString (js "Paris"))])
    else inr (js "Unexpected token");
  Number_toString := fun _ => js "NaN";
  JSON_stringify := stringify;
  Date_toISOString := fun _ => js "2024-01-01T00:00:00.000Z"
|}.

Definition no_keys : Env := {|
  OPENAI_API_KEY := None;
  ANTHROPIC_API_KEY := None;
  GEMINI_API_KEY := None;
  GROK_API_KEY := None
|}.

Definition two_keys : Env := {|
  OPENAI_API_KEY := Some (js "sk-openai");
  ANTHROPIC_API_KEY := None;
  GEMINI_API_KEY := None;
  GROK_API_KEY := Some (js "xai-grok")
|}.

Definition payload : JSValue :=
  JObject [(js "query", JString (js "What is 2+2?"));
           (js "apiKeys", JObject [(js "openai", JString []);
                                   (js "gemini", JString (js "caller-gemini"))])].

Definition request : Request.t := {|
  Request.method := js "POST";
  Request.url := js "https://worker.example/";
  Request.json := Normal payload
|}.

(** The same question with no [apiKeys] and a schema of the caller's. *)
Definition own_schema : JSValue :=
  JObject [(js "type", JString (js "object"));
           (js "required", JArray [JString (js "sum")])].

Definition bare_request : Request.t := {|
  Request.method := js "POST";
  Request.url := js "https://worker.example/";
  Request.json := Normal (JObject [(js "query", JString (js "What is 2+2?"));
                                   (js "schema", own_schema)])
|}.

(** The network answers OpenAI with the reply above, Gemini with HTTP
    429 and Grok with a page that is not JSON, and is unreachable for
    everyone else. *)
Definition answers (req : FetchRequest.t) : Completion FetchResponse.t :=
  if String_eqb (FetchRequest.url req) (LLMConfig.url LLM_CONFIGS.openai) then
    Normal {| FetchResponse.status := 200;
              FetchResponse.statusText := js "OK";
              FetchResponse.text := Normal reply |}
  else if String_eqb (FetchRequest.url req) (LLMConfig.url LLM_CONFIGS.grok) then
    Normal {| FetchResponse.status := 200;
              FetchResponse.statusText := js "OK";
              FetchResponse.text := Normal (js "<html>Bad gateway</html>") |}
  else if String_eqb (FetchRequest.url req) (LLMConfig.url LLM_CONFIGS.anthropic) then
    Throw (ErrorInstance (js "TypeError") (js "fetch failed"))
  else
    Normal {| FetchResponse.status := 429;
              FetchResponse.statusText := js "Too Many Requests";
              FetchResponse.text := Normal (js "slow down") |}.

(** The clock advances ten milliseconds per reading, and the last
    promise completes first. *)
Definition host : Host := {|
  clock := fun n => (1000 + 10 * Z.of_nat n)%Z;
  network := answers;
  completion_order := [2; 1; 0; 2; 0; 1]
|}.

(** The same host with a clock that is set back two seconds after its
    second reading. *)
Definition skewed_host : Host := {|
  clock := fun n => if Nat.leb n 1 then 5000%Z else 3000%Z;
  network := answers;
  completion_order := [0; 0]
|}.

End Sample.

Section InvokerVocabulary.
Context {rt : Runtime}.

(** The request a call of [createLLMQueryFunction]'s result sends before
    its first [await]: none when preparing it (URL, headers, body and
    the body's serialisation) throws. *)
Definition first_request (url : jsstring)
    (buildHeaders : JSValue -> Completion (list (jsstring * JSValue)))
    (buildBody : JSValue -> JSValue -> Completion JSValue)
    (urlModifier : option (jsstring -> JSValue -> Completion jsstring))
    (query schema apiKey : JSValue) : list FetchRequest.t :=
  match (match urlModifier with
         | Some modify => modify url apiKey
         | None => Normal url
         end),
        buildHeaders apiKey,
        (body <- buildBody query schema ;;
         text <- JSON_stringify body 0 ;;
         Normal body) with
  | Normal finalUrl, Normal headers, Normal body =>
      [{| FetchRequest.url := finalUrl;
          FetchRequest.method := js "POST";
          FetchRequest.headers := headers;
          FetchRequest.body := body |}]
  | _, _, _ => []
  end.

(** Where a provider's request body holds the schema. *)
Definition schema_in (p : ProviderId) (body : JSValue) : JSValue :=
  match p with
  | OpenAI | Grok =>
      get (get (get body (js "response_format")) (js "json_schema")) (js "schema")
  | Anthropic => get (opt_index (get body (js "tools")) 0) (js "input_schema")
  | Gemini => get (get body (js "generationConfig")) (js "responseSchema")
  end.

End InvokerVocabulary.

Section DispatchVocabulary.
Context {rt : Runtime}.

(** What holds of the promises [buildLLMPromises] has pushed so far, for
    the providers [chosen]: each is in flight towards a tagged outcome of
    its provider, needs at most two turns, has sent the one request it
    will ever send, and these requests are all the dispatcher has sent. *)
Definition dispatched (query schema : JSValue) (keys : ApiKeys.t)
    (chosen : list ProviderId) (ps : list (Async LLMResponse)) (w0 w : World) : Prop :=
  Forall2 (@in_flight LLMResponse) (map (fun p => outcome_of (provider_name p)) chosen) ps
  /\ (forall i p, nth_error ps i = Some p -> Awaits 2 1 p)
  /\ Forall (@quiet LLMResponse) ps
  /\ requests w = requests w0 ++ flat_map (request_to query schema keys) chosen.

(** One invocation per chosen provider, in the order given: the
    provider's query function is called with the query, the schema and
    the provider's resolved credential, and the promises are collected in
    that order. *)
Fixpoint invoke_each (host : Host) (query schema : JSValue) (keys : ApiKeys.t)
    (chosen : list ProviderId) : Loop (list (Async LLMResponse)) :=
  match chosen with
  | [] => LoopOps.ret []
  | p :: rest =>
      LoopOps.bind
        (LoopOps.call host (query_function p query schema (resolved_credential keys p)))
        (fun promise =>
           LoopOps.bind (invoke_each host query schema keys rest)
             (fun promises => LoopOps.ret (promise :: promises)))
  end.

End DispatchVocabulary.

(** ** The handler's answers *)

Definition METHOD_NOT_ALLOWED : jsstring := js "Method not allowed. Use POST.".
Definition INVALID_JSON : jsstring := js "Invalid JSON in request body".

Definition JSON_CONTENT_TYPE : jsstring * jsstring :=
  (js "Content-Type", js "application/json").
Definition CORS_ANY_ORIGIN : jsstring * jsstring :=
  (js "Access-Control-Allow-Origin", js "*").

(** The response [createErrorResponse] answers with. *)
Definition error_response (status : N) (message : jsstring) (details : option JSValue)
    (stamp : Timestamp) : Response.t :=
  {| Response.body := ErrorBody message details stamp;
     Response.status := status;
     Response.headers := [JSON_CONTENT_TYPE] |}.

(** What the console shows after the handler answered a request with
    an error: the line for the request, then the line for the error. *)
Definition logged_error (request : Request.t) (w w' : World) (status : N)
    (message : jsstring) (details : option JSValue) : Prop :=
  exists received reported,
    console w' = console w ++ [(console_log, received); (console_error, reported)]
    /\ LogEntry.level received = INFO
    /\ LogEntry.message received = js "Received request"
    /\ LogEntry.context received
       = Some (JObject [(js "method", JString (Request.method request));
                        (js "url", JString (Request.url request))])
    /\ LogEntry.level reported = ERROR
    /\ LogEntry.message reported = message
    /\ LogEntry.context reported
       = Some (JObject [(js "status", JNumber (Number_of_Z (Z.of_N status)));
                        (js "details",
                         match details with Some d => d | None => JUndefined end)]).

(** A string of white space only. *)
Definition blank (q : jsstring) : bool := forallb is_white_space q.

(** ** The adapters *)

Section AdapterVocabulary.
Context {rt : Runtime}.

Definition response_parser (p : ProviderId)
  : JSValue -> Completion (Result JSValue jsstring) :=
  match p with
  | OpenAI => parseOpenAIResponse
  | Anthropic => parseClaudeResponse
  | Gemini => parseGeminiResponse
  | Grok => parseGrokResponse
  end.

End AdapterVocabulary.

(** What a parser reports when the reply holds no answer. *)
Definition no_content (p : ProviderId) : jsstring :=
  match p with
  | OpenAI => js "No content in OpenAI response"
  | Anthropic => js "No tool_use in Claude response"
  | Gemini => js "No content in Gemini response"
  | Grok => js "No content in Grok response"
  end.

(** Where a chat-completion reply (OpenAI, Grok) and a Gemini reply hold
    the text of the answer, read property by property. *)
Definition choices_content (data : JSValue) : JSValue :=
  get (get (get (get data (js "choices")) (js "0")) (js "message")) (js "content").

Definition candidates_text (data : JSValue) : JSValue :=
  get (get (get (get (get (get data (js "candidates")) (js "0")) (js "content"))
               (js "parts")) (js "0")) (js "text").

(** The blocks of a Claude reply that are tool calls. *)
Definition is_tool_use (block : JSValue) : bool :=
  strict_equals_string (get block (js "type")) (js "tool_use").

(** Where a provider's request body holds the query. *)
Definition query_in (p : ProviderId) (body : JSValue) : JSValue :=
  match p with
  | OpenAI | Anthropic | Grok =>
      get (get (get body (js "messages")) (js "0")) (js "content")
  | Gemini =>
      get (get (get (get (get body (js "contents")) (js "0")) (js "parts")) (js "0"))
        (js "text")
  end.

(** The request a provider is sent when its credential is the string
    [key]. *)
Definition provider_request (p : ProviderId) (query schema : JSValue) (key : jsstring)
  : FetchRequest.t :=
  {| FetchRequest.url :=
       match p with
       | Gemini => LLMConfig.url (config p) ++ js "?key=" ++ key
       | _ => LLMConfig.url (config p)
       end;
     FetchRequest.method := js "POST";
     FetchRequest.headers :=
       match p with
       | OpenAI | Grok =>
           [(js "Content-Type", JString (js "application/json"));
            (js "Authorization", JString (js "Bearer " ++ key))]
       | Anthropic =>
           [(js "Content-Type", JString (js "application/json"));
            (js "x-api-key", JString key);
            (js "anthropic-version", JString (js "2023-06-01"))]
       | Gemini => [(js "Content-Type", JString (js "application/json"))]
       end;
     FetchRequest.body := request_body p query schema |}.

(** ** Clock readings of promises in flight *)

(** Clock ticks in ascending order, none before [lo]. *)
Fixpoint ascending (lo : nat) (moments : list nat) : Prop :=
  match moments with
  | [] => True
  | i :: rest => lo <= i /\ ascending (S i) rest
  end.

(** The readings [rs] were made at ascending ticks of the host's clock
    between [lo] and [hi]. *)
Definition read_between (host : Host) (lo hi : nat) (rs : list Z) : Prop :=
  exists moments,
    rs = map (clock host) moments
    /\ ascending lo moments /\ Forall (fun i => i < hi) moments.

(** [Follows host post rs t]: as [Yields], for a body that never throws
    and is given the answers of the host's network: having read the
    clock [rs] so far, when [t] returns [a] after the readings [rs'],
    [post rs' a] holds. *)
Section Following.
Variable host : Host.
Variable A : Type.
Variable post : list Z -> A -> Prop.

Inductive Follows : list Z -> Async A -> Prop :=
| Follows_return rs a : post rs a -> Follows rs (Return a)
| Follows_now rs k : (forall t, Follows (rs ++ [t]) (k t)) -> Follows rs (DateNow k)
| Follows_console rs method line k : Follows rs k -> Follows rs (Console method line k)
| Follows_fetch rs req k :
    Follows rs (k (network host req)) -> Follows rs (AwaitFetch req k)
| Follows_text rs resp k :
    Follows rs (k (FetchResponse.text resp)) -> Follows rs (AwaitText resp k).

(** A promise in flight whose readings so far were made between [lo] and
    [hi]. *)
Definition timed (lo hi : nat) (p : Async A) : Prop :=
  (exists rs, Follows rs p /\ read_between host lo hi rs) /\ suspended p.

End Following.

(** An outcome without its latency. *)
Definition verdict (r : LLMResponse) : jsstring * bool * option JSValue * option jsstring :=
  (provider r, success r, data r, error r).

(** ** Further worked inputs *)
Module Cases.

(** The sample host with another clock and another completion order. *)
Definition other_host : Host := {|
  clock := fun n => (7 * Z.of_nat n)%Z;
  network := Sample.answers;
  completion_order := [0; 1; 2; 0; 1; 2]
|}.

(** A chat-completion reply whose message embeds the answer as a text. *)
Definition chat_reply : JSValue :=
  JObject [(js "choices", JArray [JObject [(js "message",
     JObject [(js "content", JString Sample.answer)])]])].

Definition tool_call (answer : jsstring) : JSValue :=
  JObject [(js "type", JString (js "tool_use"));
           (js "input", JObject [(js "answer", JString answer)])].

(** A Claude reply: a text block, then two tool calls. *)
Definition tool_reply : JSValue :=
  JObject [(js "content", JArray [
     JObject [(js "type", JString (js "text"));
              (js "text", JString (js "Let me answer."))];
     tool_call (js "4");
     tool_call (js "four")])].

(** A Claude reply whose first block is [null]. *)
Definition broken_tool_reply : JSValue :=
  JObject [(js "content", JArray [JNull; tool_call (js "4")])].

(** The sample request sent with GET. *)
Definition get_request : Request.t := {|
  Request.method := js "GET";
  Request.url := js "https://worker.example/";
  Request.json := Normal Sample.payload
|}.

(** A POST whose body is not JSON. *)
Definition unreadable_request : Request.t := {|
  Request.method := js "POST";
  Request.url := js "https://worker.example/";
  Request.json := Throw (ErrorInstance (js "SyntaxError")
                           (js "Unexpected end of JSON input"))
|}.

(** A POST whose query is three blanks. *)
Definition blank_request : Request.t := {|
  Request.method := js "POST";
  Request.url := js "https://worker.example/";
  Request.json := Normal (JObject [(js "query", JString (js "   "))])
|}.

(** A payload whose [apiKeys] is a string instead of an object. *)
Definition raw_keys_payload : JSValue :=
  JObject [(js "query", JString (js "What is 2+2?"));
           (js "apiKeys", JString (js "sk-raw"))].

(** A value nested seventy levels deep, more than the serialiser of the
    examples can take. *)
Definition deep_value : JSValue := Nat.iter 70 (fun v => JArray [v]) JNull.

(** The sample question with a schema nested that deep. *)
Definition deep_schema_request : Request.t := {|
  Request.method := js "POST";
  Request.url := js "https://worker.example/";
  Request.json := Normal (JObject [(js "query", JString (js "What is 2+2?"));
                                   (js "schema", deep_value)])
|}.

(** The runtime of the examples, except that the answer embedded in the
    provider's reply parses to a value nested that deep. *)
Definition deep_answer_runtime : Runtime := {|
  JSON_parse := fun text =>
    if String_eqb text Sample.answer then inl deep_value
    else @JSON_parse Sample.runtime text;
  Number_toString := @Number_toString Sample.runtime;
  JSON_stringify := Sample.stringify;
  Date_toISOString := @Date_toISOString Sample.runtime
|}.

(** A stack trace for the examples: the error's name and message. *)
Definition stack_trace (name message : jsstring) : jsstring :=
  name ++ js ": " ++ message.

End Cases.

(* ====================================================================== *)
(** * Request validation and key resolution                                *)
(* ====================================================================== *)

Section ValidationFacts.

Lemma String_eqb_refl (s : jsstring) : String_eqb s s = true.
Proof. induction s as [|c s IH]; cbn; [reflexivity|]. rewrite N.eqb_refl. exact IH. Qed.

Lemma typeof_object (v : JSValue) :
  (negb (truthy v) || negb (String_eqb (typeof v) (js "object"))) = false <-> is_object v.
Proof.
  destruct v as [| |b|x|s|l|l]; simpl; try (split; [discriminate|tauto]); try tauto.
  - destruct b; simpl; split; try discriminate; tauto.
  - destruct x; simpl; split; try discriminate; tauto.
  - destruct s; simpl; split; try discriminate; tauto.
Qed.

Lemma typeof_string_truthy (v : JSValue) :
  (negb (truthy v) || negb (String_eqb (typeof v) (js "string"))) = false <->
  exists q, v = JString q /\ q <> [].
Proof.
  destruct v as [| |b|x|s|l|l]; simpl;
    try (split; [discriminate | intros [q [H _]]; discriminate]).
  - destruct b; simpl; split; try discriminate; intros [q [H _]]; discriminate.
  - destruct x; simpl; split; try discriminate; intros [q [H _]]; discriminate.
  - destruct s as [|c s]; simpl; split; try discriminate.
    + intros [q [H Hq]]. inversion H; subst. congruence.
    + intros _. exists (c :: s). split; [reflexivity | discriminate].
    + reflexivity.
Qed.

Lemma is_object_not_nullish (v : JSValue) : is_object v -> nullish v = false.
Proof. destruct v; simpl; tauto. Qed.

(** The four outcomes of [validateRequest], each with the inputs that
    lead to it. *)
Lemma validateRequest_cases (requestData : JSValue) :
  (~ is_object requestData
   /\ validateRequest requestData = Normal (Failure INVALID_BODY))
  \/ (is_object requestData
      /\ (~ exists q, get requestData (js "query") = JString q /\ q <> [])
      /\ validateRequest requestData = Normal (Failure MISSING_FIELD))
  \/ (is_object requestData
      /\ (exists q, get requestData (js "query") = JString q /\ q <> [] /\ trim q = [])
      /\ validateRequest requestData = Normal (Failure EMPTY_QUERY))
  \/ (is_object requestData
      /\ (exists q, get requestData (js "query") = JString q /\ trim q <> [])
      /\ validateRequest requestData = Normal (Success requestData)).
Proof.
  unfold validateRequest.
  destruct (negb (truthy requestData)
            || negb (String_eqb (typeof requestData) (js "object"))) eqn:Hobj.
  { left. split; [|reflexivity].
    intro H. apply typeof_object in H. congruence. }
  apply typeof_object in Hobj. right.
  unfold member. rewrite (is_object_not_nullish _ Hobj). cbn [bind].
  destruct (negb (truthy (get requestData (js "query")))
            || negb (String_eqb (typeof (get requestData (js "query"))) (js "string")))
    eqn:Hq.
  { left. repeat split; auto.
    intro H. apply typeof_string_truthy in H. congruence. }
  apply typeof_string_truthy in Hq. destruct Hq as [q [Hget Hne]]. right.
  rewrite Hget. cbn [String_trim bind].
  destruct (trim q) as [|c t] eqn:Ht; cbn [length Nat.eqb].
  - left. split; [assumption|]. split; [|reflexivity]. exists q. auto.
  - right. split; [assumption|]. split; [|reflexivity]. exists q. split; auto.
    rewrite Ht. discriminate.
Qed.

Lemma failures_differ :
  INVALID_BODY <> MISSING_FIELD /\ INVALID_BODY <> EMPTY_QUERY /\ MISSING_FIELD <> EMPTY_QUERY.
Proof. repeat split; intro H; vm_compute in H; discriminate. Qed.

Lemma length_zero_nil (q : jsstring) : length q = 0 <-> q = [].
Proof. destruct q; cbn; split; congruence. Qed.

End ValidationFacts.

(** C4. Validation succeeds exactly for a non-null object whose [query]
    is a string that does not trim to the empty string; it then returns
    the payload itself, with [schema] and [apiKeys] untouched; and it
    never throws. *)
Theorem validateRequest_succeeds_iff (requestData : JSValue) :
  (succeeds requestData <->
     is_object requestData
     /\ exists q, get requestData (js "query") = JString q /\ 0 < length (trim q))
  /\ (forall v, validateRequest requestData = Normal (Success v) -> v = requestData)
  /\ (exists r, validateRequest requestData = Normal r).
Proof.
  unfold succeeds.
  destruct (validateRequest_cases requestData)
    as [[Hno E]|[[Hobj [Hno E]]|[[Hobj [[q [Hq [Hne Ht]]] E]]|[Hobj [[q [Hq Ht]] E]]]]];
    rewrite E; (split; [split|split; [|eauto]]).
  - intros [v H]; discriminate.
  - tauto.
  - intros v H; discriminate.
  - intros [v H]; discriminate.
  - intros [_ [q [Hq Hl]]]. exfalso. apply Hno. exists q. split; [assumption|].
    intro; subst q. cbn in Hl. lia.
  - intros v H; discriminate.
  - intros [v H]; discriminate.
  - intros [_ [q' [Hq' Hl]]]. rewrite Hq in Hq'. inversion Hq'; subst q'.
    rewrite Ht in Hl. cbn in Hl. lia.
  - intros v H; discriminate.
  - intros _. split; [assumption|]. exists q. split; [assumption|].
    destruct (trim q); [congruence | cbn; lia].
  - eauto.
  - intros v H. inversion H. reflexivity.
Qed.

(** C7, as the code has it. For every payload: the missing-field error
    is reported exactly when the payload is a non-null object whose
    [query] is absent, not a string, or the empty string; the empty-query
    error exactly when it is a non-null object whose [query] is a
    non-empty string that trims to the empty string. *)
Theorem validateRequest_failure_classification (requestData : JSValue) :
  (validateRequest requestData = Normal (Failure MISSING_FIELD)
   <-> is_object requestData
       /\ ~ exists q, get requestData (js "query") = JString q /\ q <> [])
  /\ (validateRequest requestData = Normal (Failure EMPTY_QUERY)
      <-> is_object requestData
          /\ exists q, get requestData (js "query") = JString q
                       /\ q <> [] /\ length (trim q) = 0).
Proof.
  destruct failures_differ as [D1 [D2 D3]].
  destruct (validateRequest_cases requestData)
    as [[Hno E]|[[Hobj [Hno E]]|[[Hobj [[q [Hq [Hne Ht]]] E]]|[Hobj [[q [Hq Ht]] E]]]]];
    rewrite E; (split; split).
  - intros H; inversion H; congruence.
  - tauto.
  - intros H; inversion H; congruence.
  - tauto.
  - auto.
  - reflexivity.
  - intros H; inversion H; congruence.
  - intros [_ [q [Hq [Hne Hl]]]]. exfalso. apply Hno. eauto.
  - intros H; inversion H; congruence.
  - intros [_ Hno]. exfalso. apply Hno. eauto.
  - intros _. split; [assumption|]. exists q. rewrite Ht. auto.
  - reflexivity.
  - intros H; discriminate.
  - intros [_ Hno]. exfalso. apply Hno. exists q. split; [assumption|].
    intro; subst q. apply Ht. reflexivity.
  - intros H; discriminate.
  - intros [_ [q' [Hq' [_ Hl]]]]. rewrite Hq in Hq'. inversion Hq'; subst q'.
    apply length_zero_nil in Hl. congruence.
Qed.

(** C7, as the specification words it, fails at the payload
    [{"query": ""}]: its query is a string whose trimmed length is zero,
    yet the error reported is the missing-field one. *)
Lemma empty_string_query_reported_missing :
  validateRequest (JObject [(js "query", JString [])]) = Normal (Failure MISSING_FIELD)
  /\ ~ classification_as_specified (JObject [(js "query", JString [])]).
Proof.
  split; [reflexivity|]. intros H.
  destruct (H I) as [[Hmissing _] _].
  apply Hmissing; [reflexivity|]. exists []. reflexivity.
Qed.

(** C3. For a request that is not [null] or [undefined], [resolveApiKeys]
    returns, for each provider on its own, the caller's credential when
    that is truthy and the process-level default otherwise; so a falsy
    caller value falls through to the default, and two resolutions that
    agree on a provider's two inputs agree on its resolved credential. *)
Theorem resolveApiKeys_per_provider (requestData : JSValue) (env : Env) :
  nullish requestData = false ->
  exists keys,
    resolveApiKeys requestData env = Normal keys
    /\ (forall p,
          resolved_credential keys p =
          if truthy (caller_credential requestData p) then caller_credential requestData p
          else default_credential env p)
    /\ (forall p, truthy (caller_credential requestData p) = false ->
                  resolved_credential keys p = default_credential env p)
    /\ (forall requestData' env' keys' p,
          resolveApiKeys requestData' env' = Normal keys' ->
          caller_credential requestData' p = caller_credential requestData p ->
          default_credential env' p = default_credential env p ->
          resolved_credential keys' p = resolved_credential keys p).
Proof.
  intros Hnn. unfold resolveApiKeys, member. rewrite Hnn. cbn [bind].
  eexists. split; [reflexivity|].
  assert (Hrule : forall rd e ks, resolveApiKeys rd e = Normal ks ->
            forall p, resolved_credential ks p =
                      if truthy (caller_credential rd p) then caller_credential rd p
                      else default_credential e p).
  { intros rd e ks H p. unfold resolveApiKeys, member in H.
    destruct (nullish rd); [discriminate|]. cbn [bind] in H. inversion H; subst ks.
    destruct p; reflexivity. }
  split; [|split].
  - intros p. destruct p; reflexivity.
  - intros p Hf. destruct p; cbn [resolved_credential ApiKeys.openai ApiKeys.anthropic
      ApiKeys.gemini ApiKeys.grok]; unfold or_else;
      unfold caller_credential in Hf; cbn [key_name] in Hf; rewrite Hf; reflexivity.
  - intros rd' env' keys' p H' Hc Hd. rewrite (Hrule _ _ _ H' p), Hc, Hd.
    destruct p; reflexivity.
Qed.

(** The rule at a request whose [openai] key is the empty string and
    whose [gemini] key is set, over an environment with an OpenAI key. *)
Lemma resolveApiKeys_per_provider_witness :
  nullish Sample.payload = false
  /\ exists keys,
       resolveApiKeys Sample.payload Sample.two_keys = Normal keys
       /\ resolved_credential keys OpenAI = JString (js "sk-openai")
       /\ resolved_credential keys Gemini = JString (js "caller-gemini").
Proof.
  split; [reflexivity|].
  destruct (resolveApiKeys_per_provider Sample.payload Sample.two_keys eq_refl)
    as [keys [E [Hrule _]]].
  exists keys. split; [exact E|]. split; rewrite Hrule; reflexivity.
Defined.

(* ====================================================================== *)
(** * The program logic                                                    *)
(* ====================================================================== *)

Section LogicFacts.
Context {rt : Runtime}.

Lemma Yields_try_catch A (post : list Z -> A -> Prop) caught exc rs
    (body : Async A) (handler : Thrown -> Async A) :
  Yields post caught rs body ->
  (forall rs' e, caught rs' e -> Yields post exc rs' (handler e)) ->
  Yields post exc rs (AsyncOps.try_catch body handler).
Proof.
  intros Hb Hh. induction Hb; cbn [AsyncOps.try_catch]; try (econstructor; eauto; fail).
  apply Hh; assumption.
Qed.

Lemma Yields_log A (post : list Z -> A -> Prop) exc rs level message context
    (k : unit -> Async A) :
  (forall stamp, Yields post exc (rs ++ [stamp]) (k tt)) ->
  Yields post exc rs (AsyncOps.bind (log level message context) k).
Proof.
  intros Hk. unfold log, createLogEntry, getCurrentTimestamp, logToConsole, AsyncOps.Date_now.
  cbn [AsyncOps.bind]. apply Yields_now. intro stamp. apply Yields_console. apply Hk.
Qed.

Lemma Yields_lift A B (post : list Z -> B -> Prop) exc rs
    (c : Completion A) (k : A -> Async B) :
  (forall a, c = Normal a -> Yields post exc rs (k a)) ->
  (forall e, c = Throw e -> exc rs e) ->
  Yields post exc rs (AsyncOps.bind (AsyncOps.lift c) k).
Proof.
  intros Hk He. destruct c as [a|e]; cbn [AsyncOps.lift AsyncOps.bind].
  - apply Hk; reflexivity.
  - apply Yields_raise. apply He; reflexivity.
Qed.

(** The invoker, for every adapter and every string query: it never
    throws, and what it returns is a tagged outcome of its provider whose
    latency is a difference of two of its clock readings.  Exceptions in
    the [try] block reach the [catch] with the first two readings (start
    time and the timestamp of the first log line) already made. *)
Lemma createLLMQueryFunction_yields provider url buildHeaders buildBody parseResponse
    urlModifier (q : jsstring) (schema apiKey : JSValue) :
  Yields (outcome_of provider) never []
    (createLLMQueryFunction provider url buildHeaders buildBody parseResponse
       urlModifier (JString q) schema apiKey).
Proof.
  unfold createLLMQueryFunction, AsyncOps.Date_now.
  cbn [AsyncOps.bind String_substring0 AsyncOps.lift].
  apply Yields_now. intro start. cbn [app].
  unfold logInfo. apply Yields_log. intro stamp. cbn [app].
  apply Yields_try_catch
    with (caught := fun rs _ => exists more, rs = start :: stamp :: more).
  - apply Yields_lift; [intros finalUrl _ | intros; exists []; reflexivity].
    apply Yields_lift; [intros headers _ | intros; exists []; reflexivity].
    apply Yields_lift; [intros body _ | intros; exists []; reflexivity].
    apply Yields_lift; [intros text _ | intros; exists []; reflexivity].
    unfold AsyncOps.fetch, AsyncOps.Response_text. cbn [AsyncOps.bind].
    apply Yields_fetch.
    intros [response|e]; cbn [AsyncOps.lift AsyncOps.bind];
      [|apply Yields_raise; exists []; reflexivity].
    apply Yields_text.
    intros [responseText|e]; cbn [AsyncOps.lift AsyncOps.bind];
      [|apply Yields_raise; exists []; reflexivity].
    apply Yields_now. intro finish. cbn [app].
    assert (Hlat : forall stamp' out, latency out = (finish - start)%Z ->
              latency_between ([start; stamp; finish] ++ [stamp']) out).
    { intros stamp' out H. exists start, [stamp], finish, [stamp']. auto. }
    destruct (negb (FetchResponse.ok response)).
    { unfold logWarn. apply Yields_log. intro stamp'. apply Yields_return.
      split; [reflexivity|]. split; [|apply Hlat; reflexivity].
      right. cbn. eauto. }
    apply Yields_lift; [intros jsonParseResult _ | intros; exists [finish]; reflexivity].
    destruct jsonParseResult as [parsed|parseError].
    + apply Yields_lift; [intros dataParseResult _ | intros; exists [finish]; reflexivity].
      destruct dataParseResult as [value|parseError].
      * apply Yields_log. intro stamp'. apply Yields_return.
        split; [reflexivity|]. split; [|apply Hlat; reflexivity].
        left. cbn. eauto.
      * unfold logError. apply Yields_log. intro stamp'. apply Yields_return.
        split; [reflexivity|]. split; [|apply Hlat; reflexivity].
        right. cbn. eauto.
    + unfold logError. apply Yields_log. intro stamp'. apply Yields_return.
      split; [reflexivity|]. split; [|apply Hlat; reflexivity].
      right. cbn. eauto.
  - intros rs' error [more Hrs]. subst rs'.
    apply Yields_now. intro finish.
    unfold logError. apply Yields_log. intro stamp'. apply Yields_return.
    split; [reflexivity|]. split.
    + right. cbn. eauto.
    + exists start, (stamp :: more), finish, [stamp']. split; [|reflexivity].
      cbn. rewrite <- app_assoc. reflexivity.
Qed.

Lemma Awaits_le A n f n' f' (t : Async A) :
  Awaits n f t -> n <= n' -> f <= f' -> Awaits n' f' t.
Proof.
  intros H. revert n' f'.
  induction H as [| | | |n f req k _ IH|n f resp k _ IH]; intros n' f' Hn Hf;
    try (constructor; auto; fail).
  - destruct n' as [|n']; [lia|]. destruct f' as [|f']; [lia|].
    constructor. intro r. apply IH; lia.
  - destruct n' as [|n']; [lia|]. constructor. intro r. apply IH; lia.
Qed.

Lemma Awaits_bind A B n f n' f' (m : Async A) (k : A -> Async B) :
  Awaits n f m -> (forall a, Awaits n' f' (k a)) ->
  Awaits (n + n') (f + f') (AsyncOps.bind m k).
Proof.
  intros Hm Hk. induction Hm; cbn [AsyncOps.bind]; try (constructor; auto; fail).
  apply Awaits_le with (n := n') (f := f'); [apply Hk | lia | lia].
Qed.

Lemma Awaits_try_catch A n f n' f' (body : Async A) (handler : Thrown -> Async A) :
  Awaits n f body -> (forall e, Awaits n' f' (handler e)) ->
  Awaits (n + n') (f + f') (AsyncOps.try_catch body handler).
Proof.
  intros Hb Hh. induction Hb; cbn [AsyncOps.try_catch]; try (constructor; auto; fail).
  apply Awaits_le with (n := n') (f := f'); [apply Hh | lia | lia].
Qed.

Lemma Awaits_lift A n f (c : Completion A) : Awaits n f (AsyncOps.lift c).
Proof. destruct c; constructor. Qed.

Lemma Awaits_log n f level message context : Awaits n f (log level message context).
Proof.
  unfold log, createLogEntry, getCurrentTimestamp, logToConsole, AsyncOps.Date_now.
  cbn [AsyncOps.bind]. repeat constructor.
Qed.

Lemma Awaits_Date_now n f : Awaits n f AsyncOps.Date_now.
Proof. repeat constructor. Qed.

Lemma Awaits_fetch_call n f req : Awaits (S n) (S f) (AsyncOps.fetch req).
Proof. constructor. intro r. apply Awaits_lift. Qed.

Lemma Awaits_Response_text n f resp : Awaits (S n) f (AsyncOps.Response_text resp).
Proof. constructor. intro r. apply Awaits_lift. Qed.

Ltac sync_step := apply (Awaits_bind (n := 0) (f := 0)).

(** The invoker awaits twice at most, and fetches once at most. *)
Lemma createLLMQueryFunction_awaits provider url buildHeaders buildBody parseResponse
    urlModifier (query schema apiKey : JSValue) :
  Awaits 2 1
    (createLLMQueryFunction provider url buildHeaders buildBody parseResponse
       urlModifier query schema apiKey).
Proof.
  unfold createLLMQueryFunction.
  sync_step; [apply Awaits_Date_now | intro startTime].
  sync_step; [apply Awaits_lift | intro preview].
  sync_step; [apply Awaits_log | intros _].
  apply (Awaits_try_catch (n := 2) (f := 1) (n' := 0) (f' := 0)).
  - sync_step; [apply Awaits_lift | intro finalUrl].
    sync_step; [apply Awaits_lift | intro headers].
    sync_step; [apply Awaits_lift | intro body].
    sync_step; [apply Awaits_lift | intro text].
    apply (Awaits_bind (n := 1) (f := 1) (n' := 1) (f' := 0));
      [apply Awaits_fetch_call | intro response].
    apply (Awaits_bind (n := 1) (f := 0) (n' := 0) (f' := 0));
      [apply Awaits_Response_text | intro responseText].
    sync_step; [apply Awaits_Date_now | intro now].
    destruct (negb (FetchResponse.ok response)).
    { sync_step; [apply Awaits_log | intros _; constructor]. }
    sync_step; [apply Awaits_lift | intros [parsed|parseError]].
    + sync_step; [apply Awaits_lift | intros [value|parseError]];
        (sync_step; [apply Awaits_log | intros _; constructor]).
    + sync_step; [apply Awaits_log | intros _; constructor].
  - intro error.
    sync_step; [apply Awaits_Date_now | intro now].
    sync_step; [apply Awaits_log | intros _; constructor].
Qed.

End LogicFacts.

(* ====================================================================== *)
(** * The event loop                                                       *)
(* ====================================================================== *)

Section LoopFacts.
Variable host : Host.
Variable A : Type.

(** A body that never throws runs to a value, and the readings it makes
    are the host's clock from the current tick on. *)
Lemma run_sound (post : list Z -> A -> Prop) rs (t : Async A) :
  Yields post never rs t ->
  forall w, exists a w',
    LoopOps.run host t w = (Normal a, w')
    /\ post (rs ++ map (clock host) (seq (ticks w) (ticks w' - ticks w))) a
    /\ ticks w <= ticks w'.
Proof.
  induction 1 as [rs a Hp | rs e He | rs k _ IH | rs m l k _ IH
                  | rs req k _ IH | rs resp k _ IH]; intros w; cbn [LoopOps.run].
  - exists a, w. rewrite Nat.sub_diag. cbn. rewrite app_nil_r. auto.
  - destruct He.
  - unfold LoopOps.read_clock.
    destruct (IH (clock host (ticks w))
                {| ticks := S (ticks w); console := console w; requests := requests w |})
      as [a [w' [Hrun [Hpost Hle]]]]. cbn [ticks] in *.
    exists a, w'. split; [exact Hrun|]. split; [|lia].
    replace (ticks w' - ticks w) with (S (ticks w' - S (ticks w))) by lia.
    cbn [seq map]. rewrite <- app_assoc in Hpost. exact Hpost.
  - destruct (IH (LoopOps.write_console m l w)) as [a [w' [Hrun [Hpost Hle]]]].
    exists a, w'. auto.
  - destruct (IH (network host req) (LoopOps.send req w)) as [a [w' [Hrun [Hpost Hle]]]].
    exists a, w'. auto.
  - destruct (IH (FetchResponse.text resp) w) as [a [w' [Hrun [Hpost Hle]]]].
    exists a, w'. auto.
Qed.

Lemma run_sync_in_flight (post : list Z -> A -> Prop) rs (t : Async A) :
  Yields post never rs t ->
  forall w, in_flight post (fst (LoopOps.run_sync host t w)).
Proof.
  induction 1 as [rs a Hp | rs e He | rs k Hk IH | rs m l k Hk IH
                  | rs req k Hk IH | rs resp k Hk IH]; intros w; cbn [LoopOps.run_sync].
  - split; [exists rs; constructor; auto | exact I].
  - destruct He.
  - unfold LoopOps.read_clock. apply IH.
  - apply IH.
  - split; [exists rs; constructor; auto | exact I].
  - split; [exists rs; constructor; auto | exact I].
Qed.

Lemma resume_in_flight (post : list Z -> A -> Prop) (p : Async A) w :
  in_flight post p -> in_flight post (fst (LoopOps.resume host p w)).
Proof.
  intros [[rs H] Hsusp].
  destruct p as [a | e | k | m l k | req k | resp k]; cbn [LoopOps.resume];
    try (split; [exists rs; exact H | exact Hsusp]).
  - inversion H; subst. eapply run_sync_in_flight; eauto.
  - inversion H; subst. eapply run_sync_in_flight; eauto.
Qed.

Lemma run_sync_awaits n f (t : Async A) :
  Awaits n f t -> forall w, Awaits n f (fst (LoopOps.run_sync host t w)).
Proof.
  induction 1; intros w; cbn [LoopOps.run_sync]; try (cbn; constructor; auto; fail).
  - unfold LoopOps.read_clock. auto.
  - auto.
Qed.

Lemma resume_awaits n f (p : Async A) w :
  Awaits (S n) f p -> suspended p -> Awaits n f (fst (LoopOps.resume host p w)).
Proof.
  intros H Hs. destruct p; cbn [LoopOps.resume]; try (destruct Hs; fail);
    try (cbn; constructor; fail).
  - inversion H; subst. apply run_sync_awaits.
    eapply Awaits_le; [eauto | lia | lia].
  - inversion H; subst. apply run_sync_awaits. auto.
Qed.

(** A body with no fetch left sends nothing. *)
Lemma run_sync_silent n (t : Async A) :
  Awaits n 0 t ->
  forall w, requests (snd (LoopOps.run_sync host t w)) = requests w
            /\ Awaits n 0 (fst (LoopOps.run_sync host t w)).
Proof.
  intros H. remember 0 as f eqn:Ef.
  induction H as [| | n f k _ IH | n f m l k _ IH | |]; intros w; subst;
    cbn [LoopOps.run_sync]; try discriminate;
    try (cbn; split; [reflexivity | constructor; auto]; fail).
  - unfold LoopOps.read_clock.
    destruct (IH (clock host (ticks w)) eq_refl
                {| ticks := S (ticks w); console := console w; requests := requests w |})
      as [Hr Ha]. auto.
  - destruct (IH eq_refl (LoopOps.write_console m l w)) as [Hr Ha]. auto.
Qed.

Lemma Awaits_quiet n (t : Async A) : Awaits n 0 t -> quiet t.
Proof.
  intros H. destruct t; cbn; eauto. inversion H.
Qed.

Lemma resume_quiet (p : Async A) w :
  quiet p ->
  requests (snd (LoopOps.resume host p w)) = requests w
  /\ quiet (fst (LoopOps.resume host p w)).
Proof.
  intros Hq. destruct p as [a | e | k | m l k | req k | resp k]; cbn [LoopOps.resume];
    try (split; [reflexivity | exact Hq]).
  - destruct (Hq (network host req)) as [n Hn].
    destruct (run_sync_silent Hn w) as [Hr Ha]. split; [exact Hr|].
    eapply Awaits_quiet; eauto.
  - destruct Hq as [n Hn]. inversion Hn; subst.
    match goal with H : forall r, Awaits _ 0 (k r) |- _ =>
      destruct (run_sync_silent (H (FetchResponse.text resp)) w) as [Hr Ha] end.
    split; [exact Hr|]. eapply Awaits_quiet; eauto.
Qed.

Lemma first_rejection_none posts (ps : list (Async A)) :
  Forall2 (@in_flight A) posts ps -> LoopOps.first_rejection ps = None.
Proof.
  induction 1 as [|post p posts ps [[rs Hy] _] _ IH]; [reflexivity|].
  destruct p; cbn [LoopOps.first_rejection]; auto.
  inversion Hy; subst. match goal with E : never _ _ |- _ => destruct E end.
Qed.

Lemma fulfilled_values_post posts (ps : list (Async A)) values :
  Forall2 (@in_flight A) posts ps ->
  LoopOps.fulfilled_values ps = Some values ->
  Forall2 (fun post a => exists rs, post rs a) posts values.
Proof.
  intros H. revert values.
  induction H as [|post p posts ps [[rs Hy] _] _ IH]; intros values Hv; cbn in Hv.
  - inversion Hv. constructor.
  - destruct p; try discriminate.
    destruct (LoopOps.fulfilled_values ps) as [vs|]; [|discriminate].
    inversion Hv; subst. constructor; auto.
    inversion Hy; subst. eauto.
Qed.

Lemma Forall2_replace_nth X Y (R : X -> Y -> Prop) xs ys i y y' :
  Forall2 R xs ys ->
  nth_error ys i = Some y ->
  (forall x, R x y -> R x y') ->
  Forall2 R xs (LoopOps.replace_nth i y' ys).
Proof.
  intros H. revert i.
  induction H as [|x0 y0 xs ys Hxy Hrest IH]; intros i Hnth Hstep.
  - destruct i; discriminate.
  - destruct i as [|i]; cbn in *.
    + inversion Hnth; subst. constructor; [apply Hstep; assumption | assumption].
    + constructor; [assumption | apply IH; assumption].
Qed.

Lemma Forall_replace_nth X (P : X -> Prop) xs i x :
  Forall P xs -> P x -> Forall P (LoopOps.replace_nth i x xs).
Proof.
  intros H Hx. revert i. induction H as [|y ys Hy Hys IH]; intros i.
  - destruct i; constructor.
  - destruct i; cbn; constructor; auto.
Qed.

Lemma nth_error_replace_nth X i j (x : X) l :
  nth_error (LoopOps.replace_nth i x l) j =
  if Nat.eqb i j then option_map (fun _ => x) (nth_error l j) else nth_error l j.
Proof.
  revert i j. induction l as [|y l IH]; intros i j; cbn.
  - destruct i, j; cbn; try reflexivity; destruct (Nat.eqb _ _); reflexivity.
  - destruct i, j; cbn; auto.
Qed.

Lemma Forall2_nth_error_right X Y (R : X -> Y -> Prop) (P : Y -> Prop) xs ys i y :
  Forall2 R xs ys -> (forall x y, R x y -> P y) -> nth_error ys i = Some y -> P y.
Proof.
  intros H HP. revert i. induction H as [|x0 y0 xs ys Hxy _ IH]; intros i Hnth.
  - destruct i; discriminate.
  - destruct i; cbn in Hnth; [inversion Hnth; subst; eauto | eauto].
Qed.

(** [Promise.all] over promises that never throw is never rejected, and
    what it fulfils with has the values in the order of the promises,
    whatever the completion order. *)
Lemma join_sound posts order :
  forall (ps : list (Async A)) w,
    Forall2 (@in_flight A) posts ps ->
    match fst (LoopOps.join host order ps w) with
    | Fulfilled values => Forall2 (fun post a => exists rs, post rs a) posts values
    | Rejected _ => False
    | Pending => True
    end.
Proof.
  induction order as [|i rest IH]; intros ps w Hps; cbn [LoopOps.join];
    rewrite (first_rejection_none Hps);
    destruct (LoopOps.fulfilled_values ps) as [values|] eqn:Hv;
    try (cbn; eapply fulfilled_values_post; eauto; fail).
  - exact I.
  - destruct (nth_error ps i) as [p|] eqn:Hnth; [|apply IH; assumption].
    pose proof (fun post (H : in_flight post p) => resume_in_flight w H) as Hstep.
    destruct (LoopOps.resume host p w) as [p' w1]. cbn [fst] in Hstep.
    apply IH. eapply Forall2_replace_nth; eauto.
Qed.

(** [Promise.all] over quiet promises sends nothing. *)
Lemma join_silent order :
  forall (ps : list (Async A)) w,
    Forall (@quiet A) ps ->
    requests (snd (LoopOps.join host order ps w)) = requests w.
Proof.
  induction order as [|i rest IH]; intros ps w Hq; cbn [LoopOps.join];
    destruct (LoopOps.first_rejection ps); try reflexivity;
    destruct (LoopOps.fulfilled_values ps); try reflexivity.
  destruct (nth_error ps i) as [p|] eqn:Hnth; [|apply IH; assumption].
  assert (Hp : quiet p).
  { rewrite Forall_forall in Hq. apply Hq. eapply nth_error_In; eauto. }
  destruct (@resume_quiet p w Hp) as [Hr Hq'].
  destruct (LoopOps.resume host p w) as [p' w1]. cbn [fst snd] in *.
  rewrite IH; [exact Hr|]. apply Forall_replace_nth; assumption.
Qed.

Lemma settled_values posts (ps : list (Async A)) :
  Forall2 (@in_flight A) posts ps ->
  (forall i p, nth_error ps i = Some p -> Awaits 0 1 p) ->
  exists values, LoopOps.fulfilled_values ps = Some values.
Proof.
  induction 1 as [|post p posts ps [[rs Hy] Hs] _ IH]; intros Hz; cbn.
  - eauto.
  - destruct IH as [values Hv].
    { intros i q Hq. apply (Hz (S i) q Hq). }
    rewrite Hv. specialize (Hz 0 p eq_refl).
    destruct p; try (destruct Hs; fail); try (inversion Hz; fail); eauto.
    inversion Hy; subst. match goal with E : never _ _ |- _ => destruct E end.
Qed.

(** [Promise.all] fulfils once every promise has had as many turns as it
    has awaits. *)
Lemma join_complete posts order :
  forall (ps : list (Async A)) w,
    Forall2 (@in_flight A) posts ps ->
    (forall i p, nth_error ps i = Some p ->
                 Awaits (count_occ Nat.eq_dec order i) 1 p) ->
    exists values, fst (LoopOps.join host order ps w) = Fulfilled values.
Proof.
  induction order as [|i rest IH]; intros ps w Hps Hturns; cbn [LoopOps.join];
    rewrite (first_rejection_none Hps).
  - destruct (settled_values Hps Hturns) as [values Hv]. rewrite Hv.
    exists values. reflexivity.
  - destruct (LoopOps.fulfilled_values ps) as [values|] eqn:Hv;
      [exists values; reflexivity|].
    destruct (nth_error ps i) as [p|] eqn:Hnth.
    + pose proof (fun post (H : in_flight post p) => resume_in_flight w H) as Hstep.
      assert (Hs : suspended p).
      { eapply Forall2_nth_error_right with (R := @in_flight A); eauto.
        intros x y [_ H]; exact H. }
      specialize (Hturns i p Hnth) as Hp. cbn [count_occ] in Hp.
      destruct (Nat.eq_dec i i) as [_|Hne]; [|congruence].
      pose proof (resume_awaits w Hp Hs) as Hp'.
      destruct (LoopOps.resume host p w) as [p' w1]. cbn [fst] in *.
      apply IH.
      * eapply Forall2_replace_nth; eauto.
      * intros j q Hq. rewrite nth_error_replace_nth in Hq.
        destruct (Nat.eqb i j) eqn:Hij.
        -- apply Nat.eqb_eq in Hij. subst j. rewrite Hnth in Hq. cbn in Hq.
           inversion Hq; subst q. exact Hp'.
        -- apply Nat.eqb_neq in Hij. specialize (Hturns j q Hq).
           cbn [count_occ] in Hturns.
           destruct (Nat.eq_dec i j) as [Heq|_]; [congruence | exact Hturns].
    + apply IH; [assumption|]. intros j q Hq. specialize (Hturns j q Hq).
      cbn [count_occ] in Hturns.
      destruct (Nat.eq_dec i j) as [Heq|_]; [congruence | exact Hturns].
Qed.

End LoopFacts.

(* ====================================================================== *)
(** * The dispatcher                                                       *)
(* ====================================================================== *)

Section DispatchFacts.
Context {rt : Runtime}.
Variable host : Host.

Lemma perform_Date_now w :
  LoopOps.perform host AsyncOps.Date_now w
  = (Fulfilled (clock host (ticks w)),
     {| ticks := S (ticks w); console := console w; requests := requests w |}).
Proof. reflexivity. Qed.

Lemma perform_log level message context w :
  exists w', LoopOps.perform host (log level message context) w = (Fulfilled tt, w')
             /\ requests w' = requests w.
Proof. eexists. split; reflexivity. Qed.

Lemma perform_createErrorResponse status message details w :
  exists stamp w',
    LoopOps.perform host (createErrorResponse status message details) w
    = (Fulfilled {| Response.body :=
                      ErrorBody message
                        (match details with
                         | Some d => if truthy d then Some d else None
                         | None => None
                         end) stamp;
                    Response.status := status;
                    Response.headers := [(js "Content-Type", js "application/json")] |},
       w')
    /\ requests w' = requests w.
Proof. do 2 eexists. split; reflexivity. Qed.

Lemma perform_createCombinedResponse query responses totalLatency w :
  exists stamp w',
    LoopOps.perform host (createCombinedResponse query responses totalLatency) w
    = (Fulfilled {| CombinedResponse.query := query;
                    CombinedResponse.responses := responses;
                    CombinedResponse.totalLatency := totalLatency;
                    CombinedResponse.timestamp := stamp;
                    CombinedResponse.providersQueried := length responses |},
       w')
    /\ requests w' = requests w.
Proof. do 2 eexists. split; reflexivity. Qed.

(** [createSuccessResponse] answers 200, unless serialising the
    combined response throws: then it throws what the serialiser threw. *)
Lemma perform_createSuccessResponse data q w :
  CombinedResponse.query data = JString q ->
  exists w',
    LoopOps.perform host (createSuccessResponse data) w
    = (match JSON_stringify (CombinedResponse_value data) 2 with
       | Normal _ =>
           Fulfilled {| Response.body := SuccessBody data;
                        Response.status := 200;
                        Response.headers := [(js "Content-Type", js "application/json");
                                             (js "Access-Control-Allow-Origin", js "*")] |}
       | Throw e => Rejected e
       end, w')
    /\ requests w' = requests w.
Proof.
  intros Hq. unfold createSuccessResponse. rewrite Hq.
  unfold LoopOps.perform, logInfo, log, createLogEntry, getCurrentTimestamp,
    logToConsole, AsyncOps.Date_now.
  cbn [AsyncOps.bind String_substring0 AsyncOps.lift LoopOps.run LoopOps.read_clock
       LoopOps.write_console].
  destruct (JSON_stringify (CombinedResponse_value data) 2);
    eexists; split; reflexivity.
Qed.

(** Calling the invoker sends its request, if it can prepare one, and
    leaves a promise that will not fetch again. *)
Lemma call_createLLMQueryFunction provider url buildHeaders buildBody parseResponse
    urlModifier (q : jsstring) (schema apiKey : JSValue) w :
  let t := createLLMQueryFunction provider url buildHeaders buildBody parseResponse
             urlModifier (JString q) schema apiKey in
  requests (snd (LoopOps.run_sync host t w))
  = requests w ++ first_request url buildHeaders buildBody urlModifier
                    (JString q) schema apiKey
  /\ quiet (fst (LoopOps.run_sync host t w)).
Proof.
  intros t.
  pose proof (run_sync_awaits host
                (createLLMQueryFunction_awaits provider url buildHeaders buildBody
                   parseResponse urlModifier (JString q) schema apiKey) w) as Ha.
  fold t in Ha. revert Ha. subst t.
  unfold createLLMQueryFunction, first_request, logInfo, log,
    createLogEntry, getCurrentTimestamp, logToConsole, AsyncOps.Date_now.
  cbn [AsyncOps.bind String_substring0 AsyncOps.lift LoopOps.run_sync LoopOps.read_clock
       AsyncOps.try_catch].
  destruct (match urlModifier with
            | Some modify => modify url apiKey
            | None => Normal url
            end) as [finalUrl|e1];
    [destruct (buildHeaders apiKey) as [headers|e2];
     [destruct (buildBody (JString q) schema) as [body|e3];
      [cbn [AsyncOps.bind AsyncOps.lift AsyncOps.try_catch bind];
       destruct (JSON_stringify body 0) as [text|e4]|]|]|];
    cbn [AsyncOps.bind AsyncOps.lift AsyncOps.try_catch AsyncOps.fetch LoopOps.run_sync
         LoopOps.read_clock LoopOps.write_console LoopOps.send fst snd
         ticks console requests bind];
    intros Ha.
  - split; [reflexivity|]. cbn [quiet]. inversion Ha; subst. eauto.
  - split; [rewrite app_nil_r; reflexivity | cbn; exists 0; constructor].
  - split; [rewrite app_nil_r; reflexivity | cbn; exists 0; constructor].
  - split; [rewrite app_nil_r; reflexivity | cbn; exists 0; constructor].
  - split; [rewrite app_nil_r; reflexivity | cbn; exists 0; constructor].
Qed.

End DispatchFacts.

Section DispatcherFacts.
Context {rt : Runtime}.
Variable host : Host.
Variable q : jsstring.
Variable schema : JSValue.
Variable keys : ApiKeys.t.

Lemma call_query (p : ProviderId) w :
  let t := query_function p (JString q) schema (resolved_credential keys p) in
  requests (snd (LoopOps.run_sync host t w))
  = requests w ++ request_to (JString q) schema keys p
  /\ quiet (fst (LoopOps.run_sync host t w))
  /\ in_flight (outcome_of (provider_name p)) (fst (LoopOps.run_sync host t w))
  /\ Awaits 2 1 (fst (LoopOps.run_sync host t w)).
Proof.
  intros t.
  assert (Hreq : requests (snd (LoopOps.run_sync host t w))
                 = requests w ++ request_to (JString q) schema keys p
                 /\ quiet (fst (LoopOps.run_sync host t w))).
  { subst t. destruct p; cbn [query_function];
      unfold queryOpenAI, queryClaude, queryGemini, queryGrok;
      match goal with
      | |- context [createLLMQueryFunction ?n ?u ?bh ?bb ?pr ?um _ _ ?k] =>
          destruct (call_createLLMQueryFunction host n u bh bb pr um q schema k w)
            as [Hr Hq]
      end;
      (split; [|exact Hq]); rewrite Hr; f_equal;
      unfold first_request, request_to, final_url, request_headers;
      cbn [request_body bind config resolved_credential];
      destruct (JSON_stringify _ 0); cbn [bind];
      repeat match goal with
             | |- context [match ?c with Normal _ => _ | Throw _ => _ end] =>
                 destruct c; cbn [bind]
             end; reflexivity. }
  destruct Hreq as [Hr Hq]. split; [exact Hr|]. split; [exact Hq|]. split.
  - subst t. destruct p; cbn [query_function];
      eapply run_sync_in_flight; apply createLLMQueryFunction_yields.
  - subst t. destruct p; cbn [query_function];
      apply run_sync_awaits; apply createLLMQueryFunction_awaits.
Qed.

Lemma push_step (p : ProviderId) chosen ps w0 w :
  dispatched (JString q) schema keys chosen ps w0 w ->
  exists ps' w',
    (if truthy (resolved_credential keys p) then
       LoopOps.bind
         (LoopOps.call host
            (query_function p (JString q) schema (resolved_credential keys p)))
         (fun x => LoopOps.ret (ps ++ [x]))
     else LoopOps.ret ps) w = (Fulfilled ps', w')
    /\ dispatched (JString q) schema keys
         (chosen ++ if truthy (resolved_credential keys p) then [p] else []) ps' w0 w'.
Proof.
  intros [Hfl [Haw [Hqu Hreq]]]. destruct (truthy (resolved_credential keys p)).
  - unfold LoopOps.bind, LoopOps.call, LoopOps.ret.
    destruct (call_query p w) as [Hr [Hq [Hin Ha]]].
    destruct (LoopOps.run_sync host
                (query_function p (JString q) schema (resolved_credential keys p)) w)
      as [x w']. cbn [fst snd] in *.
    exists (ps ++ [x]), w'. split; [reflexivity|].
    split; [|split; [|split]].
    + rewrite map_app. apply Forall2_app; [assumption|]. cbn. constructor; [assumption|constructor].
    + intros i p0 Hnth. destruct (Nat.lt_ge_cases i (length ps)) as [Hlt|Hge].
      * rewrite nth_error_app1 in Hnth by assumption. eauto.
      * rewrite nth_error_app2 in Hnth by assumption.
        destruct (i - length ps) as [|j]; cbn in Hnth.
        -- inversion Hnth; subst; auto.
        -- destruct j; discriminate.
    + apply Forall_app. split; [assumption | constructor; [assumption|constructor]].
    + rewrite Hr, Hreq, flat_map_app. cbn [flat_map]. rewrite app_nil_r, app_assoc.
      reflexivity.
  - exists ps, w. split; [reflexivity|]. rewrite app_nil_r.
    split; [|split; [|split]]; assumption.
Qed.

(** [buildLLMPromises] pushes one promise for each provider with a truthy
    key, in registration order. *)
Lemma buildLLMPromises_dispatched w :
  exists ps w',
    buildLLMPromises host (JString q) schema keys w = (Fulfilled ps, w')
    /\ dispatched (JString q) schema keys (available keys) ps w w'.
Proof.
  assert (H0 : dispatched (JString q) schema keys [] [] w w).
  { split; [constructor|]. split; [intros i p Hnth; destruct i; discriminate|].
    split; [constructor | cbn; rewrite app_nil_r; reflexivity]. }
  destruct (push_step OpenAI H0) as [ps1 [w1 [E1 H1]]].
  destruct (push_step Anthropic H1) as [ps2 [w2 [E2 H2]]].
  destruct (push_step Gemini H2) as [ps3 [w3 [E3 H3]]].
  destruct (push_step Grok H3) as [ps4 [w4 [E4 H4]]].
  cbn [resolved_credential query_function] in E1, E2, E3, E4.
  exists ps4, w4. split.
  - unfold buildLLMPromises.
    unfold LoopOps.bind at 1. rewrite E1.
    unfold LoopOps.bind at 1. rewrite E2.
    unfold LoopOps.bind at 1. rewrite E3.
    unfold LoopOps.bind at 1. rewrite E4. reflexivity.
  - replace (available keys)
      with ((((([] ++ (if truthy (resolved_credential keys OpenAI) then [OpenAI] else []))
               ++ (if truthy (resolved_credential keys Anthropic) then [Anthropic] else []))
              ++ (if truthy (resolved_credential keys Gemini) then [Gemini] else []))
             ++ (if truthy (resolved_credential keys Grok) then [Grok] else []))).
    + exact H4.
    + unfold available, registration_order. cbn [filter].
      destruct (truthy (resolved_credential keys OpenAI)),
        (truthy (resolved_credential keys Anthropic)),
        (truthy (resolved_credential keys Gemini)),
        (truthy (resolved_credential keys Grok)); reflexivity.
Qed.

End DispatcherFacts.

(* ====================================================================== *)
(** * The handler                                                          *)
(* ====================================================================== *)

Section HandlerFacts.
Context {rt : Runtime}.
Variable host : Host.

Lemma outcomes_in_order chosen (values : list LLMResponse) :
  Forall2 (fun (post : list Z -> LLMResponse -> Prop) a => exists rs, post rs a)
    (map (fun p => outcome_of (provider_name p)) chosen) values ->
  map provider values = map provider_name chosen /\ Forall tagged values.
Proof.
  revert values. induction chosen as [|p chosen IH]; intros values H;
    inversion H as [|post a posts vs Ha Hrest]; subst.
  - split; constructor.
  - destruct Ha as [rs [Hp [Ht _]]]. destruct (IH vs Hrest) as [Hm Hf].
    split; [cbn; congruence | constructor; auto].
Qed.

(** What [handleRequest] does with a POST request whose body validates:
    the requests it sends, and how it settles. *)
Lemma handleRequest_validated (request : Request.t) (env : Env)
    (requestData : JSValue) (w : World) :
  Request.method request = js "POST" ->
  Request.json request = Normal requestData ->
  succeeds requestData ->
  exists keys q,
    resolveApiKeys requestData env = Normal keys
    /\ get requestData (js "query") = JString q
    /\ requests (snd (handleRequest host request env w))
       = requests w
         ++ flat_map (request_to (JString q) (effective_schema requestData) keys)
              (available keys)
    /\ match fst (handleRequest host request env w) with
       | Fulfilled response =>
           match available keys with
           | [] =>
               Response.status response = 400%N
               /\ exists stamp, Response.body response = ErrorBody NO_API_KEYS None stamp
           | _ :: _ =>
               exists stamp total outcomes,
                 Response.body response
                 = SuccessBody {| CombinedResponse.query := JString q;
                                  CombinedResponse.responses := outcomes;
                                  CombinedResponse.totalLatency := total;
                                  CombinedResponse.timestamp := stamp;
                                  CombinedResponse.providersQueried := length outcomes |}
                 /\ Response.status response = 200%N
                 /\ map provider outcomes = map provider_name (available keys)
                 /\ Forall tagged outcomes
           end
       | Rejected e =>
           available keys <> []
           /\ exists stamp total outcomes,
                JSON_stringify
                  (CombinedResponse_value
                     {| CombinedResponse.query := JString q;
                        CombinedResponse.responses := outcomes;
                        CombinedResponse.totalLatency := total;
                        CombinedResponse.timestamp := stamp;
                        CombinedResponse.providersQueried := length outcomes |}) 2
                = Throw e
                /\ map provider outcomes = map provider_name (available keys)
                /\ Forall tagged outcomes
       | Pending =>
           available keys <> []
           /\ ~ every_promise_gets_two_turns host (length (available keys))
       end.
Proof.
  intros Hm Hj [v Hv].
  destruct (validateRequest_cases requestData)
    as [[_ E]|[[_ [_ E]]|[[_ [_ E]]|[Hobj [[q [Hq _]] Hval]]]]];
    try (rewrite E in Hv; discriminate).
  clear v Hv.
  assert (Hnn : nullish requestData = false) by (apply is_object_not_nullish; assumption).
  assert (Hkeys : exists keys, resolveApiKeys requestData env = Normal keys).
  { unfold resolveApiKeys, member. rewrite Hnn. cbn [bind]. eauto. }
  destruct Hkeys as [keys Hkeys]. exists keys, q.
  split; [assumption|]. split; [assumption|].
  remember (handleRequest host request env w) as result eqn:E.
  unfold handleRequest in E.
  unfold LoopOps.bind at 1 in E. rewrite perform_Date_now in E.
  unfold LoopOps.bind at 1 in E. unfold logInfo in E.
  match type of E with context [LoopOps.perform host (log INFO ?m ?c) ?w0] =>
    destruct (perform_log host INFO m c w0) as [w1 [E1 R1]]; rewrite E1 in E end.
  cbn [requests] in R1.
  rewrite Hm, String_eqb_refl in E. cbn [negb] in E.
  unfold LoopOps.try_or_return at 1 in E. rewrite Hj in E. cbn [LoopOps.lift] in E.
  unfold LoopOps.bind at 1 in E. rewrite Hval in E. cbn [LoopOps.lift] in E.
  unfold LoopOps.bind at 1 in E. unfold member at 1 in E. rewrite Hnn in E.
  cbn [LoopOps.lift] in E.
  unfold LoopOps.bind at 1 in E. rewrite Hkeys in E. cbn [LoopOps.lift] in E.
  unfold LoopOps.bind at 1 in E. unfold member at 1 in E. rewrite Hnn, Hq in E.
  cbn [LoopOps.lift] in E.
  unfold LoopOps.bind at 1 in E.
  change (or_else (get requestData (js "schema")) DEFAULT_SCHEMA)
    with (effective_schema requestData) in E.
  destruct (buildLLMPromises_dispatched host q (effective_schema requestData) keys w1)
    as [ps [w2 [E2 [Hfl [Haw [Hqu Hreq]]]]]].
  rewrite E2 in E. rewrite R1 in Hreq.
  assert (Hlen : length ps = length (available keys)).
  { apply Forall2_length in Hfl. rewrite length_map in Hfl. auto. }
  destruct (available keys) as [|p0 chosen] eqn:Hav.
  - destruct ps; [|discriminate]. cbn [length Nat.eqb] in E.
    destruct (perform_createErrorResponse host 400%N NO_API_KEYS None w2)
      as [stamp [w3 [E3 R3]]].
    unfold NO_API_KEYS in E3. rewrite E3 in E. subst result. cbn [fst snd].
    split; [rewrite R3; exact Hreq|].
    split; [reflexivity | exists stamp; reflexivity].
  - destruct ps as [|p1 ps]; [discriminate|]. cbn [length Nat.eqb] in E.
    unfold LoopOps.bind at 1 in E.
    match type of E with context [LoopOps.perform host (log INFO ?m ?c) ?w0] =>
      destruct (perform_log host INFO m c w0) as [w3 [E3 R3]]; rewrite E3 in E end.
    unfold LoopOps.try_or_return, LoopOps.Promise_all in E.
    pose proof (join_sound host (completion_order host) w3 Hfl) as Hsound.
    pose proof (join_silent host (completion_order host) w3 Hqu) as Hsilent.
    destruct (LoopOps.join host (completion_order host) (p1 :: ps) w3)
      as [[values|e|] w4] eqn:Ejoin; cbn [fst snd] in Hsound, Hsilent.
    + destruct (outcomes_in_order _ Hsound) as [Hnames Htagged].
      unfold LoopOps.bind at 1 in E. rewrite perform_Date_now in E.
      unfold LoopOps.bind at 1 in E.
      match type of E with
        context [LoopOps.perform host (createCombinedResponse ?a ?b ?c) ?w0] =>
        destruct (perform_createCombinedResponse host a b c w0) as [stamp [w5 [E5 R5]]];
        rewrite E5 in E end.
      match type of E with context [LoopOps.perform host (createSuccessResponse ?d) ?w0] =>
        destruct (perform_createSuccessResponse host d (q := q) w0 eq_refl) as [w6 [E6 R6]];
        rewrite E6 in E end.
      match type of E with context [JSON_stringify ?v 2] =>
        destruct (JSON_stringify v 2) as [text|e] eqn:Es end;
        subst result; cbn [fst snd requests] in *;
        (split; [rewrite R6, R5, Hsilent, R3; exact Hreq|]).
      * do 3 eexists. split; [reflexivity|]. split; [reflexivity|]. split; assumption.
      * split; [discriminate|]. do 3 eexists. split; [exact Es|]. split; assumption.
    + destruct Hsound.
    + subst result. cbn [fst snd]. split; [rewrite Hsilent, R3; exact Hreq|].
      split; [discriminate|]. intros Hturns.
      destruct (join_complete host (completion_order host) w3 Hfl) as [values E5].
      * intros i p Hnth. apply Awaits_le with (n := 2) (f := 1); [eauto | | lia].
        apply Hturns.
        assert (Hi : i < length (p1 :: ps)) by (apply nth_error_Some; congruence).
        cbn [length] in *. lia.
      * rewrite Ejoin in E5. discriminate.
Qed.

(** [buildLLMPromises], for any query and schema, returns as many
    promises as there are providers with a truthy key. *)
Lemma buildLLMPromises_length (query schema : JSValue) (keys : ApiKeys.t) w :
  exists promises w',
    buildLLMPromises host query schema keys w = (Fulfilled promises, w')
    /\ length promises = length (available keys).
Proof.
  unfold buildLLMPromises, available, registration_order, LoopOps.bind, LoopOps.call,
    LoopOps.ret.
  cbn [filter resolved_credential].
  destruct (truthy (ApiKeys.openai keys)), (truthy (ApiKeys.anthropic keys)),
    (truthy (ApiKeys.gemini keys)), (truthy (ApiKeys.grok keys));
    repeat match goal with
           | |- context [LoopOps.run_sync host ?t ?w0] =>
               destruct (LoopOps.run_sync host t w0)
           end;
    do 2 eexists; split; reflexivity.
Qed.

(** [buildLLMPromises] calls the query function of each provider with a
    truthy key once, in registration order, and of no other provider. *)
Lemma buildLLMPromises_invokes (query schema : JSValue) (keys : ApiKeys.t) w :
  buildLLMPromises host query schema keys w
  = invoke_each host query schema keys (available keys) w.
Proof.
  unfold buildLLMPromises, available, registration_order.
  cbn [filter resolved_credential].
  destruct (truthy (ApiKeys.openai keys)), (truthy (ApiKeys.anthropic keys)),
    (truthy (ApiKeys.gemini keys)), (truthy (ApiKeys.grok keys));
    cbn [invoke_each query_function resolved_credential];
    unfold LoopOps.bind, LoopOps.call, LoopOps.ret;
    repeat match goal with
           | |- context [LoopOps.run_sync host ?t ?w0] =>
               destruct (LoopOps.run_sync host t w0)
           end;
    reflexivity.
Qed.

End HandlerFacts.

(* ====================================================================== *)
(** * The claims about the invoker, the parser and the aggregator          *)
(* ====================================================================== *)

Section InvokerFacts.
Context {rt : Runtime}.
Variable host : Host.

Lemma nth_error_seq_value n d k x : nth_error (seq n d) k = Some x -> x = n + k.
Proof.
  revert n k. induction d as [|d IH]; intros n k H.
  - destruct k; discriminate.
  - destruct k as [|k]; cbn in H.
    + inversion H. lia.
    + apply IH in H. lia.
Qed.

(** The readings an invocation makes on its own are consecutive readings
    of the host's clock. *)
Lemma latency_between_clock n d out :
  latency_between (map (clock host) (seq n d)) out ->
  exists m, n < m /\ latency out = (clock host m - clock host n)%Z.
Proof.
  intros [start [between [finish [rest [Hrs Hlat]]]]].
  assert (Hstart : start = clock host n).
  { destruct d; cbn in Hrs; [discriminate | inversion Hrs; reflexivity]. }
  assert (Hfinish : nth_error (map (clock host) (seq n d)) (S (length between))
                    = Some finish).
  { rewrite Hrs. cbn [nth_error].
    rewrite nth_error_app2 by lia. rewrite Nat.sub_diag. reflexivity. }
  rewrite nth_error_map in Hfinish.
  destruct (nth_error (seq n d) (S (length between))) as [m|] eqn:Hm; [|discriminate].
  apply nth_error_seq_value in Hm. inversion Hfinish.
  exists m. split; [lia|]. rewrite Hlat. subst. reflexivity.
Qed.

(** The invoker run on its own: it returns an outcome of its provider,
    tagged, whose latency is a later reading of the clock minus the
    reading it started with. *)
Lemma createLLMQueryFunction_runs name url buildHeaders buildBody parseResponse
    urlModifier (q : jsstring) (schema apiKey : JSValue) (w : World) :
  exists out w',
    LoopOps.run host
      (createLLMQueryFunction name url buildHeaders buildBody parseResponse
         urlModifier (JString q) schema apiKey) w = (Normal out, w')
    /\ provider out = name
    /\ tagged out
    /\ exists m, ticks w < m
                 /\ latency out = (clock host m - clock host (ticks w))%Z.
Proof.
  destruct (run_sound host
              (createLLMQueryFunction_yields name url buildHeaders buildBody
                 parseResponse urlModifier q schema apiKey) w)
    as [out [w' [Hrun [[Hp [Ht Hl]] _]]]].
  exists out, w'. cbn [app] in Hl. apply latency_between_clock in Hl. auto.
Qed.

(** Where the clock never runs backwards, the latency is not negative. *)
Lemma latency_nonnegative_on_monotone_clock name url buildHeaders buildBody
    parseResponse urlModifier (q : jsstring) (schema apiKey : JSValue) (w : World) :
  monotone host ->
  exists out w',
    LoopOps.run host
      (createLLMQueryFunction name url buildHeaders buildBody parseResponse
         urlModifier (JString q) schema apiKey) w = (Normal out, w')
    /\ (0 <= latency out)%Z.
Proof.
  intros Hmono.
  destruct (createLLMQueryFunction_runs name url buildHeaders buildBody parseResponse
              urlModifier q schema apiKey w) as [out [w' [Hrun [_ [_ [m [Hm Hl]]]]]]].
  exists out, w'. split; [exact Hrun|].
  rewrite Hl. specialize (Hmono (ticks w) m). lia.
Qed.

End InvokerFacts.

(** C2. For every adapter (header builder, body builder, response parser
    and URL rewrite, each free to throw), every query string, schema and
    credential, and every answer of the network: the invoker returns an
    outcome and does not throw; the outcome names its provider and is
    tagged, with [data] present exactly on success and [error] exactly
    on failure, and the latency it records is a later reading of the
    clock minus the reading taken when the call started.  The same holds
    of the function body under any interleaving: no path through it ends
    in an exception. *)
Theorem createLLMQueryFunction_always_returns (rt : Runtime) (host : Host)
    (name url : jsstring)
    (buildHeaders : JSValue -> Completion (list (jsstring * JSValue)))
    (buildBody : JSValue -> JSValue -> Completion JSValue)
    (parseResponse : JSValue -> Completion (Result JSValue jsstring))
    (urlModifier : option (jsstring -> JSValue -> Completion jsstring))
    (q : jsstring) (schema apiKey : JSValue) (w : World) :
  (exists out w',
     LoopOps.run host
       (createLLMQueryFunction name url buildHeaders buildBody parseResponse
          urlModifier (JString q) schema apiKey) w = (Normal out, w')
     /\ provider out = name
     /\ tagged out
     /\ exists m, ticks w < m
                  /\ latency out = (clock host m - clock host (ticks w))%Z)
  /\ Yields (outcome_of name) never []
       (createLLMQueryFunction name url buildHeaders buildBody parseResponse
          urlModifier (JString q) schema apiKey).
Proof.
  split; [|apply createLLMQueryFunction_yields].
  destruct (createLLMQueryFunction_runs host name url buildHeaders buildBody
              parseResponse urlModifier q schema apiKey w)
    as [out [w' [Hrun [Hp [Ht Hl]]]]].
  exists out, w'. auto.
Qed.

(** C5. For every string, [safeJsonParse] returns and does not throw:
    the parsed value tagged as a success when the parser accepts the
    text, and otherwise a failure whose description is ["JSON parse
    error: "] followed by the parser's message. *)
Theorem safeJsonParse_total (rt : Runtime) (text : jsstring) :
  (exists r, safeJsonParse (JString text) = Normal r)
  /\ match JSON_parse text with
     | inl value => safeJsonParse (JString text) = Normal (Success value)
     | inr message =>
         safeJsonParse (JString text)
         = Normal (Failure (js "JSON parse error: " ++ message))
     end.
Proof.
  unfold safeJsonParse, JSON_parse_any. cbn [ToString bind].
  destruct (JSON_parse text) as [value|message]; cbn [bind try_catch message_or];
    split; eauto.
Qed.

(** C6. For every query, outcome list and total latency, and whatever the
    clock reads, the aggregator returns a result that holds the outcomes
    as given, each with its own success flag, and counts them all. *)
Theorem createCombinedResponse_counts_all (host : Host) (query : JSValue)
    (responses : list LLMResponse) (totalLatency : Z) (w : World) :
  exists combined w',
    LoopOps.run host (createCombinedResponse query responses totalLatency) w
    = (Normal combined, w')
    /\ CombinedResponse.providersQueried combined = length responses
    /\ CombinedResponse.responses combined = responses
    /\ map success (CombinedResponse.responses combined) = map success responses
    /\ CombinedResponse.query combined = query
    /\ CombinedResponse.totalLatency combined = totalLatency.
Proof.
  do 2 eexists. split; [reflexivity|]. cbn. auto.
Qed.

(** C8 at a clock that is set back between the two readings: on each of
    the four branches (success, HTTP error status, body that is not
    JSON, transport failure) the recorded latency is -2000. *)
Lemma latency_negative_when_clock_set_back :
  let query := JString (js "What is 2+2?") in
  let key := JString (js "sk-test") in
  let latency_of (t : Async LLMResponse) :=
    match fst (LoopOps.run Sample.skewed_host t initial_world) with
    | Normal out => Some (success out, latency out)
    | Throw _ => None
    end in
  latency_of (@queryOpenAI Sample.runtime query DEFAULT_SCHEMA key) = Some (true, (-2000)%Z)
  /\ latency_of (@queryGemini Sample.runtime query DEFAULT_SCHEMA key) = Some (false, (-2000)%Z)
  /\ latency_of (@queryGrok Sample.runtime query DEFAULT_SCHEMA key) = Some (false, (-2000)%Z)
  /\ latency_of (@queryClaude Sample.runtime query DEFAULT_SCHEMA key) = Some (false, (-2000)%Z).
Proof. vm_compute. auto. Qed.

(* ====================================================================== *)
(** * The claims about the dispatcher                                      *)
(* ====================================================================== *)

(** C1. For a POST request whose body validates, with the credentials
    [resolveApiKeys] resolves: [buildLLMPromises] makes one invocation
    per provider whose credential is truthy, in registration order
    (openai, anthropic, gemini, grok): it calls that provider's query
    function with the query, the schema and the credential, and calls
    nothing else.  When there is no such provider, the handler answers
    400 with its no-API-keys error and sends no request.  Otherwise,
    whatever the order in which the invocations complete and whether
    they succeed or fail, [Promise.all] is never rejected and the outcome
    list has one entry per such provider, in registration order, each a
    tagged success or failure: the handler answers 200 with that list,
    unless serialising the combined result throws, which is the one way
    the handler is rejected.  The requests sent are those of the
    invocations, and the handler settles as soon as the host gives every
    invocation its two turns. *)
Theorem handleRequest_outcomes_in_registration_order (rt : Runtime) (host : Host)
    (request : Request.t) (env : Env) (requestData : JSValue) (w : World) :
  Request.method request = js "POST" ->
  Request.json request = Normal requestData ->
  succeeds requestData ->
  exists keys q,
    resolveApiKeys requestData env = Normal keys
    /\ get requestData (js "query") = JString q
    /\ (forall query schema w0,
          buildLLMPromises host query schema keys w0
          = invoke_each host query schema keys (available keys) w0
          /\ exists promises w1,
               buildLLMPromises host query schema keys w0 = (Fulfilled promises, w1)
               /\ length promises = length (available keys))
    /\ requests (snd (handleRequest host request env w))
       = requests w
         ++ flat_map (request_to (JString q) (effective_schema requestData) keys)
              (available keys)
    /\ match handleRequest host request env w with
       | (Fulfilled response, w') =>
           match available keys with
           | [] =>
               Response.status response = 400%N
               /\ (exists stamp, Response.body response = ErrorBody NO_API_KEYS None stamp)
               /\ requests w' = requests w
           | _ :: _ =>
               exists combined,
                 Response.body response = SuccessBody combined
                 /\ Response.status response = 200%N
                 /\ map provider (CombinedResponse.responses combined)
                    = map provider_name (available keys)
                 /\ length (CombinedResponse.responses combined)
                    = length (available keys)
                 /\ Forall tagged (CombinedResponse.responses combined)
           end
       | (Rejected e, _) =>
           available keys <> []
           /\ exists combined,
                JSON_stringify (CombinedResponse_value combined) 2 = Throw e
                /\ map provider (CombinedResponse.responses combined)
                   = map provider_name (available keys)
                /\ length (CombinedResponse.responses combined)
                   = length (available keys)
                /\ Forall tagged (CombinedResponse.responses combined)
       | (Pending, _) =>
           available keys <> []
           /\ ~ every_promise_gets_two_turns host (length (available keys))
       end
    /\ (every_promise_gets_two_turns host (length (available keys)) ->
        fst (handleRequest host request env w) <> Pending).
Proof.
  intros Hm Hj Hv.
  destruct (handleRequest_validated host request env w Hm Hj Hv)
    as [keys [q [Hkeys [Hq [Hreq Hout]]]]].
  exists keys, q. split; [exact Hkeys|]. split; [exact Hq|].
  split; [intros query schema w0; split;
          [apply buildLLMPromises_invokes | apply buildLLMPromises_length]|].
  split; [exact Hreq|].
  assert (Hlen : forall outcomes : list LLMResponse,
            map provider outcomes = map provider_name (available keys) ->
            length outcomes = length (available keys)).
  { intros outcomes Hn. apply (f_equal (@length _)) in Hn.
    rewrite !length_map in Hn. exact Hn. }
  destruct (handleRequest host request env w) as [[response|e|] w'];
    cbn [fst snd] in Hreq, Hout.
  - split; [|intros _; discriminate].
    destruct (available keys) as [|p chosen].
    + destruct Hout as [Hs Hb]. cbn in Hreq. rewrite app_nil_r in Hreq. auto.
    + destruct Hout as [stamp [total [outcomes [Hb [Hs [Hn Ht]]]]]].
      eexists. split; [exact Hb|]. split; [exact Hs|]. cbn. auto.
  - split; [|intros _; discriminate].
    destruct Hout as [Hav [stamp [total [outcomes [Hs [Hn Ht]]]]]].
    split; [exact Hav|]. eexists. split; [exact Hs|]. cbn. auto.
  - split; [exact Hout|]. intros Hturns. destruct Hout as [_ Hno]. contradiction.
Qed.

(** The sample request: three providers have a credential, and the host
    completes them last-first. *)
Lemma handleRequest_outcomes_in_registration_order_witness :
  Request.method Sample.request = js "POST"
  /\ Request.json Sample.request = Normal Sample.payload
  /\ succeeds Sample.payload
  /\ exists keys,
       resolveApiKeys Sample.payload Sample.two_keys = Normal keys
       /\ available keys = [OpenAI; Gemini; Grok]
       /\ fst (@handleRequest Sample.runtime Sample.host Sample.request
                 Sample.two_keys initial_world) <> Pending.
Proof.
  assert (Hv : succeeds Sample.payload) by (eexists; reflexivity).
  split; [reflexivity|]. split; [reflexivity|]. split; [exact Hv|].
  destruct (handleRequest_outcomes_in_registration_order Sample.runtime Sample.host
              Sample.request Sample.two_keys initial_world eq_refl eq_refl Hv)
    as [keys [q [Hkeys [_ [_ [_ [_ Hsettles]]]]]]].
  exists keys. split; [exact Hkeys|].
  assert (Hav : available keys = [OpenAI; Gemini; Grok]).
  { vm_compute in Hkeys. inversion Hkeys. reflexivity. }
  split; [exact Hav|]. apply Hsettles. rewrite Hav.
  intros i Hi. cbn in Hi.
  destruct i as [|[|[|i]]]; [vm_compute; lia | vm_compute; lia | vm_compute; lia | lia].
Defined.

(** C10. For a POST request whose body validates, the requests the
    handler sends are exactly those of the providers with a truthy key,
    in registration order, each built from the query and from one schema:
    the built-in default schema (an object schema requiring [answer] and
    [confidence]) when the request's [schema] is absent or falsy, the
    request's own [schema] when it is truthy.  Each request body holds
    that schema where its provider expects it.  A provider whose URL or
    headers cannot be built, or whose body [JSON.stringify] throws on,
    is sent no request ([request_to] is empty for it). *)
Theorem handleRequest_default_schema_when_falsy (rt : Runtime) (host : Host)
    (request : Request.t) (env : Env) (requestData : JSValue) (w : World) :
  Request.method request = js "POST" ->
  Request.json request = Normal requestData ->
  succeeds requestData ->
  let schema := effective_schema requestData in
  exists keys q,
    resolveApiKeys requestData env = Normal keys
    /\ get requestData (js "query") = JString q
    /\ requests (snd (handleRequest host request env w))
       = requests w ++ flat_map (request_to (JString q) schema keys) (available keys)
    /\ (forall p req, In req (request_to (JString q) schema keys p) ->
                      FetchRequest.body req = request_body p (JString q) schema
                      /\ schema_in p (FetchRequest.body req) = schema)
    /\ (truthy (get requestData (js "schema")) = false -> schema = DEFAULT_SCHEMA)
    /\ (truthy (get requestData (js "schema")) = true ->
        schema = get requestData (js "schema"))
    /\ get DEFAULT_SCHEMA (js "type") = JString (js "object")
    /\ get DEFAULT_SCHEMA (js "required")
       = JArray [JString (js "answer"); JString (js "confidence")].
Proof.
  intros Hm Hj Hv schema.
  destruct (handleRequest_validated host request env w Hm Hj Hv)
    as [keys [q [Hkeys [Hq [Hreq _]]]]].
  exists keys, q. subst schema.
  split; [exact Hkeys|]. split; [exact Hq|]. split; [exact Hreq|].
  split; [|split; [|split; [|split; reflexivity]]].
  - intros p req Hin. unfold request_to in Hin.
    destruct (final_url p (resolved_credential keys p)); [|destruct Hin].
    destruct (request_headers p (resolved_credential keys p)); [|destruct Hin].
    destruct (JSON_stringify (request_body p (JString q) (effective_schema requestData)) 0);
      [|destruct Hin].
    destruct Hin as [Hin|[]]. subst req. cbn [FetchRequest.body].
    split; [reflexivity|]. destruct p; reflexivity.
  - intros Hf. unfold effective_schema. rewrite Hf. reflexivity.
  - intros Ht. unfold effective_schema. rewrite Ht. reflexivity.
Qed.

(** The sample request has no [schema]: the first request sent carries
    the default one. *)
Lemma handleRequest_default_schema_when_falsy_witness :
  Request.method Sample.request = js "POST"
  /\ Request.json Sample.request = Normal Sample.payload
  /\ succeeds Sample.payload
  /\ map (fun req => schema_in OpenAI (FetchRequest.body req))
       (firstn 1 (requests (snd (@handleRequest Sample.runtime Sample.host Sample.request
                                   Sample.two_keys initial_world))))
     = [DEFAULT_SCHEMA].
Proof.
  assert (Hv : succeeds Sample.payload) by (eexists; reflexivity).
  split; [reflexivity|]. split; [reflexivity|]. split; [exact Hv|].
  destruct (handleRequest_default_schema_when_falsy Sample.runtime Sample.host
              Sample.request Sample.two_keys initial_world eq_refl eq_refl Hv)
    as [keys [q [Hkeys [Hq [Hreq [_ [Hdefault _]]]]]]].
  rewrite Hreq. rewrite (Hdefault eq_refl).
  vm_compute in Hkeys. inversion Hkeys; subst keys.
  vm_compute in Hq. inversion Hq; subst q.
  reflexivity.
Defined.

(* ====================================================================== *)
(** * Worked examples                                                      *)
(* ====================================================================== *)

Section Examples.
Existing Instance Sample.runtime.

(** A query of blanks only is rejected as empty. *)
Example whitespace_query_is_empty :
  validateRequest (JObject [(js "query", JString (js "  "))])
  = Normal (Failure EMPTY_QUERY).
Proof. reflexivity. Qed.

(** A provider that answers HTTP 429: a failed outcome whose error names
    the status, with the latency of two clock readings twenty
    milliseconds apart. *)
Example http_429_is_a_failed_outcome :
  fst (LoopOps.run Sample.host
         (queryGemini (JString (js "What is 2+2?")) DEFAULT_SCHEMA (JString (js "key")))
         initial_world)
  = Normal {| provider := js "Google Gemini";
              success := false;
              data := None;
              error := Some (js "Google Gemini API error: 429 Too Many Requests");
              latency := 20 |}.
Proof. vm_compute. reflexivity. Qed.

(** A reply that embeds its answer as a string is parsed twice. *)
Example embedded_answer_is_parsed :
  option_map data
    (match fst (LoopOps.run Sample.host
                  (queryOpenAI (JString (js "Capital of France?")) DEFAULT_SCHEMA
                     (JString (js "key")))
                  initial_world) with
     | Normal out => Some out
     | Throw _ => None
     end)
  = Some (Some (JObject [(js "answer", JString (js "Paris"))])).
Proof. vm_compute. reflexivity. Qed.

(** No credential from either source: a 400 and no request. *)
Example no_credentials_no_requests :
  match handleRequest Sample.host Sample.bare_request Sample.no_keys initial_world with
  | (Fulfilled response, w) =>
      Response.status response = 400%N
      /\ Response.body response = ErrorBody NO_API_KEYS None (toISOString 1030)
      /\ requests w = []
  | _ => False
  end.
Proof. vm_compute. auto. Qed.

(** One provider succeeds and two fail: three outcomes, in registration
    order although the last promise completed first, each with its own
    flag. *)
Example partial_success_is_a_result :
  match fst (handleRequest Sample.host Sample.request Sample.two_keys initial_world) with
  | Fulfilled {| Response.body := SuccessBody combined |} =>
      map (fun r => (provider r, success r)) (CombinedResponse.responses combined)
      = [(js "OpenAI GPT-4", true); (js "Google Gemini", false); (js "xAI Grok", false)]
      /\ CombinedResponse.providersQueried combined = 3
  | _ => False
  end.
Proof. vm_compute. auto. Qed.

(** A caller's own schema travels to the provider unchanged. *)
Example own_schema_is_passed_through :
  map (fun req => schema_in Grok (FetchRequest.body req))
    (requests (snd (handleRequest Sample.host Sample.bare_request Sample.two_keys
                      initial_world)))
  = [Sample.own_schema; Sample.own_schema].
Proof. vm_compute. reflexivity. Qed.

(** A schema nested too deep to serialise: no request is sent, every
    invocation reports the serialiser's error, and the handler answers
    200 with these failures. *)
Example unserialisable_schema_sends_nothing :
  match handleRequest Sample.host Cases.deep_schema_request Sample.two_keys initial_world with
  | (Fulfilled {| Response.body := SuccessBody combined; Response.status := status |}, w) =>
      status = 200%N
      /\ map (fun r => (provider r, success r, error r)) (CombinedResponse.responses combined)
         = [(js "OpenAI GPT-4", false, Some (js "Maximum call stack size exceeded"));
            (js "xAI Grok", false, Some (js "Maximum call stack size exceeded"))]
      /\ requests w = []
  | _ => False
  end.
Proof. vm_compute. auto. Qed.

(** A provider answers with a value nested too deep to serialise: the
    handler is rejected with the serialiser's error, and the worker's
    entry point answers 500. *)
Example unserialisable_answer_is_answered_500 :
  fst (@handleRequest Cases.deep_answer_runtime Sample.host Sample.request
         Sample.two_keys initial_world)
  = Rejected (ErrorInstance (js "RangeError") (js "Maximum call stack size exceeded"))
  /\ fst (@ExportedHandler.fetch Cases.deep_answer_runtime Sample.host Cases.stack_trace
            Sample.request Sample.two_keys tt initial_world)
     = Fulfilled (error_response 500 (js "Internal server error") None (toISOString 1200)).
Proof. vm_compute. auto. Qed.

End Examples.

(* ====================================================================== *)
(** * The response parsers                                                 *)
(* ====================================================================== *)

Section ParserFacts.
Context {rt : Runtime}.

Lemma opt_member_get (v : JSValue) (name : jsstring) : opt_member v name = get v name.
Proof. destruct v; reflexivity. Qed.

Lemma get_not_nullish (v : JSValue) (name : jsstring) :
  nullish (get v name) = false -> nullish v = false.
Proof. destruct v; cbn; auto. Qed.

(** [safeJsonParse] returns for every value, also one that cannot be
    converted to a string. *)
Lemma safeJsonParse_returns (text : JSValue) :
  exists r,
    safeJsonParse text = Normal r
    /\ (forall v, r = Success v <->
                  exists s, ToString text = Normal s /\ JSON_parse s = inl v)
    /\ (forall m, r = Failure m -> exists detail, m = js "JSON parse error: " ++ detail).
Proof.
  unfold safeJsonParse, JSON_parse_any.
  destruct (ToString text) as [s|e]; cbn [bind try_catch].
  - destruct (JSON_parse s) as [v|m] eqn:E; cbn [bind try_catch message_or];
      eexists; (split; [reflexivity|]); split.
    + intros v'. split.
      * intros H; inversion H; subst. eauto.
      * intros [s' [Hs Hv]]. injection Hs as <-. rewrite E in Hv.
        injection Hv as <-. reflexivity.
    + intros m H; discriminate.
    + intros v. split; [discriminate|].
      intros [s' [Hs Hv]]. injection Hs as <-. rewrite E in Hv. discriminate.
    + intros m' H. inversion H. eexists. reflexivity.
  - eexists. split; [reflexivity|]. split.
    + intros v. split; [discriminate|]. intros [s [Hs _]]. discriminate.
    + intros m H. inversion H. eexists. reflexivity.
Qed.

(** The body shared by the three parsers that read an embedded text:
    its [catch] is never entered. *)
Lemma embedded_text_parser (label missing : jsstring) (content : JSValue) :
  try_catch
    (if negb (truthy content) then Normal (Failure missing) else safeJsonParse content)
    (parse_error label)
  = if truthy content then safeJsonParse content else Normal (Failure missing).
Proof.
  destruct (truthy content); cbn [negb]; [|reflexivity].
  destruct (safeJsonParse_returns content) as [r [E _]]. rewrite E. reflexivity.
Qed.

Lemma response_parser_embedded_text (p : ProviderId) (data : JSValue) :
  p <> Anthropic ->
  let content := match p with
                 | Gemini => candidates_text data
                 | _ => choices_content data
                 end in
  response_parser p data
  = if truthy content then safeJsonParse content else Normal (Failure (no_content p)).
Proof.
  intros Hp content. subst content.
  destruct p; try congruence; cbn [response_parser no_content];
    unfold parseOpenAIResponse, parseGeminiResponse, parseGrokResponse,
      choices_content, candidates_text, opt_index;
    rewrite !opt_member_get; apply embedded_text_parser.
Qed.

Lemma no_content_is_not_a_parse_error (p : ProviderId) (detail : jsstring) :
  no_content p <> js "JSON parse error: " ++ detail.
Proof. destruct p; intro H; cbn in H; discriminate. Qed.

(** What [find] returns on the blocks of a Claude reply: the first tool
    call, unless it meets [null] first. *)
Lemma find_first_tool_use (blocks : list JSValue) :
  Forall (fun b => nullish b = false) blocks ->
  find_first
    (fun block =>
       type <- member block (js "type") ;;
       Normal (strict_equals_string type (js "tool_use")))
    blocks
  = Normal (match find is_tool_use blocks with Some b => b | None => JUndefined end).
Proof.
  induction 1 as [|b blocks Hb _ IH]; cbn [find_first find]; [reflexivity|].
  unfold member at 1. rewrite Hb. cbn [bind]. fold (is_tool_use b).
  destruct (is_tool_use b); [reflexivity | exact IH].
Qed.

Lemma find_first_null_block (before after : list JSValue) :
  Forall (fun b => nullish b = false /\ is_tool_use b = false) before ->
  find_first
    (fun block =>
       type <- member block (js "type") ;;
       Normal (strict_equals_string type (js "tool_use")))
    (before ++ JNull :: after)
  = Throw (TypeError (cannot_read_message JNull (js "type"))).
Proof.
  induction 1 as [|b before [Hb Hn] _ IH]; cbn [find_first app]; [reflexivity|].
  unfold member at 1. rewrite Hb. cbn [bind]. fold (is_tool_use b).
  rewrite Hn. exact IH.
Qed.

Lemma find_first_settles (blocks : list JSValue) :
  match find_first
          (fun block =>
             type <- member block (js "type") ;;
             Normal (strict_equals_string type (js "tool_use")))
          blocks with
  | Normal _ => True
  | Throw e => exists message, e = TypeError message
  end.
Proof.
  induction blocks as [|b blocks IH]; cbn [find_first]; [exact I|].
  unfold member at 1. destruct (nullish b); cbn [bind]; [eauto|].
  destruct (strict_equals_string (get b (js "type")) (js "tool_use")); [exact I | exact IH].
Qed.

Lemma parse_error_of_TypeError (label message : jsstring) :
  exists r, parse_error label (TypeError message) = Normal r.
Proof.
  unfold parse_error, TypeError, Thrown_toString. cbn [bind]. eauto.
Qed.

Lemma parseClaudeResponse_returns (data : JSValue) :
  exists r, parseClaudeResponse data = Normal r.
Proof.
  unfold parseClaudeResponse. rewrite opt_member_get.
  destruct (nullish (get data (js "content"))) eqn:Hc.
  { cbn [bind opt_member nullish truthy negb try_catch]. eauto. }
  unfold Array_find.
  destruct (get data (js "content")) as [| |b|x|s|blocks|props] eqn:Hget;
    try (cbn in Hc; discriminate);
    try (cbn [bind try_catch]; apply parse_error_of_TypeError).
  pose proof (find_first_settles blocks) as Hfind.
  destruct (find_first _ blocks) as [b|e]; cbn [bind try_catch];
    [|destruct Hfind as [message ->]; apply parse_error_of_TypeError].
  rewrite opt_member_get.
  destruct (truthy (get b (js "input"))) eqn:Ht; cbn [negb try_catch]; [|eauto].
  unfold member.
  assert (Hb : nullish b = false).
  { apply get_not_nullish with (name := js "input").
    destruct (get b (js "input")); cbn in *; congruence. }
  rewrite Hb. cbn [bind try_catch]. eauto.
Qed.

End ParserFacts.

(** X1. None of the four response parsers throws, whatever value it is
    given: each returns a success or a failure. *)
Theorem response_parsers_never_throw (rt : Runtime) (p : ProviderId) (data : JSValue) :
  exists r, response_parser p data = Normal r.
Proof.
  destruct p; try apply parseClaudeResponse_returns;
    rewrite response_parser_embedded_text by discriminate;
    match goal with
    | |- context [if truthy ?c then _ else _] =>
        destruct (truthy c); [|eauto];
        destruct (safeJsonParse_returns c) as [r [E _]]; eauto
    end.
Qed.

(** X2. For the three parsers that read an embedded text (OpenAI, Gemini,
    Grok) and every reply: the parser succeeds with [v] exactly when the
    text is truthy and [JSON.parse] of it gives [v]; it reports its
    no-content error exactly when the text is absent or falsy at any
    step of the path; and any other failure is a JSON parse error, so
    the parser's own [catch] is never entered. *)
Theorem embedded_text_parsers_result (rt : Runtime) (p : ProviderId) (data : JSValue) :
  p <> Anthropic ->
  let content := match p with
                 | Gemini => candidates_text data
                 | _ => choices_content data
                 end in
  (forall v, response_parser p data = Normal (Success v)
             <-> truthy content = true
                 /\ exists s, ToString content = Normal s /\ JSON_parse s = inl v)
  /\ (response_parser p data = Normal (Failure (no_content p))
      <-> truthy content = false)
  /\ (forall m, response_parser p data = Normal (Failure m) ->
                m = no_content p
                \/ exists detail, m = js "JSON parse error: " ++ detail).
Proof.
  intros Hp content. rewrite (response_parser_embedded_text data Hp). fold content.
  destruct (safeJsonParse_returns content) as [r [E [Hs Hf]]].
  destruct (truthy content) eqn:Ht.
  - rewrite E. split; [|split].
    + intros v. rewrite <- Hs. split.
      * intros H. injection H as ->. auto.
      * intros [_ ->]. reflexivity.
    + split; [|discriminate]. intros H. injection H as ->.
      destruct (Hf _ eq_refl) as [detail Hd].
      exfalso. eapply no_content_is_not_a_parse_error. exact Hd.
    + intros m H. injection H as ->. right. apply Hf. reflexivity.
  - split; [|split].
    + intros v. split; [discriminate | intros [H _]; discriminate].
    + split; reflexivity.
    + intros m H. injection H as <-. left. reflexivity.
Qed.

(** A chat-completion reply that embeds the answer: the OpenAI parser
    returns the answer parsed. *)
Lemma embedded_text_parsers_result_witness :
  OpenAI <> Anthropic
  /\ @response_parser Sample.runtime OpenAI Cases.chat_reply
     = Normal (Success (JObject [(js "answer", JString (js "Paris"))])).
Proof.
  assert (Hp : OpenAI <> Anthropic) by discriminate.
  split; [exact Hp|].
  destruct (@embedded_text_parsers_result Sample.runtime OpenAI Cases.chat_reply Hp)
    as [Hs _].
  apply Hs. split; [reflexivity|]. exists Sample.answer. split; reflexivity.
Defined.

(** X3. For a Claude reply whose [content] is an array without [null]
    entries: the parser looks at the first block of type [tool_use]
    only, and returns that block's [input] as it is (not parsed again)
    when it is truthy; it reports its no-tool-use error when there is no
    such block or when the first one has no truthy [input], whatever
    later blocks hold. *)
Theorem parseClaudeResponse_first_tool_use (rt : Runtime) (data : JSValue)
    (blocks : list JSValue) :
  get data (js "content") = JArray blocks ->
  Forall (fun b => nullish b = false) blocks ->
  parseClaudeResponse data
  = Normal (match find is_tool_use blocks with
            | Some block =>
                if truthy (get block (js "input"))
                then Success (get block (js "input"))
                else Failure (no_content Anthropic)
            | None => Failure (no_content Anthropic)
            end).
Proof.
  intros Hc Hblocks. unfold parseClaudeResponse.
  rewrite opt_member_get, Hc. cbn [nullish Array_find].
  rewrite (find_first_tool_use Hblocks). cbn [bind].
  destruct (find is_tool_use blocks) as [block|] eqn:Hfind.
  - rewrite opt_member_get.
    destruct (truthy (get block (js "input"))); cbn [negb try_catch]; [|reflexivity].
    apply find_some in Hfind. destruct Hfind as [Hin _].
    rewrite Forall_forall in Hblocks. unfold member. rewrite (Hblocks _ Hin).
    reflexivity.
  - reflexivity.
Qed.

(** A reply with a text block and two tool calls: the input of the first
    tool call is returned. *)
Lemma parseClaudeResponse_first_tool_use_witness :
  @parseClaudeResponse Sample.runtime Cases.tool_reply
  = Normal (Success (JObject [(js "answer", JString (js "4"))])).
Proof.
  refine (@parseClaudeResponse_first_tool_use Sample.runtime Cases.tool_reply _
            eq_refl _).
  repeat constructor.
Defined.

(** X4. A [null] entry in a Claude reply's [content] that comes before
    the first tool call makes the parser fail with its parse error (the
    [TypeError] of reading [type] of [null], caught and reported), even
    when a well-formed tool call follows. *)
Theorem parseClaudeResponse_null_block (rt : Runtime) (data : JSValue)
    (before after : list JSValue) :
  get data (js "content") = JArray (before ++ JNull :: after) ->
  Forall (fun b => nullish b = false /\ is_tool_use b = false) before ->
  parseClaudeResponse data
  = Normal (Failure (js "Claude parse error: TypeError: "
                     ++ cannot_read_message JNull (js "type"))).
Proof.
  intros Hc Hbefore. unfold parseClaudeResponse.
  rewrite opt_member_get, Hc. cbn [nullish Array_find].
  rewrite (find_first_null_block after Hbefore). reflexivity.
Qed.

Lemma parseClaudeResponse_null_block_witness :
  @parseClaudeResponse Sample.runtime Cases.broken_tool_reply
  = Normal (Failure (js "Claude parse error: TypeError: Cannot read properties of null (reading 'type')")).
Proof.
  exact (@parseClaudeResponse_null_block Sample.runtime Cases.broken_tool_reply
           [] [Cases.tool_call (js "4")] eq_refl (Forall_nil _)).
Defined.

(* ====================================================================== *)
(** * More on validation, keys and request bodies                          *)
(* ====================================================================== *)

Section TrimFacts.

Lemma trimStart_nil (s : jsstring) : trimStart s = [] <-> blank s = true.
Proof.
  unfold blank. induction s as [|c s IH]; cbn; [tauto|].
  destruct (is_white_space c); cbn; [exact IH | split; discriminate].
Qed.

Lemma trimStart_head (s : jsstring) c rest :
  trimStart s = c :: rest -> is_white_space c = false.
Proof.
  induction s as [|d s IH]; cbn; [discriminate|].
  destruct (is_white_space d) eqn:Hd; [exact IH|].
  intros H. injection H as <- _. exact Hd.
Qed.

Lemma rev_nil (X : Type) (l : list X) : rev l = [] <-> l = [].
Proof.
  split; [|intros ->; reflexivity].
  intros H. apply (f_equal (@rev X)) in H. rewrite rev_involutive in H. exact H.
Qed.

(** A string trims to nothing exactly when it holds white space only. *)
Lemma trim_nil (s : jsstring) : trim s = [] <-> blank s = true.
Proof.
  unfold trim, trimEnd.
  destruct (trimStart s) as [|c rest] eqn:E.
  - apply (proj1 (trimStart_nil _)) in E. cbn. tauto.
  - pose proof (trimStart_head _ E) as Hc. split.
    + intros H. apply (proj1 (rev_nil _)) in H. apply (proj1 (trimStart_nil _)) in H.
      unfold blank in H. cbn [rev] in H. rewrite forallb_app in H.
      cbn [forallb] in H. rewrite Hc, andb_false_r in H. discriminate.
    + intros H. apply (proj2 (trimStart_nil _)) in H. congruence.
Qed.

End TrimFacts.

(** X5. Validation in terms of the query's code units: the empty-query
    error is reported exactly for a non-empty string made of white space
    only (spaces, tabs, line terminators, no-break and other Unicode
    spaces), and validation succeeds exactly when the query is a string
    with at least one code unit that is not white space. *)
Theorem validateRequest_by_white_space (requestData : JSValue) :
  (validateRequest requestData = Normal (Failure EMPTY_QUERY)
   <-> is_object requestData
       /\ exists q, get requestData (js "query") = JString q
                    /\ q <> [] /\ blank q = true)
  /\ (succeeds requestData
      <-> is_object requestData
          /\ exists q, get requestData (js "query") = JString q /\ blank q = false).
Proof.
  destruct failures_differ as [D1 [D2 D3]]. unfold succeeds.
  assert (Hblank : forall q, blank q = false <-> trim q <> []).
  { intros q. rewrite trim_nil. destruct (blank q); split; congruence. }
  destruct (validateRequest_cases requestData)
    as [[Hno E]|[[Hobj [Hno E]]|[[Hobj [[q [Hq [Hne Ht]]] E]]|[Hobj [[q [Hq Ht]] E]]]]];
    rewrite E; (split; split).
  - intros H; injection H as H; congruence.
  - tauto.
  - intros [v H]; discriminate.
  - tauto.
  - intros H; injection H as H; congruence.
  - intros [_ [q [Hq [Hne Hb]]]]. exfalso. apply Hno. eauto.
  - intros [v H]; discriminate.
  - intros [_ [q [Hq Hb]]]. exfalso. apply Hno. exists q. split; [exact Hq|].
    intros ->. discriminate.
  - intros _. split; [exact Hobj|]. exists q. rewrite <- trim_nil. auto.
  - reflexivity.
  - intros [v H]; discriminate.
  - intros [_ [q' [Hq' Hb]]]. rewrite Hq in Hq'. injection Hq' as <-.
    apply Hblank in Hb. contradiction.
  - discriminate.
  - intros [_ [q' [Hq' [_ Hb]]]]. rewrite Hq in Hq'. injection Hq' as <-.
    apply trim_nil in Hb. contradiction.
  - intros _. split; [exact Hobj|]. exists q. rewrite Hblank. auto.
  - eauto.
Qed.

(** X6. When the payload's [apiKeys] is anything but an object (absent,
    [null], a string, a number, an array), key resolution does not fail:
    every provider gets its process-level default. *)
Theorem resolveApiKeys_ignores_malformed_apiKeys (requestData : JSValue) (env : Env) :
  nullish requestData = false ->
  (forall props, get requestData (js "apiKeys") <> JObject props) ->
  exists keys,
    resolveApiKeys requestData env = Normal keys
    /\ forall p, resolved_credential keys p = default_credential env p.
Proof.
  intros Hnn Hno. unfold resolveApiKeys, member. rewrite Hnn. cbn [bind].
  eexists. split; [reflexivity|].
  intros p.
  assert (Hu : forall name, In name [js "openai"; js "anthropic"; js "gemini"; js "grok"] ->
                 opt_member (get requestData (js "apiKeys")) name = JUndefined).
  { intros name Hin. rewrite opt_member_get.
    destruct (get requestData (js "apiKeys")) as [| |b|x|s|elems|props];
      try reflexivity.
    - cbn in Hin. destruct Hin as [<-|[<-|[<-|[<-|[]]]]]; reflexivity.
    - cbn in Hin. destruct Hin as [<-|[<-|[<-|[<-|[]]]]]; reflexivity.
    - exfalso. apply (Hno props). reflexivity. }
  destruct p; cbn [resolved_credential ApiKeys.openai ApiKeys.anthropic ApiKeys.gemini
                   ApiKeys.grok default_credential];
    rewrite Hu by (cbn; auto 6); reflexivity.
Qed.

(** A payload whose [apiKeys] is the string ["sk-raw"]: the keys are the
    environment's. *)
Lemma resolveApiKeys_ignores_malformed_apiKeys_witness :
  exists keys,
    resolveApiKeys Cases.raw_keys_payload Sample.two_keys = Normal keys
    /\ resolved_credential keys OpenAI = JString (js "sk-openai")
    /\ resolved_credential keys Gemini = JUndefined.
Proof.
  assert (Hno : forall props,
            get Cases.raw_keys_payload (js "apiKeys") <> JObject props)
    by (intros props; discriminate).
  destruct (resolveApiKeys_ignores_malformed_apiKeys Cases.raw_keys_payload
              Sample.two_keys eq_refl Hno) as [keys [E Hd]].
  exists keys. split; [exact E|]. rewrite !Hd. split; reflexivity.
Defined.

(** X7. Each request body holds the query and the schema it was built
    from at its provider's places, so a body determines both; the model
    name is the configured one, and Gemini's body names no model (its
    URL does). *)
Theorem request_body_round_trip (p : ProviderId) (query schema : JSValue) :
  query_in p (request_body p query schema) = query
  /\ schema_in p (request_body p query schema) = schema
  /\ get (request_body p query schema) (js "model")
     = match p with
       | Gemini => JUndefined
       | _ => JString (LLMConfig.model (config p))
       end
  /\ forall query' schema',
       request_body p query schema = request_body p query' schema' ->
       query = query' /\ schema = schema'.
Proof.
  assert (Hq : forall q s, query_in p (request_body p q s) = q)
    by (intros; destruct p; reflexivity).
  assert (Hs : forall q s, schema_in p (request_body p q s) = s)
    by (intros; destruct p; reflexivity).
  split; [apply Hq|]. split; [apply Hs|]. split; [destruct p; reflexivity|].
  intros query' schema' H. split.
  - rewrite <- (Hq query schema), H. apply Hq.
  - rewrite <- (Hs query schema), H. apply Hs.
Qed.

(* ====================================================================== *)
(** * What an invocation reports                                           *)
(* ====================================================================== *)

Section OutcomeFacts.
Context {rt : Runtime}.
Variable host : Host.

(** The invoker run on its own, branch by branch: the request it sends
    and what it reports for each way the exchange can go. *)
Lemma createLLMQueryFunction_outcome name url buildHeaders buildBody parseResponse
    urlModifier (q : jsstring) (schema apiKey : JSValue) (w : World) :
  exists out w',
    LoopOps.run host
      (createLLMQueryFunction name url buildHeaders buildBody parseResponse
         urlModifier (JString q) schema apiKey) w = (Normal out, w')
    /\ requests w'
       = requests w ++ first_request url buildHeaders buildBody urlModifier
                         (JString q) schema apiKey
    /\ match first_request url buildHeaders buildBody urlModifier
               (JString q) schema apiKey with
       | [] => success out = false
       | req :: _ =>
           (success out, data out, error out) =
           match network host req with
           | Throw e => (false, None, Some (message_or (js "Unknown error") e))
           | Normal response =>
               match FetchResponse.text response with
               | Throw e => (false, None, Some (message_or (js "Unknown error") e))
               | Normal responseText =>
                   if FetchResponse.ok response then
                     match JSON_parse responseText with
                     | inr message =>
                         (false, None, Some (js "JSON parse error: " ++ message))
                     | inl parsed =>
                         match parseResponse parsed with
                         | Throw e =>
                             (false, None, Some (message_or (js "Unknown error") e))
                         | Normal (Failure message) => (false, None, Some message)
                         | Normal (Success value) => (true, Some value, None)
                         end
                     end
                   else
                     (false, None,
                      Some (name ++ js " API error: "
                            ++ decimal (FetchResponse.status response) ++ js " "
                            ++ FetchResponse.statusText response))
               end
           end
       end.
Proof.
  unfold createLLMQueryFunction, first_request, logInfo, logWarn, logError, log,
    createLogEntry, getCurrentTimestamp, logToConsole, safeJsonParse, JSON_parse_any,
    AsyncOps.fetch, AsyncOps.Response_text, AsyncOps.Date_now.
  cbn [AsyncOps.bind String_substring0 AsyncOps.lift LoopOps.run LoopOps.read_clock
       AsyncOps.try_catch LoopOps.write_console ToString bind].
  destruct (match urlModifier with
            | Some modify => modify url apiKey
            | None => Normal url
            end) as [finalUrl|e1];
    [destruct (buildHeaders apiKey) as [headers|e2];
     [destruct (buildBody (JString q) schema) as [body|e3];
      [cbn [AsyncOps.bind AsyncOps.lift AsyncOps.try_catch bind];
       destruct (JSON_stringify body 0) as [text|e4]|]|]|];
    cbn [AsyncOps.bind AsyncOps.lift AsyncOps.try_catch LoopOps.run LoopOps.read_clock
         LoopOps.write_console LoopOps.send ticks console requests bind];
    try (do 2 eexists; split; [reflexivity|]; cbn [requests success];
         rewrite app_nil_r; split; reflexivity).
  destruct (network host _) as [response|e];
    cbn [AsyncOps.bind AsyncOps.lift AsyncOps.try_catch LoopOps.run LoopOps.read_clock
         LoopOps.write_console LoopOps.send ticks console requests];
    [|do 2 eexists; split; [reflexivity|]; split; reflexivity].
  destruct (FetchResponse.text response) as [responseText|e];
    cbn [AsyncOps.bind AsyncOps.lift AsyncOps.try_catch LoopOps.run LoopOps.read_clock
         LoopOps.write_console LoopOps.send ticks console requests];
    [|do 2 eexists; split; [reflexivity|]; split; reflexivity].
  destruct (FetchResponse.ok response); cbn [negb];
    cbn [AsyncOps.bind AsyncOps.lift AsyncOps.try_catch LoopOps.run LoopOps.read_clock
         LoopOps.write_console LoopOps.send ticks console requests];
    [|do 2 eexists; split; [reflexivity|]; split; reflexivity].
  destruct (JSON_parse responseText) as [parsed|message];
    cbn [AsyncOps.bind AsyncOps.lift AsyncOps.try_catch LoopOps.run LoopOps.read_clock
         LoopOps.write_console LoopOps.send ticks console requests try_catch bind
         message_or];
    [|do 2 eexists; split; [reflexivity|]; split; reflexivity].
  destruct (parseResponse parsed) as [[value|message]|e];
    cbn [AsyncOps.bind AsyncOps.lift AsyncOps.try_catch LoopOps.run LoopOps.read_clock
         LoopOps.write_console LoopOps.send ticks console requests try_catch bind
         message_or];
    (do 2 eexists; split; [reflexivity|]; split; reflexivity).
Qed.

Lemma first_request_cases url buildHeaders buildBody urlModifier
    (query schema apiKey : JSValue) :
  first_request url buildHeaders buildBody urlModifier query schema apiKey = []
  \/ exists req,
       first_request url buildHeaders buildBody urlModifier query schema apiKey = [req].
Proof.
  unfold first_request.
  destruct (match urlModifier with
            | Some modify => modify url apiKey
            | None => Normal url
            end); [|auto].
  destruct (buildHeaders apiKey); [|auto].
  destruct (buildBody query schema) as [body|]; cbn [bind]; [|auto].
  destruct (JSON_stringify body 0); cbn [bind]; eauto.
Qed.

End OutcomeFacts.

(** X8. An HTTP status outside 200-299 decides the outcome before the
    body is looked at: for every adapter, and whatever the body holds
    (even a well-formed answer), the invoker reports a failure whose
    error is the provider's name, [" API error: "], the status code in
    decimal, a blank and the status text. *)
Theorem http_error_status_wins (rt : Runtime) (host : Host) (name url : jsstring)
    (buildHeaders : JSValue -> Completion (list (jsstring * JSValue)))
    (buildBody : JSValue -> JSValue -> Completion JSValue)
    (parseResponse : JSValue -> Completion (Result JSValue jsstring))
    (urlModifier : option (jsstring -> JSValue -> Completion jsstring))
    (q : jsstring) (schema apiKey : JSValue) (w : World)
    (req : FetchRequest.t) (response : FetchResponse.t) (responseText : jsstring) :
  first_request url buildHeaders buildBody urlModifier (JString q) schema apiKey = [req] ->
  network host req = Normal response ->
  FetchResponse.text response = Normal responseText ->
  FetchResponse.ok response = false ->
  exists out w',
    LoopOps.run host
      (createLLMQueryFunction name url buildHeaders buildBody parseResponse
         urlModifier (JString q) schema apiKey) w = (Normal out, w')
    /\ success out = false
    /\ data out = None
    /\ error out = Some (name ++ js " API error: "
                         ++ decimal (FetchResponse.status response) ++ js " "
                         ++ FetchResponse.statusText response).
Proof.
  intros Hfr Hnet Htext Hok.
  destruct (createLLMQueryFunction_outcome host name url buildHeaders buildBody
              parseResponse urlModifier q schema apiKey w)
    as [out [w' [Hrun [_ Hout]]]].
  rewrite Hfr, Hnet, Htext, Hok in Hout. injection Hout as Hs Hd He.
  exists out, w'. auto.
Qed.

(** Gemini answers 429 with a body that is not looked at. *)
Lemma http_error_status_wins_witness :
  exists out w',
    LoopOps.run Sample.host
      (@queryGemini Sample.runtime (JString (js "What is 2+2?")) DEFAULT_SCHEMA
         (JString (js "key"))) initial_world = (Normal out, w')
    /\ success out = false
    /\ error out = Some (js "Google Gemini API error: 429 Too Many Requests").
Proof.
  destruct (@http_error_status_wins Sample.runtime Sample.host
              (LLMConfig.name LLM_CONFIGS.gemini) (LLMConfig.url LLM_CONFIGS.gemini)
              gemini_headers (fun query schema => Normal (buildGeminiRequestBody query schema))
              (@parseGeminiResponse Sample.runtime) (Some (@gemini_url Sample.runtime))
              (js "What is 2+2?") DEFAULT_SCHEMA (JString (js "key")) initial_world
              (provider_request Gemini (JString (js "What is 2+2?")) DEFAULT_SCHEMA (js "key"))
              {| FetchResponse.status := 429;
                 FetchResponse.statusText := js "Too Many Requests";
                 FetchResponse.text := Normal (js "slow down") |}
              (js "slow down") eq_refl eq_refl eq_refl eq_refl)
    as [out [w' [Hrun [Hs [_ He]]]]].
  exists out, w'. split; [exact Hrun|]. split; [exact Hs | exact He].
Defined.

(** X9. When the request is sent and [fetch] rejects, or the response
    arrives and reading its body rejects, the invoker reports a failure
    whose error is the message of the [Error] thrown, or ["Unknown
    error"] when what was thrown is not an [Error]; the request counts
    as sent. *)
Theorem transport_failure_is_reported (rt : Runtime) (host : Host) (name url : jsstring)
    (buildHeaders : JSValue -> Completion (list (jsstring * JSValue)))
    (buildBody : JSValue -> JSValue -> Completion JSValue)
    (parseResponse : JSValue -> Completion (Result JSValue jsstring))
    (urlModifier : option (jsstring -> JSValue -> Completion jsstring))
    (q : jsstring) (schema apiKey : JSValue) (w : World)
    (req : FetchRequest.t) (e : Thrown) :
  first_request url buildHeaders buildBody urlModifier (JString q) schema apiKey = [req] ->
  (network host req = Throw e
   \/ exists response,
        network host req = Normal response /\ FetchResponse.text response = Throw e) ->
  exists out w',
    LoopOps.run host
      (createLLMQueryFunction name url buildHeaders buildBody parseResponse
         urlModifier (JString q) schema apiKey) w = (Normal out, w')
    /\ success out = false
    /\ data out = None
    /\ error out = Some (match e with
                         | ErrorInstance _ message => message
                         | NotAnError _ => js "Unknown error"
                         end)
    /\ requests w' = requests w ++ [req].
Proof.
  intros Hfr Hfail.
  destruct (createLLMQueryFunction_outcome host name url buildHeaders buildBody
              parseResponse urlModifier q schema apiKey w)
    as [out [w' [Hrun [Hreq Hout]]]].
  rewrite Hfr in Hout, Hreq.
  exists out, w'. split; [exact Hrun|].
  destruct Hfail as [Hnet|[response [Hnet Htext]]]; rewrite Hnet in Hout;
    [|rewrite Htext in Hout]; injection Hout as Hs Hd He; auto.
Qed.

(** The Anthropic endpoint is unreachable: the outcome carries the
    message of the error [fetch] rejected with. *)
Lemma transport_failure_is_reported_witness :
  exists out w',
    LoopOps.run Sample.host
      (@queryClaude Sample.runtime (JString (js "What is 2+2?")) DEFAULT_SCHEMA
         (JString (js "key"))) initial_world = (Normal out, w')
    /\ success out = false
    /\ error out = Some (js "fetch failed")
    /\ length (requests w') = 1.
Proof.
  destruct (@transport_failure_is_reported Sample.runtime Sample.host
              (LLMConfig.name LLM_CONFIGS.anthropic) (LLMConfig.url LLM_CONFIGS.anthropic)
              claude_headers (fun query schema => Normal (buildClaudeRequestBody query schema))
              (@parseClaudeResponse Sample.runtime) None
              (js "What is 2+2?") DEFAULT_SCHEMA (JString (js "key")) initial_world
              (provider_request Anthropic (JString (js "What is 2+2?")) DEFAULT_SCHEMA
                 (js "key"))
              (ErrorInstance (js "TypeError") (js "fetch failed"))
              eq_refl (or_introl eq_refl))
    as [out [w' [Hrun [Hs [_ [He Hr]]]]]].
  exists out, w'. split; [exact Hrun|]. split; [exact Hs|]. split; [exact He|].
  rewrite Hr. reflexivity.
Defined.

(** X10. For every adapter and every answer of the network, the invoker
    reports a success with [value] exactly when all of this happened:
    the request could be prepared, [fetch] resolved, the body could be
    read, the status was in 200-299, the body was well-formed JSON, and
    the adapter's parser returned [value] as a success. *)
Theorem invoker_succeeds_iff (rt : Runtime) (host : Host) (name url : jsstring)
    (buildHeaders : JSValue -> Completion (list (jsstring * JSValue)))
    (buildBody : JSValue -> JSValue -> Completion JSValue)
    (parseResponse : JSValue -> Completion (Result JSValue jsstring))
    (urlModifier : option (jsstring -> JSValue -> Completion jsstring))
    (q : jsstring) (schema apiKey : JSValue) (w : World) :
  exists out w',
    LoopOps.run host
      (createLLMQueryFunction name url buildHeaders buildBody parseResponse
         urlModifier (JString q) schema apiKey) w = (Normal out, w')
    /\ forall value,
         (success out = true /\ data out = Some value)
         <-> exists req response responseText parsed,
               first_request url buildHeaders buildBody urlModifier
                 (JString q) schema apiKey = [req]
               /\ network host req = Normal response
               /\ FetchResponse.text response = Normal responseText
               /\ FetchResponse.ok response = true
               /\ JSON_parse responseText = inl parsed
               /\ parseResponse parsed = Normal (Success value).
Proof.
  destruct (createLLMQueryFunction_outcome host name url buildHeaders buildBody
              parseResponse urlModifier q schema apiKey w)
    as [out [w' [Hrun [_ Hout]]]].
  exists out, w'. split; [exact Hrun|]. intros value. split.
  - intros [Hs Hd].
    destruct (first_request_cases url buildHeaders buildBody urlModifier
                (JString q) schema apiKey) as [Hfr|[req Hfr]];
      rewrite Hfr in Hout; [congruence|].
    exists req.
    destruct (network host req) as [response|e]; [|injection Hout; congruence].
    exists response.
    destruct (FetchResponse.text response) as [responseText|e];
      [|injection Hout; congruence].
    exists responseText.
    destruct (FetchResponse.ok response); [|injection Hout; congruence].
    destruct (JSON_parse responseText) as [parsed|message];
      [|injection Hout; congruence].
    exists parsed.
    destruct (parseResponse parsed) as [[v|message]|e];
      try (injection Hout; congruence).
    injection Hout as _ Hv _. rewrite Hd in Hv. injection Hv as ->. auto 6.
  - intros [req [response [responseText [parsed [Hfr [Hnet [Htext [Hok [Hjson Hp]]]]]]]]].
    rewrite Hfr, Hnet, Htext, Hok, Hjson, Hp in Hout. injection Hout as Hs Hd _. auto.
Qed.

(** X11. For every adapter and every answer of the network, the invoker
    sends what it prepared and nothing else: the one request built from
    the URL, the headers and the body, or no request at all when
    building one of them or serialising the body throws, in which case
    it reports a failure. *)
Theorem invoker_sends_the_prepared_request (rt : Runtime) (host : Host)
    (name url : jsstring)
    (buildHeaders : JSValue -> Completion (list (jsstring * JSValue)))
    (buildBody : JSValue -> JSValue -> Completion JSValue)
    (parseResponse : JSValue -> Completion (Result JSValue jsstring))
    (urlModifier : option (jsstring -> JSValue -> Completion jsstring))
    (q : jsstring) (schema apiKey : JSValue) (w : World) :
  exists out w',
    LoopOps.run host
      (createLLMQueryFunction name url buildHeaders buildBody parseResponse
         urlModifier (JString q) schema apiKey) w = (Normal out, w')
    /\ requests w'
       = requests w ++ first_request url buildHeaders buildBody urlModifier
                         (JString q) schema apiKey
    /\ length (requests w') <= S (length (requests w))
    /\ (requests w' = requests w -> success out = false).
Proof.
  destruct (createLLMQueryFunction_outcome host name url buildHeaders buildBody
              parseResponse urlModifier q schema apiKey w)
    as [out [w' [Hrun [Hreq Hout]]]].
  exists out, w'. split; [exact Hrun|]. split; [exact Hreq|].
  destruct (first_request_cases url buildHeaders buildBody urlModifier
              (JString q) schema apiKey) as [Hfr|[req Hfr]];
    rewrite Hfr in Hout, Hreq; rewrite Hreq, length_app; cbn [length]; split; try lia.
  - intros _. exact Hout.
  - intros H. apply (f_equal (@length _)) in H. rewrite length_app in H.
    cbn [length] in H. lia.
Qed.

(** X12. With a status in 200-299, a body that is not well-formed JSON
    is reported as ["JSON parse error: "] followed by the parser's
    message, and the adapter's parser is not consulted; a body that is
    well-formed but that the adapter's parser rejects is reported with
    the parser's own error, unchanged. *)
Theorem response_failures_are_reported (rt : Runtime) (host : Host) (name url : jsstring)
    (buildHeaders : JSValue -> Completion (list (jsstring * JSValue)))
    (buildBody : JSValue -> JSValue -> Completion JSValue)
    (parseResponse : JSValue -> Completion (Result JSValue jsstring))
    (urlModifier : option (jsstring -> JSValue -> Completion jsstring))
    (q : jsstring) (schema apiKey : JSValue) (w : World)
    (req : FetchRequest.t) (response : FetchResponse.t) (responseText : jsstring) :
  first_request url buildHeaders buildBody urlModifier (JString q) schema apiKey = [req] ->
  network host req = Normal response ->
  FetchResponse.text response = Normal responseText ->
  FetchResponse.ok response = true ->
  exists out w',
    LoopOps.run host
      (createLLMQueryFunction name url buildHeaders buildBody parseResponse
         urlModifier (JString q) schema apiKey) w = (Normal out, w')
    /\ (forall message, JSON_parse responseText = inr message ->
                        success out = false
                        /\ error out = Some (js "JSON parse error: " ++ message))
    /\ (forall parsed message,
          JSON_parse responseText = inl parsed ->
          parseResponse parsed = Normal (Failure message) ->
          success out = false /\ error out = Some message).
Proof.
  intros Hfr Hnet Htext Hok.
  destruct (createLLMQueryFunction_outcome host name url buildHeaders buildBody
              parseResponse urlModifier q schema apiKey w)
    as [out [w' [Hrun [_ Hout]]]].
  rewrite Hfr, Hnet, Htext, Hok in Hout.
  exists out, w'. split; [exact Hrun|]. split.
  - intros message Hjson. rewrite Hjson in Hout. injection Hout as Hs _ He. auto.
  - intros parsed message Hjson Hp. rewrite Hjson, Hp in Hout.
    injection Hout as Hs _ He. auto.
Qed.

(** Grok answers 200 with a page that is not JSON. *)
Lemma response_failures_are_reported_witness :
  exists out w',
    LoopOps.run Sample.host
      (@queryGrok Sample.runtime (JString (js "What is 2+2?")) DEFAULT_SCHEMA
         (JString (js "key"))) initial_world = (Normal out, w')
    /\ success out = false
    /\ error out = Some (js "JSON parse error: Unexpected token").
Proof.
  destruct (@response_failures_are_reported Sample.runtime Sample.host
              (LLMConfig.name LLM_CONFIGS.grok) (LLMConfig.url LLM_CONFIGS.grok)
              (@bearer_headers Sample.runtime)
              (fun query schema => Normal (buildGrokRequestBody query schema))
              (@parseGrokResponse Sample.runtime) None
              (js "What is 2+2?") DEFAULT_SCHEMA (JString (js "key")) initial_world
              (provider_request Grok (JString (js "What is 2+2?")) DEFAULT_SCHEMA (js "key"))
              {| FetchResponse.status := 200;
                 FetchResponse.statusText := js "OK";
                 FetchResponse.text := Normal (js "<html>Bad gateway</html>") |}
              (js "<html>Bad gateway</html>") eq_refl eq_refl eq_refl eq_refl)
    as [out [w' [Hrun [Hjson _]]]].
  exists out, w'. split; [exact Hrun|].
  exact (Hjson (js "Unexpected token") eq_refl).
Defined.

(** X28. When the URL and the headers are built and [JSON.stringify]
    throws on the body the adapter built, the invoker's [catch] takes
    over: no request is sent, and the invoker reports a failure whose
    error is the message of the [Error] thrown, or ["Unknown error"]
    when what was thrown is not an [Error]. *)
Theorem unserialisable_body_is_reported (rt : Runtime) (host : Host) (name url : jsstring)
    (buildHeaders : JSValue -> Completion (list (jsstring * JSValue)))
    (buildBody : JSValue -> JSValue -> Completion JSValue)
    (parseResponse : JSValue -> Completion (Result JSValue jsstring))
    (urlModifier : option (jsstring -> JSValue -> Completion jsstring))
    (q : jsstring) (schema apiKey : JSValue) (w : World)
    (finalUrl : jsstring) (headers : list (jsstring * JSValue)) (body : JSValue)
    (e : Thrown) :
  match urlModifier with
  | Some modify => modify url apiKey
  | None => Normal url
  end = Normal finalUrl ->
  buildHeaders apiKey = Normal headers ->
  buildBody (JString q) schema = Normal body ->
  JSON_stringify body 0 = Throw e ->
  exists out w',
    LoopOps.run host
      (createLLMQueryFunction name url buildHeaders buildBody parseResponse
         urlModifier (JString q) schema apiKey) w = (Normal out, w')
    /\ provider out = name
    /\ success out = false
    /\ data out = None
    /\ error out = Some (match e with
                         | ErrorInstance _ message => message
                         | NotAnError _ => js "Unknown error"
                         end)
    /\ requests w' = requests w.
Proof.
  intros Hurl Hheaders Hbody Htext.
  unfold createLLMQueryFunction, logInfo, logWarn, logError, log,
    createLogEntry, getCurrentTimestamp, logToConsole,
    AsyncOps.fetch, AsyncOps.Response_text, AsyncOps.Date_now.
  cbn [AsyncOps.bind String_substring0 AsyncOps.lift LoopOps.run LoopOps.read_clock
       AsyncOps.try_catch LoopOps.write_console ToString bind].
  rewrite Hurl, Hheaders, Hbody.
  cbn [AsyncOps.bind AsyncOps.lift AsyncOps.try_catch bind].
  rewrite Htext.
  cbn [AsyncOps.bind AsyncOps.lift AsyncOps.try_catch LoopOps.run LoopOps.read_clock
       LoopOps.write_console LoopOps.send ticks console requests bind].
  do 2 eexists. split; [reflexivity|]. cbn [provider success data error requests].
  destruct e; auto 6.
Qed.

(** OpenAI is asked with a schema nested seventy levels deep. *)
Lemma unserialisable_body_is_reported_witness :
  exists out w',
    LoopOps.run Sample.host
      (@queryOpenAI Sample.runtime (JString (js "What is 2+2?")) Cases.deep_value
         (JString (js "key"))) initial_world = (Normal out, w')
    /\ success out = false
    /\ error out = Some (js "Maximum call stack size exceeded")
    /\ requests w' = [].
Proof.
  destruct (@unserialisable_body_is_reported Sample.runtime Sample.host
              (LLMConfig.name LLM_CONFIGS.openai) (LLMConfig.url LLM_CONFIGS.openai)
              (@bearer_headers Sample.runtime)
              (fun query schema => Normal (buildOpenAIRequestBody query schema))
              (@parseOpenAIResponse Sample.runtime) None
              (js "What is 2+2?") Cases.deep_value (JString (js "key")) initial_world
              (LLMConfig.url LLM_CONFIGS.openai)
              [(js "Content-Type", JString (js "application/json"));
               (js "Authorization", JString (js "Bearer key"))]
              (buildOpenAIRequestBody (JString (js "What is 2+2?")) Cases.deep_value)
              (ErrorInstance (js "RangeError") (js "Maximum call stack size exceeded"))
              eq_refl eq_refl eq_refl eq_refl)
    as [out [w' [Hrun [_ [Hs [_ [He Hr]]]]]]].
  exists out, w'. split; [exact Hrun|]. split; [exact Hs|]. split; [exact He|].
  exact Hr.
Defined.

(* ====================================================================== *)
(** * Clock readings across the event loop                                 *)
(* ====================================================================== *)

Section TimingFacts.
Variable host : Host.

Lemma ascending_snoc lo moments n :
  ascending lo moments -> Forall (fun i => i < n) moments -> lo <= n ->
  ascending lo (moments ++ [n]).
Proof.
  revert lo. induction moments as [|i rest IH]; intros lo Ha Hf Hlo; cbn.
  - auto.
  - destruct Ha as [Hi Ha]. inversion Hf; subst. split; [exact Hi|].
    apply IH; [assumption | assumption | lia].
Qed.

Lemma ascending_middle lo before m after :
  ascending lo (before ++ m :: after) -> lo <= m.
Proof.
  revert lo. induction before as [|i rest IH]; intros lo; cbn.
  - tauto.
  - intros [Hi Ha]. apply IH in Ha. lia.
Qed.

Lemma read_between_nil lo hi : read_between host lo hi [].
Proof. exists []. split; [reflexivity|]. split; [exact I | constructor]. Qed.

Lemma read_between_snoc lo n rs :
  read_between host lo n rs -> lo <= n ->
  read_between host lo (S n) (rs ++ [clock host n]).
Proof.
  intros [moments [Hrs [Ha Hf]]] Hlo. exists (moments ++ [n]).
  split; [rewrite map_app, Hrs; reflexivity|]. split.
  - apply ascending_snoc; assumption.
  - apply Forall_app. split.
    + eapply Forall_impl; [|exact Hf]. cbn. intros; lia.
    + constructor; [lia | constructor].
Qed.

Lemma read_between_weaken lo hi hi' rs :
  read_between host lo hi rs -> hi <= hi' -> read_between host lo hi' rs.
Proof.
  intros [moments [Hrs [Ha Hf]]] Hle. exists moments.
  split; [exact Hrs|]. split; [exact Ha|].
  eapply Forall_impl; [|exact Hf]. cbn. intros; lia.
Qed.

(** A latency between readings made from [lo] up to [hi] is the
    difference of the clock at two ticks in that range, the later minus
    the earlier. *)
Lemma latency_read_between lo hi rs out :
  latency_between rs out -> read_between host lo hi rs ->
  exists n m, lo <= n /\ n < m /\ m < hi
              /\ latency out = (clock host m - clock host n)%Z.
Proof.
  intros [start [between [finish [after [Hrs Hlat]]]]] [moments [Hm [Ha Hf]]].
  rewrite Hrs in Hm. destruct moments as [|n rest]; [discriminate|].
  cbn [map] in Hm. injection Hm as Hstart Hrest.
  symmetry in Hrest. apply map_eq_app in Hrest.
  destruct Hrest as [l1 [l2 [Hsplit [_ Hl2]]]].
  destruct l2 as [|m l2]; [discriminate|]. cbn [map] in Hl2. injection Hl2 as Hfinish _.
  subst rest. destruct Ha as [Hlo Ha]. apply ascending_middle in Ha.
  rewrite Forall_forall in Hf.
  assert (Hhi : m < hi) by (apply Hf; right; apply in_elt).
  exists n, m. split; [lia|]. split; [lia|]. split; [lia|]. rewrite Hlat. congruence.
Qed.

Lemma Forall2_replace_nth_impl X Y (R R' : X -> Y -> Prop) xs ys i y y' :
  Forall2 R xs ys ->
  nth_error ys i = Some y ->
  (forall x, R x y -> R' x y') ->
  (forall x z, R x z -> R' x z) ->
  Forall2 R' xs (LoopOps.replace_nth i y' ys).
Proof.
  intros H. revert i.
  induction H as [|x0 y0 xs ys Hxy Hrest IH]; intros i Hnth Hstep Hweak.
  - destruct i; discriminate.
  - destruct i as [|i]; cbn in *.
    + injection Hnth as ->. constructor; [apply Hstep; assumption|].
      eapply Forall2_impl; [|exact Hrest]. exact Hweak.
    + constructor; [apply Hweak; assumption | apply IH; assumption].
Qed.

Lemma Forall2_nth_error_left X Y (R : X -> Y -> Prop) xs ys i y :
  Forall2 R xs ys -> nth_error ys i = Some y -> exists x, R x y.
Proof.
  intros H. revert i. induction H as [|x0 y0 xs ys Hxy _ IH]; intros i Hnth.
  - destruct i; discriminate.
  - destruct i; cbn in Hnth; [injection Hnth as <-; eauto | eauto].
Qed.

Variable A : Type.

Lemma Yields_Follows (post : list Z -> A -> Prop) rs (t : Async A) :
  Yields post never rs t -> Follows host post rs t.
Proof.
  induction 1 as [rs a Hp | rs e He | | | |]; try (constructor; auto; fail).
  destruct He.
Qed.

Lemma Follows_and (post post' : list Z -> A -> Prop) rs (t : Async A) :
  Follows host post rs t -> Follows host post' rs t ->
  Follows host (fun rs a => post rs a /\ post' rs a) rs t.
Proof.
  induction 1 as [rs a Hp | rs k _ IH | rs m l k _ IH | rs req k _ IH | rs resp k _ IH];
    intros H'; inversion H'; subst; constructor; auto.
Qed.

(** A body that follows the host's answers runs to a value. *)
Lemma run_Follows (P : A -> Prop) rs (t : Async A) :
  Follows host (fun _ a => P a) rs t ->
  forall w, exists a w', LoopOps.run host t w = (Normal a, w') /\ P a.
Proof.
  induction 1 as [rs a Hp | rs k _ IH | rs m l k _ IH | rs req k _ IH | rs resp k _ IH];
    intros w; cbn [LoopOps.run]; eauto.
  unfold LoopOps.read_clock. apply IH.
Qed.

Lemma timed_weaken (post : list Z -> A -> Prop) lo hi hi' (p : Async A) :
  timed host post lo hi p -> hi <= hi' -> timed host post lo hi' p.
Proof.
  intros [[rs [Hy Hr]] Hs] Hle. split; [|exact Hs].
  exists rs. split; [exact Hy|]. eapply read_between_weaken; eauto.
Qed.

(** Running a body to its first [await] reads the clock at the ticks
    that follow the ones already read. *)
Lemma run_sync_timed (post : list Z -> A -> Prop) rs (t : Async A) :
  Follows host post rs t ->
  forall w lo,
    read_between host lo (ticks w) rs -> lo <= ticks w ->
    timed host post lo (ticks (snd (LoopOps.run_sync host t w)))
      (fst (LoopOps.run_sync host t w))
    /\ ticks w <= ticks (snd (LoopOps.run_sync host t w)).
Proof.
  induction 1 as [rs a Hp | rs k Hk IH | rs m l k Hk IH
                  | rs req k Hk IH | rs resp k Hk IH]; intros w lo Hr Hlo;
    cbn [LoopOps.run_sync].
  - cbn [fst snd]. split; [|lia]. split; [|exact I].
    exists rs. split; [constructor; assumption | exact Hr].
  - unfold LoopOps.read_clock.
    destruct (IH (clock host (ticks w))
                {| ticks := S (ticks w); console := console w; requests := requests w |}
                lo) as [Ht Hle]; cbn [ticks] in *.
    + apply read_between_snoc; assumption.
    + lia.
    + split; [exact Ht | lia].
  - destruct (IH (LoopOps.write_console m l w) lo Hr Hlo) as [Ht Hle].
    split; [exact Ht | exact Hle].
  - cbn [fst snd LoopOps.send ticks]. split; [|lia]. split; [|exact I].
    exists rs. split; [constructor; assumption | exact Hr].
  - cbn [fst snd]. split; [|lia]. split; [|exact I].
    exists rs. split; [constructor; assumption | exact Hr].
Qed.

Lemma resume_timed (post : list Z -> A -> Prop) lo (p : Async A) w :
  timed host post lo (ticks w) p -> lo <= ticks w ->
  timed host post lo (ticks (snd (LoopOps.resume host p w)))
    (fst (LoopOps.resume host p w))
  /\ ticks w <= ticks (snd (LoopOps.resume host p w)).
Proof.
  intros [[rs [Hy Hr]] Hs] Hlo.
  destruct p as [a | e | k | m l k | req k | resp k]; cbn [LoopOps.resume];
    try (cbn [fst snd]; split; [|lia]; split; [exists rs; split; assumption | exact Hs]).
  - inversion Hy; subst. apply run_sync_timed with (rs := rs); auto.
  - inversion Hy; subst. apply run_sync_timed with (rs := rs); auto.
Qed.

Lemma first_rejection_timed posts lo hi (ps : list (Async A)) :
  Forall2 (fun post p => timed host post lo hi p) posts ps ->
  LoopOps.first_rejection ps = None.
Proof.
  induction 1 as [|post p posts ps [[rs [Hy _]] _] _ IH]; [reflexivity|].
  destruct p; cbn [LoopOps.first_rejection]; auto. inversion Hy.
Qed.

Lemma fulfilled_values_timed posts lo hi (ps : list (Async A)) values :
  Forall2 (fun post p => timed host post lo hi p) posts ps ->
  LoopOps.fulfilled_values ps = Some values ->
  Forall2 (fun (post : list Z -> A -> Prop) a =>
             exists rs, post rs a /\ read_between host lo hi rs) posts values.
Proof.
  intros H. revert values.
  induction H as [|post p posts ps [[rs [Hy Hr]] _] _ IH]; intros values Hv; cbn in Hv.
  - injection Hv as <-. constructor.
  - destruct p; try discriminate.
    destruct (LoopOps.fulfilled_values ps) as [vs|]; [|discriminate].
    injection Hv as <-. constructor; auto.
    inversion Hy; subst. eauto.
Qed.

(** [Promise.all] over promises whose readings lie between [lo] and the
    current tick: it is not rejected, and the values it fulfils with
    were produced from readings between [lo] and the tick at which it
    fulfils. *)
Lemma join_timed posts lo order :
  forall (ps : list (Async A)) w,
    Forall2 (fun post p => timed host post lo (ticks w) p) posts ps ->
    lo <= ticks w ->
    match LoopOps.join host order ps w with
    | (Fulfilled values, w') =>
        Forall2 (fun (post : list Z -> A -> Prop) a =>
                   exists rs, post rs a /\ read_between host lo (ticks w') rs)
          posts values
        /\ ticks w <= ticks w'
    | (Rejected _, _) => False
    | (Pending, _) => True
    end.
Proof.
  induction order as [|i rest IH]; intros ps w Hps Hlo; cbn [LoopOps.join];
    rewrite (first_rejection_timed Hps);
    destruct (LoopOps.fulfilled_values ps) as [values|] eqn:Hv;
    try (split; [eapply fulfilled_values_timed; eauto | lia]).
  - exact I.
  - destruct (nth_error ps i) as [p|] eqn:Hnth; [|apply IH; assumption].
    assert (Hp : forall post, timed host post lo (ticks w) p ->
                   timed host post lo (ticks (snd (LoopOps.resume host p w)))
                     (fst (LoopOps.resume host p w))
                   /\ ticks w <= ticks (snd (LoopOps.resume host p w))).
    { intros post Ht. apply resume_timed; assumption. }
    assert (Hle : ticks w <= ticks (snd (LoopOps.resume host p w))).
    { assert (Hex : exists post, timed host post lo (ticks w) p)
        by exact (@Forall2_nth_error_left _ _
                    (fun post p0 => timed host post lo (ticks w) p0)
                    posts ps i p Hps Hnth).
      destruct Hex as [post Ht]. apply (Hp post Ht). }
    destruct (LoopOps.resume host p w) as [p' w1]. cbn [fst snd] in *.
    assert (Hps' : Forall2 (fun post p0 => timed host post lo (ticks w1) p0) posts
                     (LoopOps.replace_nth i p' ps)).
    { apply Forall2_replace_nth_impl
        with (R := fun post p0 => timed host post lo (ticks w) p0) (y := p).
      - exact Hps.
      - exact Hnth.
      - intros post Ht. apply (Hp post Ht).
      - intros post p0 Ht. eapply timed_weaken; eauto. }
    specialize (IH (LoopOps.replace_nth i p' ps) w1 Hps').
    destruct (LoopOps.join host rest (LoopOps.replace_nth i p' ps) w1)
      as [[values|e|] w'].
    + destruct IH as [Hvalues Hle']; [lia|]. split; [exact Hvalues | lia].
    + apply IH. lia.
    + exact I.
Qed.

End TimingFacts.

Section DispatchTiming.
Context {rt : Runtime}.
Variable host : Host.
Variable q : jsstring.
Variable schema : JSValue.
Variable keys : ApiKeys.t.

(** What is known of each provider's invocation. *)
Variable post : ProviderId -> list Z -> LLMResponse -> Prop.
Hypothesis invocation :
  forall p, Follows host (post p) []
              (query_function p (JString q) schema (resolved_credential keys p)).

Lemma call_query_timed (p : ProviderId) lo w :
  lo <= ticks w ->
  let t := query_function p (JString q) schema (resolved_credential keys p) in
  timed host (post p) lo
    (ticks (snd (LoopOps.run_sync host t w))) (fst (LoopOps.run_sync host t w))
  /\ ticks w <= ticks (snd (LoopOps.run_sync host t w)).
Proof.
  intros Hlo t. apply run_sync_timed with (rs := []).
  - apply invocation.
  - apply read_between_nil.
  - exact Hlo.
Qed.

Lemma push_step_timed (p : ProviderId) lo chosen ps w :
  Forall2 (fun post p0 => timed host post lo (ticks w) p0) (map post chosen) ps ->
  lo <= ticks w ->
  exists ps' w',
    (if truthy (resolved_credential keys p) then
       LoopOps.bind
         (LoopOps.call host
            (query_function p (JString q) schema (resolved_credential keys p)))
         (fun x => LoopOps.ret (ps ++ [x]))
     else LoopOps.ret ps) w = (Fulfilled ps', w')
    /\ Forall2 (fun post p0 => timed host post lo (ticks w') p0)
         (map post (chosen ++ if truthy (resolved_credential keys p) then [p] else []))
         ps'
    /\ ticks w <= ticks w'.
Proof.
  intros Hps Hlo. destruct (truthy (resolved_credential keys p)).
  - unfold LoopOps.bind, LoopOps.call, LoopOps.ret.
    destruct (call_query_timed p w Hlo) as [Ht Hle].
    destruct (LoopOps.run_sync host
                (query_function p (JString q) schema (resolved_credential keys p)) w)
      as [x w']. cbn [fst snd] in *.
    exists (ps ++ [x]), w'. split; [reflexivity|]. split; [|exact Hle].
    rewrite map_app. apply Forall2_app.
    + eapply Forall2_impl; [|exact Hps]. intros post0 p0 H0.
      eapply timed_weaken; [exact H0 | exact Hle].
    + cbn. constructor; [exact Ht | constructor].
  - exists ps, w. split; [reflexivity|]. rewrite app_nil_r. auto.
Qed.

(** Every promise [buildLLMPromises] returns has made its readings after
    the dispatcher was entered. *)
Lemma buildLLMPromises_timed w :
  exists ps w',
    buildLLMPromises host (JString q) schema keys w = (Fulfilled ps, w')
    /\ Forall2 (fun post p0 => timed host post (ticks w) (ticks w') p0)
         (map post (available keys)) ps
    /\ ticks w <= ticks w'.
Proof.
  assert (H0 : Forall2 (fun post p0 => timed host post (ticks w) (ticks w) p0)
                 (map post []) [])
    by constructor.
  destruct (@push_step_timed OpenAI _ [] _ _ H0 (Nat.le_refl _))
    as [ps1 [w1 [E1 [H1 L1]]]].
  destruct (@push_step_timed Anthropic _ _ _ _ H1 L1) as [ps2 [w2 [E2 [H2 L2]]]].
  destruct (@push_step_timed Gemini _ _ _ _ H2 (Nat.le_trans _ _ _ L1 L2))
    as [ps3 [w3 [E3 [H3 L3]]]].
  destruct (@push_step_timed Grok _ _ _ _ H3
              (Nat.le_trans _ _ _ (Nat.le_trans _ _ _ L1 L2) L3))
    as [ps4 [w4 [E4 [H4 L4]]]].
  cbn [resolved_credential query_function] in E1, E2, E3, E4.
  exists ps4, w4. split; [|split; [|lia]].
  - unfold buildLLMPromises.
    unfold LoopOps.bind at 1. rewrite E1.
    unfold LoopOps.bind at 1. rewrite E2.
    unfold LoopOps.bind at 1. rewrite E3.
    unfold LoopOps.bind at 1. rewrite E4. reflexivity.
  - replace (available keys)
      with ((((([] ++ (if truthy (resolved_credential keys OpenAI) then [OpenAI] else []))
               ++ (if truthy (resolved_credential keys Anthropic) then [Anthropic] else []))
              ++ (if truthy (resolved_credential keys Gemini) then [Gemini] else []))
             ++ (if truthy (resolved_credential keys Grok) then [Grok] else []))).
    + exact H4.
    + unfold available, registration_order. cbn [filter].
      destruct (truthy (resolved_credential keys OpenAI)),
        (truthy (resolved_credential keys Anthropic)),
        (truthy (resolved_credential keys Gemini)),
        (truthy (resolved_credential keys Grok)); reflexivity.
Qed.

End DispatchTiming.

(* ====================================================================== *)
(** * The handler, request by request                                      *)
(* ====================================================================== *)

Section AnswerFacts.
Context {rt : Runtime}.
Variable host : Host.

Lemma String_eqb_eq (a b : jsstring) : String_eqb a b = true <-> a = b.
Proof.
  split; [|intros ->; apply String_eqb_refl].
  revert b. induction a as [|x a IH]; intros [|y b]; cbn; try discriminate; auto.
  intros H. apply andb_true_iff in H. destruct H as [Hx Ha].
  apply N.eqb_eq in Hx. apply IH in Ha. congruence.
Qed.

Lemma perform_log_ticks level message context w :
  exists w', LoopOps.perform host (log level message context) w = (Fulfilled tt, w')
             /\ requests w' = requests w /\ ticks w' = S (ticks w).
Proof. eexists. split; [reflexivity|]. split; reflexivity. Qed.

Lemma perform_log_world level message context w :
  LoopOps.perform host (log level message context) w
  = (Fulfilled tt,
     {| ticks := S (ticks w);
        console :=
          console w
          ++ [(match level with
               | ERROR => console_error
               | WARN => console_warn
               | INFO => console_log
               end,
               {| LogEntry.level := level;
                  LogEntry.timestamp := toISOString (clock host (ticks w));
                  LogEntry.message := message;
                  LogEntry.context :=
                    match context with
                    | Some c => if truthy c then Some c else None
                    | None => None
                    end |})];
        requests := requests w |}).
Proof. reflexivity. Qed.

Lemma perform_error_response status message details w :
  exists stamp logged,
    LoopOps.perform host (createErrorResponse status message details) w
    = (Fulfilled (error_response status message
                    (match details with
                     | Some d => if truthy d then Some d else None
                     | None => None
                     end) stamp),
       {| ticks := S (S (ticks w));
          console := console w ++ [(console_error, logged)];
          requests := requests w |})
    /\ LogEntry.level logged = ERROR
    /\ LogEntry.message logged = message
    /\ LogEntry.context logged
       = Some (JObject [(js "status", JNumber (Number_of_Z (Z.of_N status)));
                        (js "details",
                         match details with Some d => d | None => JUndefined end)]).
Proof. do 2 eexists. split; [reflexivity|]. cbn. auto. Qed.

(** How [handleRequest] answers a request that it does not dispatch, and
    which requests it goes on to dispatch. *)
Lemma handleRequest_cases (request : Request.t) (env : Env) (w : World) :
  (Request.method request <> js "POST"
   /\ exists stamp w',
        handleRequest host request env w
        = (Fulfilled (error_response 405 METHOD_NOT_ALLOWED None stamp), w')
        /\ requests w' = requests w
        /\ logged_error request w w' 405 METHOD_NOT_ALLOWED None)
  \/ (Request.method request = js "POST"
      /\ exists e stamp w',
           Request.json request = Throw e
           /\ handleRequest host request env w
              = (Fulfilled
                   (error_response 400 INVALID_JSON
                      (Some (JObject [(js "parseError",
                                       JString (message_or (js "Unknown error") e))]))
                      stamp), w')
           /\ requests w' = requests w
           /\ logged_error request w w' 400 INVALID_JSON
                (Some (JObject [(js "parseError",
                                 JString (message_or (js "Unknown error") e))])))
  \/ (Request.method request = js "POST"
      /\ exists requestData message stamp w',
           Request.json request = Normal requestData
           /\ validateRequest requestData = Normal (Failure message)
           /\ handleRequest host request env w
              = (Fulfilled (error_response 400 message None stamp), w')
           /\ requests w' = requests w
           /\ logged_error request w w' 400 message None)
  \/ (Request.method request = js "POST"
      /\ exists requestData,
           Request.json request = Normal requestData /\ succeeds requestData).
Proof.
  remember (handleRequest host request env w) as result eqn:E.
  unfold handleRequest in E.
  unfold LoopOps.bind at 1 in E. rewrite perform_Date_now in E.
  unfold LoopOps.bind at 1 in E. unfold logInfo in E.
  rewrite perform_log_world in E. cbn [ticks console requests truthy] in E.
  assert (Hlog : forall s m d stamp logged w',
            result = (Fulfilled (error_response s m
                                   (match d with
                                    | Some x => if truthy x then Some x else None
                                    | None => None
                                    end) stamp),
                      {| ticks := w';
                         console := (console w ++ [(console_log,
                            {| LogEntry.level := INFO;
                               LogEntry.timestamp := toISOString (clock host (S (ticks w)));
                               LogEntry.message := js "Received request";
                               LogEntry.context :=
                                 Some (JObject [(js "method", JString (Request.method request));
                                                (js "url", JString (Request.url request))]) |})])
                                    ++ [(console_error, logged)];
                         requests := requests w |}) ->
            LogEntry.level logged = ERROR ->
            LogEntry.message logged = m ->
            LogEntry.context logged
            = Some (JObject [(js "status", JNumber (Number_of_Z (Z.of_N s)));
                             (js "details",
                              match d with Some x => x | None => JUndefined end)]) ->
            requests (snd result) = requests w /\ logged_error request w (snd result) s m d).
  { intros s m d stamp logged w' -> Hl Hmsg Hc. cbn [snd requests]. split; [reflexivity|].
    do 2 eexists. cbn [console]. split; [rewrite <- app_assoc; reflexivity|].
    cbn. auto 7. }
  destruct (String_eqb (Request.method request) (js "POST")) eqn:Hm; cbn [negb] in E.
  2: { left. split; [intros H; rewrite H, String_eqb_refl in Hm; discriminate|].
       match type of E with
         context [LoopOps.perform host (createErrorResponse ?s ?m ?d) ?w0] =>
         destruct (perform_error_response s m d w0)
           as [stamp [logged [E2 [Hl [Hmsg Hc]]]]];
         rewrite E2 in E; cbn [ticks console requests] in E;
         destruct (Hlog s m d _ _ _ E Hl Hmsg Hc) as [R L] end.
       exists stamp, (snd result). split; [rewrite E; reflexivity | auto]. }
  apply String_eqb_eq in Hm. right.
  unfold LoopOps.try_or_return at 1 in E.
  destruct (Request.json request) as [requestData|e] eqn:Hj; cbn [LoopOps.lift] in E.
  2: { left. split; [exact Hm|].
       match type of E with
         context [LoopOps.perform host (createErrorResponse ?s ?m ?d) ?w0] =>
         destruct (perform_error_response s m d w0)
           as [stamp [logged [E2 [Hl [Hmsg Hc]]]]];
         rewrite E2 in E; cbn [ticks console requests] in E;
         destruct (Hlog s m d _ _ _ E Hl Hmsg Hc) as [R L] end.
       exists e, stamp, (snd result). split; [reflexivity|].
       split; [rewrite E; reflexivity | auto]. }
  right. unfold LoopOps.bind at 1 in E.
  destruct (validateRequest_cases requestData)
    as [[_ Hv]|[[_ [_ Hv]]|[[_ [_ Hv]]|[_ [_ Hv]]]]].
  4: { right. split; [exact Hm|]. exists requestData. split; [reflexivity|].
       eexists; exact Hv. }
  all: left; split; [exact Hm|]; rewrite Hv in E; cbn [LoopOps.lift] in E;
    match type of E with
      context [LoopOps.perform host (createErrorResponse ?s ?m ?d) ?w0] =>
      destruct (perform_error_response s m d w0)
        as [stamp [logged [E2 [Hl [Hmsg Hc]]]]];
      rewrite E2 in E; cbn [ticks console requests] in E;
      destruct (Hlog s m d _ _ _ E Hl Hmsg Hc) as [R L] end;
    eexists requestData, _, stamp, (snd result);
    (split; [reflexivity|]); (split; [exact Hv|]);
    (split; [rewrite E; reflexivity | auto]).
Qed.

(** What [handleRequest] answers to a POST request whose body validates,
    given what is known of each provider's invocation: the whole
    response, each outcome produced from clock readings made after the
    handler took its start time and before it took its end time. *)
Lemma handleRequest_follows (post : ProviderId -> list Z -> LLMResponse -> Prop)
    (request : Request.t) (env : Env) (requestData : JSValue) (w : World)
    (keys : ApiKeys.t) (q : jsstring) :
  Request.method request = js "POST" ->
  Request.json request = Normal requestData ->
  succeeds requestData ->
  resolveApiKeys requestData env = Normal keys ->
  get requestData (js "query") = JString q ->
  (forall p, Follows host (post p) []
               (query_function p (JString q) (effective_schema requestData)
                  (resolved_credential keys p))) ->
  match fst (handleRequest host request env w) with
  | Fulfilled response =>
      match available keys with
      | [] => exists stamp, response = error_response 400 NO_API_KEYS None stamp
      | _ :: _ =>
          exists stamp finish outcomes,
            response
            = {| Response.body :=
                   SuccessBody
                     {| CombinedResponse.query := JString q;
                        CombinedResponse.responses := outcomes;
                        CombinedResponse.totalLatency :=
                          (clock host finish - clock host (ticks w))%Z;
                        CombinedResponse.timestamp := stamp;
                        CombinedResponse.providersQueried := length outcomes |};
                 Response.status := 200;
                 Response.headers := [JSON_CONTENT_TYPE; CORS_ANY_ORIGIN] |}
            /\ Forall2
                 (fun p out =>
                    exists rs, post p rs out
                               /\ read_between host (S (ticks w)) finish rs)
                 (available keys) outcomes
      end
  | Rejected e =>
      available keys <> []
      /\ exists stamp finish outcomes,
           JSON_stringify
             (CombinedResponse_value
                {| CombinedResponse.query := JString q;
                   CombinedResponse.responses := outcomes;
                   CombinedResponse.totalLatency :=
                     (clock host finish - clock host (ticks w))%Z;
                   CombinedResponse.timestamp := stamp;
                   CombinedResponse.providersQueried := length outcomes |}) 2
           = Throw e
           /\ Forall2
                (fun p out =>
                   exists rs, post p rs out
                              /\ read_between host (S (ticks w)) finish rs)
                (available keys) outcomes
  | Pending => available keys <> []
  end.
Proof.
  intros Hm Hj [v Hv] Hkeys Hq Hpost.
  destruct (validateRequest_cases requestData)
    as [[_ E]|[[_ [_ E]]|[[_ [_ E]]|[Hobj [_ Hval]]]]];
    try (rewrite E in Hv; discriminate).
  clear v Hv.
  assert (Hnn : nullish requestData = false) by (apply is_object_not_nullish; assumption).
  remember (handleRequest host request env w) as result eqn:E.
  unfold handleRequest in E.
  unfold LoopOps.bind at 1 in E. rewrite perform_Date_now in E.
  unfold LoopOps.bind at 1 in E. unfold logInfo in E.
  match type of E with context [LoopOps.perform host (log INFO ?m ?c) ?w0] =>
    destruct (perform_log_ticks INFO m c w0) as [w1 [E1 [_ T1]]]; rewrite E1 in E end.
  cbn [ticks] in T1.
  rewrite Hm, String_eqb_refl in E. cbn [negb] in E.
  unfold LoopOps.try_or_return at 1 in E. rewrite Hj in E. cbn [LoopOps.lift] in E.
  unfold LoopOps.bind at 1 in E. rewrite Hval in E. cbn [LoopOps.lift] in E.
  unfold LoopOps.bind at 1 in E. unfold member at 1 in E. rewrite Hnn in E.
  cbn [LoopOps.lift] in E.
  unfold LoopOps.bind at 1 in E. rewrite Hkeys in E. cbn [LoopOps.lift] in E.
  unfold LoopOps.bind at 1 in E. unfold member at 1 in E. rewrite Hnn, Hq in E.
  cbn [LoopOps.lift] in E.
  unfold LoopOps.bind at 1 in E.
  change (or_else (get requestData (js "schema")) DEFAULT_SCHEMA)
    with (effective_schema requestData) in E.
  destruct (@buildLLMPromises_timed _ host q (effective_schema requestData) keys post
              Hpost w1)
    as [ps [w2 [E2 [Hps T2]]]].
  rewrite E2 in E.
  assert (Hlen : length ps = length (available keys)).
  { apply Forall2_length in Hps. rewrite length_map in Hps. auto. }
  destruct (available keys) as [|p0 chosen] eqn:Hav.
  - destruct ps; [|discriminate]. cbn [length Nat.eqb] in E.
    destruct (perform_error_response 400 NO_API_KEYS None w2) as [stamp [logged [E3 _]]].
    unfold NO_API_KEYS in E3 at 1. rewrite E3 in E. subst result. cbn [fst].
    exists stamp. reflexivity.
  - destruct ps as [|p1 ps]; [discriminate|]. cbn [length Nat.eqb] in E.
    unfold LoopOps.bind at 1 in E.
    match type of E with context [LoopOps.perform host (log INFO ?m ?c) ?w0] =>
      destruct (perform_log_ticks INFO m c w0) as [w3 [E3 [_ T3]]]; rewrite E3 in E end.
    unfold LoopOps.try_or_return, LoopOps.Promise_all in E.
    assert (Hps3 : Forall2 (fun post p => timed host post (ticks w1) (ticks w3) p)
                     (map post (p0 :: chosen)) (p1 :: ps)).
    { eapply Forall2_impl; [|exact Hps]. intros post0 p Ht.
      eapply timed_weaken; [exact Ht | lia]. }
    pose proof (@join_timed host _ _ (ticks w1) (completion_order host) (p1 :: ps) w3
                  Hps3) as Hjoin.
    destruct (LoopOps.join host (completion_order host) (p1 :: ps) w3)
      as [[values|e|] w4] eqn:Ejoin.
    + destruct Hjoin as [Hvalues T4]; [lia|].
      unfold LoopOps.bind at 1 in E. rewrite perform_Date_now in E.
      unfold LoopOps.bind at 1 in E.
      match type of E with
        context [LoopOps.perform host (createCombinedResponse ?a ?b ?c) ?w0] =>
        destruct (perform_createCombinedResponse host a b c w0) as [stamp [w5 [E5 _]]];
        rewrite E5 in E end.
      match type of E with context [LoopOps.perform host (createSuccessResponse ?d) ?w0] =>
        destruct (perform_createSuccessResponse host d (q := q) w0 eq_refl) as [w6 [E6 _]];
        rewrite E6 in E end.
      assert (Hall : Forall2
                       (fun p out =>
                          exists rs, post p rs out
                                     /\ read_between host (S (ticks w)) (ticks w4) rs)
                       (p0 :: chosen) values).
      { clear - Hvalues T1.
        remember (p0 :: chosen) as providers eqn:Ep. clear Ep.
        revert values Hvalues.
        induction providers as [|p providers IH]; intros values Hvalues;
          inversion Hvalues as [|post0 a posts vs Ha Hrest]; subst; constructor.
        * destruct Ha as [rs [Hp Hr]]. exists rs. split; [exact Hp|].
          destruct Hr as [moments [Hrs [Hasc Hf]]]. exists moments.
          split; [exact Hrs|]. split; [|exact Hf].
          destruct moments; cbn [ascending] in *; [exact I|].
          destruct Hasc. split; [lia | assumption].
        * apply IH. exact Hrest. }
      match type of E with context [JSON_stringify ?v 2] =>
        destruct (JSON_stringify v 2) as [text|e] eqn:Es end;
        subst result; cbn [fst].
      * exists stamp, (ticks w4), values. split; [reflexivity | exact Hall].
      * split; [discriminate|].
        exists stamp, (ticks w4), values. split; [exact Es | exact Hall].
    + exfalso. apply Hjoin. lia.
    + subst result. cbn [fst]. discriminate.
Qed.

(** The same, with what every invocation guarantees: a tagged outcome of
    its provider whose latency is the difference of two of its readings. *)
Lemma handleRequest_dispatch (request : Request.t) (env : Env)
    (requestData : JSValue) (w : World) :
  Request.method request = js "POST" ->
  Request.json request = Normal requestData ->
  succeeds requestData ->
  exists keys q,
    resolveApiKeys requestData env = Normal keys
    /\ get requestData (js "query") = JString q
    /\ trim q <> []
    /\ match fst (handleRequest host request env w) with
       | Fulfilled response =>
           match available keys with
           | [] => exists stamp, response = error_response 400 NO_API_KEYS None stamp
           | _ :: _ =>
               exists stamp finish outcomes,
                 response
                 = {| Response.body :=
                        SuccessBody
                          {| CombinedResponse.query := JString q;
                             CombinedResponse.responses := outcomes;
                             CombinedResponse.totalLatency :=
                               (clock host finish - clock host (ticks w))%Z;
                             CombinedResponse.timestamp := stamp;
                             CombinedResponse.providersQueried := length outcomes |};
                      Response.status := 200;
                      Response.headers := [JSON_CONTENT_TYPE; CORS_ANY_ORIGIN] |}
                 /\ Forall2
                      (fun p out =>
                         provider out = provider_name p
                         /\ tagged out
                         /\ exists n m,
                              ticks w < n /\ n < m /\ m < finish
                              /\ latency out = (clock host m - clock host n)%Z)
                      (available keys) outcomes
           end
       | Rejected e =>
           available keys <> []
           /\ exists stamp finish outcomes,
                JSON_stringify
                  (CombinedResponse_value
                     {| CombinedResponse.query := JString q;
                        CombinedResponse.responses := outcomes;
                        CombinedResponse.totalLatency :=
                          (clock host finish - clock host (ticks w))%Z;
                        CombinedResponse.timestamp := stamp;
                        CombinedResponse.providersQueried := length outcomes |}) 2
                = Throw e
                /\ Forall2
                     (fun p out =>
                        provider out = provider_name p
                        /\ tagged out
                        /\ exists n m,
                             ticks w < n /\ n < m /\ m < finish
                             /\ latency out = (clock host m - clock host n)%Z)
                     (available keys) outcomes
       | Pending => available keys <> []
       end.
Proof.
  intros Hm Hj Hv.
  assert (Hparts : exists keys q,
            resolveApiKeys requestData env = Normal keys
            /\ get requestData (js "query") = JString q /\ trim q <> []).
  { destruct Hv as [v Hv].
    destruct (validateRequest_cases requestData)
      as [[_ E]|[[_ [_ E]]|[[_ [_ E]]|[Hobj [[q [Hq Htrim]] _]]]]];
      try (rewrite E in Hv; discriminate).
    unfold resolveApiKeys, member. rewrite (is_object_not_nullish _ Hobj). cbn [bind].
    eauto. }
  destruct Hparts as [keys [q [Hkeys [Hq Htrim]]]]. exists keys, q.
  split; [exact Hkeys|]. split; [exact Hq|]. split; [exact Htrim|].
  assert (Hy : forall p,
            Follows host (outcome_of (provider_name p)) []
              (query_function p (JString q) (effective_schema requestData)
                 (resolved_credential keys p))).
  { intros p. apply Yields_Follows. destruct p; apply createLLMQueryFunction_yields. }
  pose proof (@handleRequest_follows (fun p => outcome_of (provider_name p))
                request env requestData w keys q Hm Hj Hv Hkeys Hq Hy) as H.
  assert (Hstep : forall finish outcomes,
            Forall2
              (fun p out =>
                 exists rs, outcome_of (provider_name p) rs out
                            /\ read_between host (S (ticks w)) finish rs)
              (available keys) outcomes ->
            Forall2
              (fun p out =>
                 provider out = provider_name p
                 /\ tagged out
                 /\ exists n m,
                      ticks w < n /\ n < m /\ m < finish
                      /\ latency out = (clock host m - clock host n)%Z)
              (available keys) outcomes).
  { intros finish outcomes Hall. eapply Forall2_impl; [|exact Hall]. cbn beta.
    intros p out [rs [[Hp [Ht Hl]] Hr]]. split; [exact Hp|]. split; [exact Ht|].
    destruct (latency_read_between Hl Hr) as [n [m [Hn [Hnm [Hm' Heq]]]]].
    exists n, m. split; [lia|]. auto. }
  destruct (fst (handleRequest host request env w)) as [response|e|]; auto.
  - destruct (available keys) as [|p0 chosen]; [exact H|].
    destruct H as [stamp [finish [outcomes [-> Hall]]]].
    exists stamp, finish, outcomes. split; [reflexivity | auto].
  - destruct H as [Hav [stamp [finish [outcomes [Hs Hall]]]]].
    split; [exact Hav|]. exists stamp, finish, outcomes. split; [exact Hs | auto].
Qed.

End AnswerFacts.

Section KeyFacts.
Context {rt : Runtime}.

Lemma resolveApiKeys_rule (requestData : JSValue) (env : Env) (keys : ApiKeys.t) :
  resolveApiKeys requestData env = Normal keys ->
  forall p, resolved_credential keys p
            = or_else (caller_credential requestData p) (default_credential env p).
Proof.
  intros H p. unfold resolveApiKeys, member in H.
  destruct (nullish requestData); [discriminate|]. cbn [bind] in H.
  injection H as <-. destruct p; reflexivity.
Qed.


Lemma provider_names_differ : NoDup (map provider_name registration_order).
Proof.
  repeat constructor; cbn; intuition discriminate.
Qed.

Lemma NoDup_map_filter X Y (f : X -> Y) (keep : X -> bool) (l : list X) :
  NoDup (map f l) -> NoDup (map f (filter keep l)).
Proof.
  induction l as [|x l IH]; cbn; [auto|].
  intros H. inversion H as [|y ys Hnotin Hrest]; subst.
  destruct (keep x); cbn; [|auto].
  constructor; [|auto].
  intros Hin. apply Hnotin. rewrite in_map_iff in *.
  destruct Hin as [z [Hz Hin]]. apply filter_In in Hin. exists z. tauto.
Qed.

Lemma available_at_most_four (keys : ApiKeys.t) : length (available keys) <= 4.
Proof.
  unfold available, registration_order. cbn [filter].
  destruct (truthy _), (truthy _), (truthy _), (truthy _); cbn; lia.
Qed.

Lemma request_to_string_key (query schema : JSValue) (keys : ApiKeys.t) p key :
  resolved_credential keys p = JString key ->
  request_to query schema keys p
  = match JSON_stringify (request_body p query schema) 0 with
    | Normal _ => [provider_request p query schema key]
    | Throw _ => []
    end.
Proof.
  intros H. unfold request_to. rewrite H. destruct p; reflexivity.
Qed.

(** Every request some provider is sent is a POST of JSON to that
    provider's endpoint. *)
Lemma request_to_shape (query schema : JSValue) (keys : ApiKeys.t) p req :
  In req (request_to query schema keys p) ->
  FetchRequest.method req = js "POST"
  /\ In (js "Content-Type", JString (js "application/json")) (FetchRequest.headers req)
  /\ FetchRequest.body req = request_body p query schema
  /\ match p with
     | Gemini =>
         exists key, FetchRequest.url req = LLMConfig.url (config p) ++ js "?key=" ++ key
     | _ => FetchRequest.url req = LLMConfig.url (config p)
     end.
Proof.
  unfold request_to, final_url, request_headers, gemini_url, bearer_headers,
    claude_headers, gemini_headers.
  destruct (JSON_stringify (request_body p query schema) 0) as [text|e0];
    destruct p; cbn [bind resolved_credential config];
    try match goal with
        | |- context [ToString ?k] => destruct (ToString k) as [key|e]
        end;
    cbn [bind]; try (intros []; fail);
    (intros [<-|[]]; cbn; eauto 6).
Qed.

Lemma request_to_at_most_one (query schema : JSValue) (keys : ApiKeys.t) p :
  length (request_to query schema keys p) <= 1.
Proof.
  unfold request_to.
  destruct (final_url p _); [|cbn; lia].
  destruct (request_headers p _); [|cbn; lia].
  destruct (JSON_stringify _ 0); cbn; lia.
Qed.

End KeyFacts.

Section AnswerFacts2.
Context {rt : Runtime}.
Variable host : Host.

(** The shape of every answer of [handleRequest]. *)
Lemma handleRequest_answer (request : Request.t) (env : Env) (w : World) :
  match fst (handleRequest host request env w) with
  | Fulfilled response =>
      (exists status message details stamp,
         response = error_response status message details stamp
         /\ (status = 400 \/ status = 405)%N)
      \/ (exists combined,
            response = {| Response.body := SuccessBody combined;
                          Response.status := 200;
                          Response.headers := [JSON_CONTENT_TYPE; CORS_ANY_ORIGIN] |})
  | Rejected e =>
      exists combined, JSON_stringify (CombinedResponse_value combined) 2 = Throw e
  | Pending => True
  end.
Proof.
  destruct (handleRequest_cases host request env w)
    as [[_ [stamp [w' [E _]]]]
       |[[_ [e [stamp [w' [_ [E _]]]]]]
        |[[_ [rd [m [stamp [w' [_ [_ [E _]]]]]]]]
         |[Hm [rd [Hj Hv]]]]]];
    try (rewrite E; cbn [fst]; left; do 4 eexists; split; [reflexivity|]; auto; fail).
  destruct (handleRequest_dispatch host request env w Hm Hj Hv)
    as [keys [q [_ [_ [_ Hout]]]]].
  destruct (fst (handleRequest host request env w)) as [response|e|]; [| |exact I].
  - destruct (available keys).
    + destruct Hout as [stamp ->]. left. do 4 eexists. split; [reflexivity|]. auto.
    + destruct Hout as [stamp [finish [outcomes [-> _]]]]. right. eexists. reflexivity.
  - destruct Hout as [_ [stamp [finish [outcomes [Hs _]]]]]. eexists. exact Hs.
Qed.

End AnswerFacts2.

(** X13. Any method but POST is answered 405 with the error ["Method not
    allowed. Use POST."] and a JSON content type, whatever the body is
    (it is not read), and nothing is sent to any provider. *)
Theorem handleRequest_rejects_other_methods (rt : Runtime) (host : Host)
    (request : Request.t) (env : Env) (w : World) :
  Request.method request <> js "POST" ->
  exists stamp w',
    handleRequest host request env w
    = (Fulfilled (error_response 405 METHOD_NOT_ALLOWED None stamp), w')
    /\ requests w' = requests w.
Proof.
  intros Hm.
  destruct (handleRequest_cases host request env w)
    as [[_ [stamp [w' [E [R _]]]]]|[[Hp _]|[[Hp _]|[Hp _]]]]; [eauto | contradiction..].
Qed.

(** The sample request sent with GET. *)
Lemma handleRequest_rejects_other_methods_witness :
  Request.method Cases.get_request <> js "POST"
  /\ exists stamp w',
       @handleRequest Sample.runtime Sample.host Cases.get_request Sample.two_keys
         initial_world
       = (Fulfilled (error_response 405 METHOD_NOT_ALLOWED None stamp), w')
       /\ requests w' = [].
Proof.
  assert (Hm : Request.method Cases.get_request <> js "POST") by discriminate.
  split; [exact Hm|].
  exact (@handleRequest_rejects_other_methods Sample.runtime Sample.host
           Cases.get_request Sample.two_keys initial_world Hm).
Defined.

(** X14. A POST whose body cannot be read as JSON is answered 400 with
    the error ["Invalid JSON in request body"]; the details carry the
    message of the error under [parseError] (["Unknown error"] when what
    was thrown is not an [Error]); nothing is sent to any provider. *)
Theorem handleRequest_rejects_unreadable_body (rt : Runtime) (host : Host)
    (request : Request.t) (env : Env) (w : World) (e : Thrown) :
  Request.method request = js "POST" ->
  Request.json request = Throw e ->
  exists stamp w',
    handleRequest host request env w
    = (Fulfilled
         (error_response 400 INVALID_JSON
            (Some (JObject [(js "parseError",
                             JString (match e with
                                      | ErrorInstance _ message => message
                                      | NotAnError _ => js "Unknown error"
                                      end))]))
            stamp), w')
    /\ requests w' = requests w.
Proof.
  intros Hm Hj.
  destruct (handleRequest_cases host request env w)
    as [[Hp _]|[[_ [e' [stamp [w' [Hj' [E [R _]]]]]]]
               |[[_ [rd [m [stamp [w' [Hj' _]]]]]]|[_ [rd [Hj' _]]]]]];
    try contradiction; try congruence.
  rewrite Hj in Hj'. injection Hj' as <-. eauto.
Qed.

(** A POST whose body ends too early. *)
Lemma handleRequest_rejects_unreadable_body_witness :
  exists stamp w',
    @handleRequest Sample.runtime Sample.host Cases.unreadable_request Sample.two_keys
      initial_world
    = (Fulfilled
         (error_response 400 INVALID_JSON
            (Some (JObject [(js "parseError",
                             JString (js "Unexpected end of JSON input"))]))
            stamp), w')
    /\ requests w' = [].
Proof.
  exact (@handleRequest_rejects_unreadable_body Sample.runtime Sample.host
           Cases.unreadable_request Sample.two_keys initial_world _ eq_refl eq_refl).
Defined.

(** X15. A POST whose body is JSON but fails validation is answered 400
    with exactly the error [validateRequest] returned and no details;
    neither the keys nor the schema are looked at, and nothing is sent
    to any provider. *)
Theorem handleRequest_reports_validation_error (rt : Runtime) (host : Host)
    (request : Request.t) (env : Env) (w : World)
    (requestData : JSValue) (message : jsstring) :
  Request.method request = js "POST" ->
  Request.json request = Normal requestData ->
  validateRequest requestData = Normal (Failure message) ->
  exists stamp w',
    handleRequest host request env w
    = (Fulfilled (error_response 400 message None stamp), w')
    /\ requests w' = requests w.
Proof.
  intros Hm Hj Hv.
  destruct (handleRequest_cases host request env w)
    as [[Hp _]|[[_ [e' [stamp [w' [Hj' _]]]]]
               |[[_ [rd [m [stamp [w' [Hj' [Hv' [E [R _]]]]]]]]]
                |[_ [rd [Hj' [v Hv']]]]]]];
    try contradiction; try congruence.
  rewrite Hj in Hj'. injection Hj' as <-. rewrite Hv in Hv'. injection Hv' as <-.
  eauto.
Qed.

(** A POST whose query is three blanks. *)
Lemma handleRequest_reports_validation_error_witness :
  exists stamp w',
    @handleRequest Sample.runtime Sample.host Cases.blank_request Sample.two_keys
      initial_world
    = (Fulfilled (error_response 400 EMPTY_QUERY None stamp), w')
    /\ requests w' = [].
Proof.
  exact (@handleRequest_reports_validation_error Sample.runtime Sample.host
           Cases.blank_request Sample.two_keys initial_world _ _
           eq_refl eq_refl eq_refl).
Defined.

(** X16. For every request, environment, network and completion order:
    when [handleRequest] answers, the status is 200, 400 or 405 (the 500
    of its [catch] around [Promise.all] cannot occur); every answer has
    the JSON content type; the body is a combined response exactly when
    the status is 200, and only then does the answer carry the
    [Access-Control-Allow-Origin: *] header.  [handleRequest] is rejected
    only with what [JSON.stringify] threw on a combined response. *)
Theorem handleRequest_status_and_headers (rt : Runtime) (host : Host)
    (request : Request.t) (env : Env) (w : World) :
  match fst (handleRequest host request env w) with
  | Fulfilled response =>
      (Response.status response = 200 \/ Response.status response = 400
       \/ Response.status response = 405)%N
      /\ In JSON_CONTENT_TYPE (Response.headers response)
      /\ (In CORS_ANY_ORIGIN (Response.headers response)
          <-> Response.status response = 200%N)
      /\ (Response.status response = 200%N
          <-> exists combined, Response.body response = SuccessBody combined)
  | Rejected e =>
      exists combined, JSON_stringify (CombinedResponse_value combined) 2 = Throw e
  | Pending => True
  end.
Proof.
  pose proof (handleRequest_answer host request env w) as H.
  destruct (fst (handleRequest host request env w)) as [response|e|]; auto.
  destruct H as [[status [message [details [stamp [-> Hs]]]]]|[combined ->]];
    cbn [Response.status Response.headers Response.body error_response].
  - split; [tauto|]. split; [left; reflexivity|]. split; split.
    + intros [H|[]]. vm_compute in H. discriminate.
    + intros ->. destruct Hs; discriminate.
    + intros ->. destruct Hs; discriminate.
    + intros [combined H]. discriminate.
  - split; [tauto|]. split; [left; reflexivity|]. split; split; eauto.
    intros _. right. left. reflexivity.
Qed.

Section CredentialFacts.
Context {rt : Runtime}.
Variable host : Host.



Lemma dispatched_outcomes (P : ProviderId -> LLMResponse -> Prop) chosen outcomes :
  Forall2 (fun p out => provider out = provider_name p /\ P p out) chosen outcomes ->
  map provider outcomes = map provider_name chosen
  /\ Forall (fun out => exists p, P p out) outcomes.
Proof.
  induction 1 as [|p out chosen outcomes [Hn HP] _ [IHn IHP]]; cbn.
  - split; constructor.
  - split; [congruence | constructor; eauto].
Qed.

Lemma flat_map_request_to_length (query schema : JSValue) (keys : ApiKeys.t) chosen :
  length (flat_map (request_to query schema keys) chosen) <= length chosen.
Proof.
  induction chosen as [|p chosen IH]; cbn [flat_map length]; [lia|].
  rewrite length_app. pose proof (request_to_at_most_one query schema keys p). lia.
Qed.

Lemma flat_map_request_to_strings (query schema : JSValue) (keys : ApiKeys.t) chosen :
  (forall p, In p chosen -> exists key, resolved_credential keys p = JString key) ->
  Forall2
    (fun p req =>
       exists key, resolved_credential keys p = JString key
                   /\ req = provider_request p query schema key)
    (filter (fun p => serialisable (request_body p query schema)) chosen)
    (flat_map (request_to query schema keys) chosen).
Proof.
  induction chosen as [|p chosen IH]; intros H; cbn [flat_map filter]; [constructor|].
  destruct (H p (or_introl eq_refl)) as [key Hkey].
  rewrite (request_to_string_key query schema keys p Hkey). unfold serialisable at 1.
  assert (Hrest : forall p', In p' chosen ->
                    exists key', resolved_credential keys p' = JString key')
    by (intros p' Hin; apply H; right; exact Hin).
  destruct (JSON_stringify (request_body p query schema) 0); cbn [app].
  - constructor; [eauto | auto].
  - auto.
Qed.

End CredentialFacts.



(** X18. For every request, environment and network: whatever the
    handler sends is at most four requests, each a POST with a JSON
    content type to the configured endpoint of one of the four providers
    (Gemini's followed by [?key=] and a key), with the body that
    provider's builder makes.  It never sends anything else. *)
Theorem handleRequest_sends_only_provider_requests (rt : Runtime) (host : Host)
    (request : Request.t) (env : Env) (w : World) :
  exists sent,
    requests (snd (handleRequest host request env w)) = requests w ++ sent
    /\ length sent <= 4
    /\ Forall
         (fun req =>
            FetchRequest.method req = js "POST"
            /\ In (js "Content-Type", JString (js "application/json"))
                 (FetchRequest.headers req)
            /\ exists p,
                 (exists query schema, FetchRequest.body req = request_body p query schema)
                 /\ match p with
                    | Gemini =>
                        exists key,
                          FetchRequest.url req
                          = LLMConfig.url (config p) ++ js "?key=" ++ key
                    | _ => FetchRequest.url req = LLMConfig.url (config p)
                    end)
         sent.
Proof.
  destruct (handleRequest_cases host request env w)
    as [[_ [stamp [w' [E [R _]]]]]
       |[[_ [e [stamp [w' [_ [E [R _]]]]]]]
        |[[_ [rd [m [stamp [w' [_ [_ [E [R _]]]]]]]]]
         |[Hm [rd [Hj Hv]]]]]];
    try (exists []; rewrite E; cbn [snd]; rewrite R, app_nil_r;
         split; [reflexivity|]; split; [cbn; lia | constructor]; fail).
  destruct (handleRequest_validated host request env w Hm Hj Hv)
    as [keys [q [_ [_ [Hreq _]]]]].
  eexists. split; [exact Hreq|]. split.
  - pose proof (flat_map_request_to_length (JString q) (effective_schema rd) keys
                  (available keys)).
    pose proof (available_at_most_four keys). lia.
  - apply Forall_forall. intros req Hin. apply in_flat_map in Hin.
    destruct Hin as [p [_ Hin]]. apply request_to_shape in Hin.
    destruct Hin as [Hmeth [Hct [Hbody Hurl]]].
    split; [exact Hmeth|]. split; [exact Hct|]. exists p. split; [eauto|].
    exact Hurl.
Qed.

(** X19. For a POST whose body validates and whose caller-supplied
    credentials are strings: the handler sends exactly one request per
    provider that has a truthy credential and whose request body
    [JSON.stringify] serialises, in registration order, and none for a
    provider whose body it throws on; the credential travels as a bearer
    token for OpenAI and Grok, in the [x-api-key] header (with
    [anthropic-version: 2023-06-01]) for Claude, and in the URL's [key]
    parameter for Gemini. *)
Theorem string_credentials_one_request_each (rt : Runtime) (host : Host)
    (request : Request.t) (env : Env) (requestData : JSValue) (w : World) :
  Request.method request = js "POST" ->
  Request.json request = Normal requestData ->
  succeeds requestData ->
  (forall p, truthy (caller_credential requestData p) = true ->
             exists key, caller_credential requestData p = JString key) ->
  exists keys q sent,
    resolveApiKeys requestData env = Normal keys
    /\ get requestData (js "query") = JString q
    /\ requests (snd (handleRequest host request env w)) = requests w ++ sent
    /\ Forall2
         (fun p req =>
            exists key,
              resolved_credential keys p = JString key
              /\ req = provider_request p (JString q) (effective_schema requestData) key)
         (filter
            (fun p =>
               serialisable (request_body p (JString q) (effective_schema requestData)))
            (available keys))
         sent.
Proof.
  intros Hm Hj Hv Hstrings.
  destruct (handleRequest_validated host request env w Hm Hj Hv)
    as [keys [q [Hkeys [Hq [Hreq _]]]]].
  exists keys, q. eexists. split; [exact Hkeys|]. split; [exact Hq|].
  split; [exact Hreq|].
  apply flat_map_request_to_strings. intros p Hin.
  unfold available in Hin. apply filter_In in Hin. destruct Hin as [_ Ht].
  rewrite (resolveApiKeys_rule _ _ Hkeys p) in *. unfold or_else in *.
  destruct (truthy (caller_credential requestData p)) eqn:Hc.
  - apply Hstrings. exact Hc.
  - destruct p; cbn [default_credential] in *;
      match goal with
      | H : truthy (binding ?k) = true |- _ =>
          destruct k; [eexists; reflexivity | discriminate]
      end.
Qed.

(** The sample request: the caller's Gemini key goes into the URL, the
    environment's OpenAI and Grok keys into bearer tokens. *)
Lemma string_credentials_one_request_each_witness :
  requests (snd (@handleRequest Sample.runtime Sample.host Sample.request
                   Sample.two_keys initial_world))
  = [provider_request OpenAI (JString (js "What is 2+2?")) DEFAULT_SCHEMA (js "sk-openai");
     provider_request Gemini (JString (js "What is 2+2?")) DEFAULT_SCHEMA
       (js "caller-gemini");
     provider_request Grok (JString (js "What is 2+2?")) DEFAULT_SCHEMA (js "xai-grok")].
Proof.
  assert (Hv : succeeds Sample.payload) by (eexists; reflexivity).
  assert (Hs : forall p, truthy (caller_credential Sample.payload p) = true ->
                 exists key, caller_credential Sample.payload p = JString key).
  { intros p. destruct p; intros H; try (vm_compute in H; discriminate).
    eexists; reflexivity. }
  destruct (@string_credentials_one_request_each Sample.runtime Sample.host
              Sample.request Sample.two_keys Sample.payload initial_world
              eq_refl eq_refl Hv Hs)
    as [keys [q [sent [Hkeys [Hq [Hreq Hall]]]]]].
  rewrite Hreq. cbn [requests initial_world app].
  vm_compute in Hkeys. injection Hkeys as <-.
  vm_compute in Hq. injection Hq as <-.
  repeat match goal with
         | H : Forall2 _ _ _ |- _ => vm_compute in H
         end.
  inversion Hall as [|p1 r1 l1 s1 [k1 [E1 ->]] Hall1]; subst.
  inversion Hall1 as [|p2 r2 l2 s2 [k2 [E2 ->]] Hall2]; subst.
  inversion Hall2 as [|p3 r3 l3 s3 [k3 [E3 ->]] Hall3]; subst.
  inversion Hall3; subst.
  injection E1 as <-. injection E2 as <-. injection E3 as <-.
  reflexivity.
Defined.

(** X20. In every combined response the handler returns, no provider
    has two outcomes, there are between one and four outcomes,
    [providersQueried] is their number, and the query echoed is the
    request's, a string that is not white space only.  The handler is
    rejected only with what [JSON.stringify] threw on a combined
    response. *)
Theorem outcomes_name_distinct_providers (rt : Runtime) (host : Host)
    (request : Request.t) (env : Env) (w : World) :
  match fst (handleRequest host request env w) with
  | Fulfilled response =>
      match Response.body response with
      | SuccessBody combined =>
          NoDup (map provider (CombinedResponse.responses combined))
          /\ 1 <= CombinedResponse.providersQueried combined <= 4
          /\ CombinedResponse.providersQueried combined
             = length (CombinedResponse.responses combined)
          /\ exists requestData q,
               Request.json request = Normal requestData
               /\ get requestData (js "query") = JString q
               /\ CombinedResponse.query combined = JString q
               /\ blank q = false
      | ErrorBody _ _ _ => True
      end
  | Rejected e =>
      exists combined, JSON_stringify (CombinedResponse_value combined) 2 = Throw e
  | Pending => True
  end.
Proof.
  destruct (handleRequest_cases host request env w)
    as [[_ [stamp [w' [E _]]]]
       |[[_ [e [stamp [w' [_ [E _]]]]]]
        |[[_ [rd [m [stamp [w' [_ [_ [E _]]]]]]]]
         |[Hm [rd [Hj Hv]]]]]];
    try (rewrite E; exact I).
  destruct (handleRequest_dispatch host request env w Hm Hj Hv)
    as [keys [q [Hkeys [Hq [Htrim Hout]]]]].
  destruct (fst (handleRequest host request env w)) as [response|e|];
    [| destruct Hout as [_ [stamp [finish [outcomes [Hs _]]]]]; eexists; exact Hs
     | exact I].
  destruct (available keys) as [|p0 chosen] eqn:Hav.
  - destruct Hout as [stamp ->]. exact I.
  - destruct Hout as [stamp [finish [outcomes [-> Hall]]]].
    cbn [Response.body CombinedResponse.responses CombinedResponse.providersQueried
         CombinedResponse.query].
    pose proof (Forall2_length Hall) as Hlen.
    apply dispatched_outcomes in Hall. destruct Hall as [Hnames _].
    pose proof (available_at_most_four keys) as Hfour. rewrite Hav in Hfour.
    split; [|split; [cbn [length] in *; lia | split; [reflexivity|]]].
    + rewrite Hnames, <- Hav. unfold available.
      apply NoDup_map_filter. apply provider_names_differ.
    + exists rd, q. split; [exact Hj|]. split; [exact Hq|]. split; [reflexivity|].
      destruct (blank q) eqn:Hb; [|reflexivity].
      apply trim_nil in Hb. contradiction.
Qed.

(** X21. Where the clock never runs backwards, every outcome of a
    combined response the handler returns has a latency between zero and
    the response's total latency: each invocation reads the clock after
    the handler took its start time and before it took its end time,
    whatever the order in which the invocations complete.  The handler
    is rejected only with what [JSON.stringify] threw on a combined
    response. *)
Theorem latencies_within_total_on_monotone_clock (rt : Runtime) (host : Host)
    (request : Request.t) (env : Env) (w : World) :
  monotone host ->
  match fst (handleRequest host request env w) with
  | Fulfilled response =>
      match Response.body response with
      | SuccessBody combined =>
          Forall (fun out =>
                    (0 <= latency out <= CombinedResponse.totalLatency combined)%Z)
            (CombinedResponse.responses combined)
      | ErrorBody _ _ _ => True
      end
  | Rejected e =>
      exists combined, JSON_stringify (CombinedResponse_value combined) 2 = Throw e
  | Pending => True
  end.
Proof.
  intros Hmono.
  destruct (handleRequest_cases host request env w)
    as [[_ [stamp [w' [E _]]]]
       |[[_ [e [stamp [w' [_ [E _]]]]]]
        |[[_ [rd [m [stamp [w' [_ [_ [E _]]]]]]]]
         |[Hm [rd [Hj Hv]]]]]];
    try (rewrite E; exact I).
  destruct (handleRequest_dispatch host request env w Hm Hj Hv)
    as [keys [q [_ [_ [_ Hout]]]]].
  destruct (fst (handleRequest host request env w)) as [response|e|];
    [| destruct Hout as [_ [stamp [finish [outcomes [Hs _]]]]]; eexists; exact Hs
     | exact I].
  destruct (available keys) as [|p0 chosen].
  - destruct Hout as [stamp ->]. exact I.
  - destruct Hout as [stamp [finish [outcomes [-> Hall]]]].
    cbn [Response.body CombinedResponse.responses CombinedResponse.totalLatency].
    apply dispatched_outcomes in Hall. destruct Hall as [_ Hall].
    eapply Forall_impl; [|exact Hall]. cbn beta.
    intros out [p [_ [n [m [Hn [Hnm [Hm' ->]]]]]]].
    pose proof (Hmono (ticks w) n). pose proof (Hmono n m). pose proof (Hmono m finish).
    lia.
Qed.

(** The sample request on a clock that advances ten milliseconds per
    reading, with the promises completing last-first. *)
Lemma latencies_within_total_on_monotone_clock_witness :
  monotone Sample.host
  /\ match fst (@handleRequest Sample.runtime Sample.host Sample.request
                  Sample.two_keys initial_world) with
     | Fulfilled response =>
         match Response.body response with
         | SuccessBody combined =>
             Forall (fun out =>
                       (0 <= latency out <= CombinedResponse.totalLatency combined)%Z)
               (CombinedResponse.responses combined)
         | ErrorBody _ _ _ => True
         end
     | Rejected e =>
         exists combined,
           @JSON_stringify Sample.runtime (@CombinedResponse_value Sample.runtime combined) 2
           = Throw e
     | Pending => True
     end.
Proof.
  assert (Hmono : monotone Sample.host) by (intros n m H; unfold Sample.host; cbn [clock]; lia).
  split; [exact Hmono|].
  exact (@latencies_within_total_on_monotone_clock Sample.runtime Sample.host
           Sample.request Sample.two_keys initial_world Hmono).
Defined.

(** X22. The worker's entry point is never rejected.  It answers what
    [handleRequest] answers, which is never a 500, and stays pending
    while [handleRequest] does.  Its [catch] is entered exactly when
    [handleRequest] is rejected, which happens only with what
    [JSON.stringify] threw on a combined response: then it sends
    nothing, writes two ERROR lines to [console.error], the first
    ["Unhandled error in worker"] with the message and the stack of the
    error, and answers 500 ["Internal server error"] with a JSON content
    type and no details. *)
Theorem fetch_answers_500_when_handleRequest_is_rejected (rt : Runtime) (host : Host)
    (Error_stack : jsstring -> jsstring -> jsstring)
    (request : Request.t) (env : Env) (ctx : ExecutionContext) (w : World) :
  match handleRequest host request env w with
  | (Fulfilled response, w') =>
      ExportedHandler.fetch host Error_stack request env ctx w = (Fulfilled response, w')
      /\ Response.status response <> 500%N
  | (Rejected e, w') =>
      (exists combined, JSON_stringify (CombinedResponse_value combined) 2 = Throw e)
      /\ exists stamp w'' unhandled reported,
           ExportedHandler.fetch host Error_stack request env ctx w
           = (Fulfilled (error_response 500 (js "Internal server error") None stamp), w'')
           /\ requests w'' = requests w'
           /\ console w''
              = console w' ++ [(console_error, unhandled); (console_error, reported)]
           /\ LogEntry.level unhandled = ERROR
           /\ LogEntry.message unhandled = js "Unhandled error in worker"
           /\ LogEntry.context unhandled
              = Some (JObject [
                  (js "error",
                   JString (match e with
                            | ErrorInstance _ message => message
                            | NotAnError _ => js "Unknown error"
                            end));
                  (js "stack",
                   match e with
                   | ErrorInstance name message => JString (Error_stack name message)
                   | NotAnError _ => JUndefined
                   end)])
           /\ LogEntry.level reported = ERROR
           /\ LogEntry.message reported = js "Internal server error"
  | (Pending, w') =>
      ExportedHandler.fetch host Error_stack request env ctx w = (Pending, w')
  end.
Proof.
  pose proof (handleRequest_answer host request env w) as H.
  unfold ExportedHandler.fetch, LoopOps.try_or_return, LoopOps.ret.
  destruct (handleRequest host request env w) as [[response|e|] w'];
    cbn [fst] in H; [| |reflexivity].
  - split; [reflexivity|].
    destruct H as [[status [message [details [stamp [-> Hs]]]]]|[combined ->]];
      cbn [Response.status error_response]; [destruct Hs; subst|]; discriminate.
  - split; [exact H|].
    unfold LoopOps.bind, logError. rewrite perform_log_world.
    match goal with
    | |- context [LoopOps.perform host (createErrorResponse ?s ?m ?d) ?w0] =>
        destruct (perform_error_response host s m d w0)
          as [stamp [logged [E [Hl [Hm _]]]]]; rewrite E
    end.
    cbn [ticks console requests truthy].
    do 4 eexists. split; [reflexivity|]. cbn [requests console].
    split; [reflexivity|]. split; [rewrite <- app_assoc; reflexivity|].
    cbn [LogEntry.level LogEntry.message LogEntry.context].
    split; [reflexivity|]. split; [reflexivity|].
    split; [destruct e; reflexivity|]. split; [exact Hl | exact Hm].
Qed.

(* ====================================================================== *)
(** * What is written to the console                                       *)
(* ====================================================================== *)

Section LoggingFacts.
Context {rt : Runtime}.
Variable host : Host.

Lemma buildLLMPromises_none (query schema : JSValue) (keys : ApiKeys.t) w :
  available keys = [] ->
  buildLLMPromises host query schema keys w = (Fulfilled [], w).
Proof.
  unfold available, registration_order. cbn [filter resolved_credential].
  unfold buildLLMPromises, LoopOps.bind, LoopOps.ret.
  destruct (truthy (ApiKeys.openai keys)); [discriminate|].
  destruct (truthy (ApiKeys.anthropic keys)); [discriminate|].
  destruct (truthy (ApiKeys.gemini keys)); [discriminate|].
  destruct (truthy (ApiKeys.grok keys)); [discriminate|].
  reflexivity.
Qed.

(** A POST that validates but has no credential: the answer, and what
    was logged. *)
Lemma handleRequest_no_keys (request : Request.t) (env : Env)
    (requestData : JSValue) (keys : ApiKeys.t) (w : World) :
  Request.method request = js "POST" ->
  Request.json request = Normal requestData ->
  succeeds requestData ->
  resolveApiKeys requestData env = Normal keys ->
  available keys = [] ->
  exists stamp w',
    handleRequest host request env w
    = (Fulfilled (error_response 400 NO_API_KEYS None stamp), w')
    /\ requests w' = requests w
    /\ logged_error request w w' 400 NO_API_KEYS None.
Proof.
  intros Hm Hj [v Hv] Hkeys Hav.
  destruct (validateRequest_cases requestData)
    as [[_ E]|[[_ [_ E]]|[[_ [_ E]]|[Hobj [[q [Hq _]] Hval]]]]];
    try (rewrite E in Hv; discriminate).
  clear v Hv.
  assert (Hnn : nullish requestData = false) by (apply is_object_not_nullish; assumption).
  remember (handleRequest host request env w) as result eqn:E.
  unfold handleRequest in E.
  unfold LoopOps.bind at 1 in E. rewrite perform_Date_now in E.
  unfold LoopOps.bind at 1 in E. unfold logInfo in E.
  rewrite perform_log_world in E. cbn [ticks console requests truthy] in E.
  rewrite Hm, String_eqb_refl in E. cbn [negb] in E.
  unfold LoopOps.try_or_return at 1 in E. rewrite Hj in E. cbn [LoopOps.lift] in E.
  unfold LoopOps.bind at 1 in E. rewrite Hval in E. cbn [LoopOps.lift] in E.
  unfold LoopOps.bind at 1 in E. unfold member at 1 in E. rewrite Hnn in E.
  cbn [LoopOps.lift] in E.
  unfold LoopOps.bind at 1 in E. rewrite Hkeys in E. cbn [LoopOps.lift] in E.
  unfold LoopOps.bind at 1 in E. unfold member at 1 in E. rewrite Hnn, Hq in E.
  cbn [LoopOps.lift] in E.
  unfold LoopOps.bind at 1 in E.
  rewrite (buildLLMPromises_none _ _ keys _ Hav) in E. cbn [length Nat.eqb] in E.
  match type of E with
    context [LoopOps.perform host (createErrorResponse ?s ?m ?d) ?w0] =>
    destruct (perform_error_response host s m d w0)
      as [stamp [logged [E2 [Hl [Hmsg Hc]]]]];
    rewrite E2 in E; cbn [ticks console requests] in E end.
  rewrite E. do 2 eexists. split; [reflexivity|]. cbn [requests].
  split; [reflexivity|].
  do 2 eexists. cbn [console]. split; [rewrite <- app_assoc; reflexivity|].
  split; [reflexivity|]. split; [reflexivity|].
  split; [cbn [LogEntry.context]; rewrite Hm; reflexivity|].
  split; [exact Hl|]. split; [exact Hmsg | exact Hc].
Qed.

End LoggingFacts.

(** X23. Whenever the handler answers with an error (405, or 400 for a
    body that is not JSON, fails validation, or comes with no API key),
    it has sent nothing to any provider and has written exactly two
    lines to the console: an INFO line ["Received request"] with the
    request's method and URL on [console.log], and an ERROR line on
    [console.error] carrying the error message of the answer, its status
    and its details.  The handler is rejected only with what
    [JSON.stringify] threw on a combined response. *)
Theorem error_answers_are_logged (rt : Runtime) (host : Host)
    (request : Request.t) (env : Env) (w : World) :
  match handleRequest host request env w with
  | (Fulfilled response, w') =>
      match Response.body response with
      | ErrorBody message details _ =>
          logged_error request w w' (Response.status response) message details
          /\ requests w' = requests w
      | SuccessBody _ => True
      end
  | (Rejected e, _) =>
      exists combined, JSON_stringify (CombinedResponse_value combined) 2 = Throw e
  | (Pending, _) => True
  end.
Proof.
  destruct (handleRequest_cases host request env w)
    as [[_ [stamp [w' [E [R L]]]]]
       |[[_ [e [stamp [w' [_ [E [R L]]]]]]]
        |[[_ [rd [m [stamp [w' [_ [_ [E [R L]]]]]]]]]
         |[Hm [rd [Hj Hv]]]]]];
    try (rewrite E; cbn [Response.body Response.status error_response]; auto; fail).
  destruct (handleRequest_dispatch host request env w Hm Hj Hv)
    as [keys [q [Hkeys [_ [_ Hout]]]]].
  destruct (available keys) as [|p0 chosen] eqn:Hav.
  - destruct (handleRequest_no_keys host request env w Hm Hj Hv Hkeys Hav)
      as [stamp [w' [E [R L]]]].
    rewrite E. cbn [Response.body Response.status error_response]. auto.
  - destruct (handleRequest host request env w) as [[response|e|] w'];
      cbn [fst] in Hout; [| |exact I].
    + destruct Hout as [stamp [finish [outcomes [-> _]]]]. exact I.
    + destruct Hout as [_ [stamp [finish [outcomes [Hs _]]]]]. eexists. exact Hs.
Qed.

(** X24. Every invocation writes exactly two lines to the console,
    whatever the adapter and the network do: first an INFO line
    ["Querying <provider>"] whose context holds the first 100 code units
    of the query and nothing else, then one line for the result: INFO
    ["<provider> query successful"] exactly when the outcome is a
    success, otherwise a WARN line (HTTP error status) or an ERROR line.
    Each line goes to the console method of its level. *)
Theorem invoker_logs_start_and_result (rt : Runtime) (host : Host)
    (name url : jsstring)
    (buildHeaders : JSValue -> Completion (list (jsstring * JSValue)))
    (buildBody : JSValue -> JSValue -> Completion JSValue)
    (parseResponse : JSValue -> Completion (Result JSValue jsstring))
    (urlModifier : option (jsstring -> JSValue -> Completion jsstring))
    (q : jsstring) (schema apiKey : JSValue) (w : World) :
  exists out w' started method reported,
    LoopOps.run host
      (createLLMQueryFunction name url buildHeaders buildBody parseResponse
         urlModifier (JString q) schema apiKey) w = (Normal out, w')
    /\ console w' = console w ++ [(console_log, started); (method, reported)]
    /\ LogEntry.level started = INFO
    /\ LogEntry.message started = js "Querying " ++ name
    /\ LogEntry.context started = Some (JObject [(js "query", JString (firstn 100 q))])
    /\ ((success out = true /\ method = console_log
         /\ LogEntry.level reported = INFO
         /\ LogEntry.message reported = name ++ js " query successful")
        \/ (success out = false /\ method = console_warn
            /\ LogEntry.level reported = WARN)
        \/ (success out = false /\ method = console_error
            /\ LogEntry.level reported = ERROR)).
Proof.
  unfold createLLMQueryFunction, logInfo, logWarn, logError, log,
    createLogEntry, getCurrentTimestamp, logToConsole, safeJsonParse, JSON_parse_any,
    AsyncOps.fetch, AsyncOps.Response_text, AsyncOps.Date_now.
  cbn [AsyncOps.bind String_substring0 AsyncOps.lift LoopOps.run LoopOps.read_clock
       AsyncOps.try_catch LoopOps.write_console ToString bind].
  assert (Hdone : forall out ticks' stamp stamp' method level message context reqs,
            (success out = true /\ method = console_log /\ level = INFO
             /\ message = name ++ js " query successful")
            \/ (success out = false /\ method = console_warn /\ level = WARN)
            \/ (success out = false /\ method = console_error /\ level = ERROR) ->
            exists out0 w' started method0 reported,
              (Normal out,
               {| ticks := ticks';
                  console :=
                    (console w
                     ++ [(console_log,
                          {| LogEntry.level := INFO;
                             LogEntry.timestamp := stamp;
                             LogEntry.message := js "Querying " ++ name;
                             LogEntry.context :=
                               Some (JObject [(js "query", JString (substring0 100 q))]) |})])
                    ++ [(method,
                         {| LogEntry.level := level;
                            LogEntry.timestamp := stamp';
                            LogEntry.message := message;
                            LogEntry.context := context |})];
                  requests := reqs |}) = (Normal out0, w')
              /\ console w' = console w ++ [(console_log, started); (method0, reported)]
              /\ LogEntry.level started = INFO
              /\ LogEntry.message started = js "Querying " ++ name
              /\ LogEntry.context started
                 = Some (JObject [(js "query", JString (firstn 100 q))])
              /\ ((success out0 = true /\ method0 = console_log
                   /\ LogEntry.level reported = INFO
                   /\ LogEntry.message reported = name ++ js " query successful")
                  \/ (success out0 = false /\ method0 = console_warn
                      /\ LogEntry.level reported = WARN)
                  \/ (success out0 = false /\ method0 = console_error
                      /\ LogEntry.level reported = ERROR))).
  { intros out ticks' stamp stamp' method level message context reqs H.
    do 5 eexists. split; [reflexivity|]. cbn [console].
    split; [rewrite <- app_assoc; reflexivity|].
    cbn [LogEntry.level LogEntry.message LogEntry.context].
    split; [reflexivity|]. split; [reflexivity|]. split; [reflexivity|]. exact H. }
  destruct (match urlModifier with
            | Some modify => modify url apiKey
            | None => Normal url
            end) as [finalUrl|e1];
    [destruct (buildHeaders apiKey) as [headers|e2];
     [destruct (buildBody (JString q) schema) as [body|e3];
      [cbn [AsyncOps.bind AsyncOps.lift AsyncOps.try_catch bind];
       destruct (JSON_stringify body 0) as [text|e4]|]|]|];
    cbn [AsyncOps.bind AsyncOps.lift AsyncOps.try_catch LoopOps.run LoopOps.read_clock
         LoopOps.write_console LoopOps.send ticks console requests bind];
    try (apply Hdone; cbn; auto 6; fail).
  destruct (network host _) as [response|e];
    cbn [AsyncOps.bind AsyncOps.lift AsyncOps.try_catch LoopOps.run LoopOps.read_clock
         LoopOps.write_console LoopOps.send ticks console requests];
    [|apply Hdone; cbn; auto 6].
  destruct (FetchResponse.text response) as [responseText|e];
    cbn [AsyncOps.bind AsyncOps.lift AsyncOps.try_catch LoopOps.run LoopOps.read_clock
         LoopOps.write_console LoopOps.send ticks console requests];
    [|apply Hdone; cbn; auto 6].
  destruct (FetchResponse.ok response); cbn [negb];
    cbn [AsyncOps.bind AsyncOps.lift AsyncOps.try_catch LoopOps.run LoopOps.read_clock
         LoopOps.write_console LoopOps.send ticks console requests];
    [|apply Hdone; cbn; auto 6].
  destruct (JSON_parse responseText) as [parsed|message];
    cbn [AsyncOps.bind AsyncOps.lift AsyncOps.try_catch LoopOps.run LoopOps.read_clock
         LoopOps.write_console LoopOps.send ticks console requests try_catch bind
         message_or];
    [|apply Hdone; cbn; auto 6].
  destruct (parseResponse parsed) as [[value|message]|e];
    cbn [AsyncOps.bind AsyncOps.lift AsyncOps.try_catch LoopOps.run LoopOps.read_clock
         LoopOps.write_console LoopOps.send ticks console requests try_catch bind
         message_or];
    (apply Hdone; cbn; auto 6).
Qed.

(** X25. The dispatcher sends the request of every provider it invokes
    (none for an invocation whose URL, headers or serialised body cannot
    be prepared) before it returns, that is, before the handler awaits
    any answer;
    awaiting the promises with [Promise.all] sends nothing more, in
    whatever order they complete.  No provider's request waits for
    another provider's answer. *)
Theorem requests_are_sent_before_any_answer (rt : Runtime) (host : Host)
    (q : jsstring) (schema : JSValue) (keys : ApiKeys.t) (w : World) :
  exists promises w',
    buildLLMPromises host (JString q) schema keys w = (Fulfilled promises, w')
    /\ length promises = length (available keys)
    /\ requests w'
       = requests w ++ flat_map (request_to (JString q) schema keys) (available keys)
    /\ forall order w0,
         requests (snd (LoopOps.join host order promises w0)) = requests w0.
Proof.
  destruct (buildLLMPromises_dispatched host q schema keys w)
    as [ps [w' [E [Hfl [_ [Hq Hr]]]]]].
  exists ps, w'. split; [exact E|]. split.
  - apply Forall2_length in Hfl. rewrite length_map in Hfl. auto.
  - split; [exact Hr|]. intros order w0. apply join_silent. exact Hq.
Qed.

(* ====================================================================== *)
(** * Outcomes and scheduling                                              *)
(* ====================================================================== *)

Section VerdictFacts.
Context {rt : Runtime}.

Ltac follow_step :=
  first [ apply Follows_now; intro
        | apply Follows_console
        | apply Follows_return; unfold verdict; cbn [provider success data error];
          reflexivity
        | progress cbn [AsyncOps.bind AsyncOps.lift AsyncOps.try_catch negb
                        try_catch bind message_or] ].

(** What an invocation reports, its latency apart, is fixed by the
    answers of the network: it depends neither on the clock nor on when
    the invocation gets its turns. *)
Lemma createLLMQueryFunction_verdict (net : FetchRequest.t -> Completion FetchResponse.t)
    name url buildHeaders buildBody parseResponse urlModifier
    (q : jsstring) (schema apiKey : JSValue) :
  exists V,
    forall host, (forall req, network host req = net req) ->
    forall rs,
      Follows host (fun _ out => verdict out = V) rs
        (createLLMQueryFunction name url buildHeaders buildBody parseResponse
           urlModifier (JString q) schema apiKey).
Proof.
  unfold createLLMQueryFunction, logInfo, logWarn, logError, log,
    createLogEntry, getCurrentTimestamp, logToConsole, safeJsonParse, JSON_parse_any,
    AsyncOps.fetch, AsyncOps.Response_text, AsyncOps.Date_now.
  cbn [AsyncOps.bind String_substring0 AsyncOps.lift AsyncOps.try_catch ToString bind].
  destruct (match urlModifier with
            | Some modify => modify url apiKey
            | None => Normal url
            end) as [finalUrl|e1];
    [destruct (buildHeaders apiKey) as [headers|e2];
     [destruct (buildBody (JString q) schema) as [body|e3];
      [cbn [AsyncOps.bind AsyncOps.lift AsyncOps.try_catch bind];
       destruct (JSON_stringify body 0) as [text|e4]|]|]|];
    try (eexists; intros host Hnet rs; repeat follow_step; fail).
  destruct (net {| FetchRequest.url := finalUrl;
                   FetchRequest.method := js "POST";
                   FetchRequest.headers := headers;
                   FetchRequest.body := body |}) as [response|e] eqn:Enet.
  2: { eexists; intros host Hnet rs. repeat follow_step.
       apply Follows_fetch. rewrite Hnet, Enet. repeat follow_step. }
  destruct (FetchResponse.text response) as [responseText|e] eqn:Etext.
  2: { eexists; intros host Hnet rs. repeat follow_step.
       apply Follows_fetch. rewrite Hnet, Enet. repeat follow_step.
       apply Follows_text. rewrite Etext. repeat follow_step. }
  destruct (FetchResponse.ok response) eqn:Eok.
  2: { eexists; intros host Hnet rs. repeat follow_step.
       apply Follows_fetch. rewrite Hnet, Enet. repeat follow_step.
       apply Follows_text. rewrite Etext. repeat follow_step.
       rewrite Eok. repeat follow_step. }
  destruct (JSON_parse responseText) as [parsed|message] eqn:Ejson.
  2: { eexists; intros host Hnet rs. repeat follow_step.
       apply Follows_fetch. rewrite Hnet, Enet. repeat follow_step.
       apply Follows_text. rewrite Etext. repeat follow_step.
       rewrite Eok. repeat follow_step. rewrite Ejson. repeat follow_step. }
  destruct (parseResponse parsed) as [[value|message]|e] eqn:Epr;
    (eexists; intros host Hnet rs; repeat follow_step;
     apply Follows_fetch; rewrite Hnet, Enet; repeat follow_step;
     apply Follows_text; rewrite Etext; repeat follow_step;
     rewrite Eok; repeat follow_step; rewrite Ejson; repeat follow_step;
     rewrite Epr; repeat follow_step).
Qed.

Lemma query_function_verdict (net : FetchRequest.t -> Completion FetchResponse.t)
    (q : jsstring) (schema : JSValue) (keys : ApiKeys.t) :
  exists V : ProviderId -> jsstring * bool * option JSValue * option jsstring,
    forall p host, (forall req, network host req = net req) ->
    forall rs,
      Follows host (fun _ out => verdict out = V p) rs
        (query_function p (JString q) schema (resolved_credential keys p)).
Proof.
  destruct (createLLMQueryFunction_verdict net
              (LLMConfig.name LLM_CONFIGS.openai) (LLMConfig.url LLM_CONFIGS.openai)
              bearer_headers
              (fun query schema => Normal (buildOpenAIRequestBody query schema))
              parseOpenAIResponse None q schema (resolved_credential keys OpenAI))
    as [V1 H1].
  destruct (createLLMQueryFunction_verdict net
              (LLMConfig.name LLM_CONFIGS.anthropic) (LLMConfig.url LLM_CONFIGS.anthropic)
              claude_headers
              (fun query schema => Normal (buildClaudeRequestBody query schema))
              parseClaudeResponse None q schema (resolved_credential keys Anthropic))
    as [V2 H2].
  destruct (createLLMQueryFunction_verdict net
              (LLMConfig.name LLM_CONFIGS.gemini) (LLMConfig.url LLM_CONFIGS.gemini)
              gemini_headers
              (fun query schema => Normal (buildGeminiRequestBody query schema))
              parseGeminiResponse (Some gemini_url) q schema
              (resolved_credential keys Gemini))
    as [V3 H3].
  destruct (createLLMQueryFunction_verdict net
              (LLMConfig.name LLM_CONFIGS.grok) (LLMConfig.url LLM_CONFIGS.grok)
              bearer_headers
              (fun query schema => Normal (buildGrokRequestBody query schema))
              parseGrokResponse None q schema (resolved_credential keys Grok))
    as [V4 H4].
  exists (fun p => match p with
                   | OpenAI => V1 | Anthropic => V2 | Gemini => V3 | Grok => V4
                   end).
  intros p. destruct p; assumption.
Qed.

Lemma validated_parts (requestData : JSValue) (env : Env) :
  succeeds requestData ->
  exists keys q,
    resolveApiKeys requestData env = Normal keys
    /\ get requestData (js "query") = JString q.
Proof.
  intros [v Hv].
  destruct (validateRequest_cases requestData)
    as [[_ E]|[[_ [_ E]]|[[_ [_ E]]|[Hobj [[q [Hq Htrim]] _]]]]];
    try (rewrite E in Hv; discriminate).
  unfold resolveApiKeys, member. rewrite (is_object_not_nullish _ Hobj). cbn [bind].
  eauto.
Qed.

Lemma Forall2_verdicts (V : ProviderId -> jsstring * bool * option JSValue * option jsstring)
    (P : ProviderId -> list Z -> Prop) chosen outcomes :
  Forall2 (fun p out => exists rs : list Z, verdict out = V p /\ P p rs) chosen outcomes ->
  map verdict outcomes = map V chosen.
Proof.
  induction 1 as [|p out chosen outcomes [rs [Hv _]] _ IH]; cbn; congruence.
Qed.

End VerdictFacts.

(** X26. For a POST whose body validates: each outcome of the combined
    response is, its latency apart, what its provider's invocation
    reports when it is run on its own, to completion, from any state.
    Running the invocations concurrently changes no outcome.  This holds
    of the response the handler returns and, when the handler is
    rejected, of the combined response [JSON.stringify] threw on. *)
Theorem outcomes_are_the_invocations_own (rt : Runtime) (host : Host)
    (request : Request.t) (env : Env) (requestData : JSValue) (w : World) :
  Request.method request = js "POST" ->
  Request.json request = Normal requestData ->
  succeeds requestData ->
  exists keys q,
    resolveApiKeys requestData env = Normal keys
    /\ get requestData (js "query") = JString q
    /\ match fst (handleRequest host request env w) with
       | Fulfilled response =>
           match Response.body response with
           | SuccessBody combined =>
               Forall2
                 (fun p out =>
                    forall w0, exists alone w1,
                      LoopOps.run host
                        (query_function p (JString q) (effective_schema requestData)
                           (resolved_credential keys p)) w0 = (Normal alone, w1)
                      /\ verdict out = verdict alone)
                 (available keys) (CombinedResponse.responses combined)
           | ErrorBody _ _ _ => available keys = []
           end
       | Rejected e =>
           exists combined,
             JSON_stringify (CombinedResponse_value combined) 2 = Throw e
             /\ Forall2
                  (fun p out =>
                     forall w0, exists alone w1,
                       LoopOps.run host
                         (query_function p (JString q) (effective_schema requestData)
                            (resolved_credential keys p)) w0 = (Normal alone, w1)
                       /\ verdict out = verdict alone)
                  (available keys) (CombinedResponse.responses combined)
       | Pending => True
       end.
Proof.
  intros Hm Hj Hv.
  destruct (validated_parts env Hv) as [keys [q [Hkeys Hq]]].
  exists keys, q. split; [exact Hkeys|]. split; [exact Hq|].
  destruct (query_function_verdict (network host) q (effective_schema requestData) keys)
    as [V HV].
  pose proof (@handleRequest_follows rt host (fun p _ out => verdict out = V p)
                request env requestData w keys q Hm Hj Hv Hkeys Hq
                (fun p => HV p host (fun req => eq_refl) [])) as H.
  assert (Hown : forall finish outcomes,
            Forall2
              (fun p out =>
                 exists rs, verdict out = V p
                            /\ read_between host (S (ticks w)) finish rs)
              (available keys) outcomes ->
            Forall2
              (fun p out =>
                 forall w0, exists alone w1,
                   LoopOps.run host
                     (query_function p (JString q) (effective_schema requestData)
                        (resolved_credential keys p)) w0 = (Normal alone, w1)
                   /\ verdict out = verdict alone)
              (available keys) outcomes).
  { intros finish outcomes Hall. eapply Forall2_impl; [|exact Hall]. cbn beta.
    intros p out [rs [Hout _]] w0.
    destruct (@run_Follows host LLMResponse (fun out => verdict out = V p) [] _
                (HV p host (fun req => eq_refl) []) w0)
      as [alone [w1 [Hrun Halone]]].
    exists alone, w1. split; [exact Hrun | congruence]. }
  destruct (fst (handleRequest host request env w)) as [response|e|]; [| |exact I].
  - destruct (available keys) as [|p0 chosen].
    + destruct H as [stamp ->]. reflexivity.
    + destruct H as [stamp [finish [outcomes [-> Hall]]]].
      cbn [Response.body CombinedResponse.responses]. eauto.
  - destruct H as [_ [stamp [finish [outcomes [Hs Hall]]]]].
    eexists. split; [exact Hs|]. cbn [CombinedResponse.responses]. eauto.
Qed.

(** The sample request, whose three invocations complete last-first. *)
Lemma outcomes_are_the_invocations_own_witness :
  Request.method Sample.request = js "POST"
  /\ Request.json Sample.request = Normal Sample.payload
  /\ succeeds Sample.payload
  /\ exists keys q,
       resolveApiKeys Sample.payload Sample.two_keys = Normal keys
       /\ get Sample.payload (js "query") = JString q
       /\ match fst (@handleRequest Sample.runtime Sample.host Sample.request
                       Sample.two_keys initial_world) with
          | Fulfilled response =>
              match Response.body response with
              | SuccessBody combined =>
                  Forall2
                    (fun p out =>
                       forall w0, exists alone w1,
                         LoopOps.run Sample.host
                           (@query_function Sample.runtime p (JString q)
                              (effective_schema Sample.payload)
                              (resolved_credential keys p)) w0 = (Normal alone, w1)
                         /\ verdict out = verdict alone)
                    (available keys) (CombinedResponse.responses combined)
              | ErrorBody _ _ _ => available keys = []
              end
          | Rejected e =>
              exists combined,
                @JSON_stringify Sample.runtime
                  (@CombinedResponse_value Sample.runtime combined) 2 = Throw e
                /\ Forall2
                     (fun p out =>
                        forall w0, exists alone w1,
                          LoopOps.run Sample.host
                            (@query_function Sample.runtime p (JString q)
                               (effective_schema Sample.payload)
                               (resolved_credential keys p)) w0 = (Normal alone, w1)
                          /\ verdict out = verdict alone)
                     (available keys) (CombinedResponse.responses combined)
          | Pending => True
          end.
Proof.
  assert (Hv : succeeds Sample.payload) by (eexists; reflexivity).
  split; [reflexivity|]. split; [reflexivity|]. split; [exact Hv|].
  exact (@outcomes_are_the_invocations_own Sample.runtime Sample.host Sample.request
           Sample.two_keys Sample.payload initial_world eq_refl eq_refl Hv).
Defined.

(** X27. What the handler answers is fixed by the request, the
    environment and the answers of the providers: two runs that differ
    in the clock, in the order in which the invocations complete and in
    what happened before give the same status and headers, the same
    error and details, or the same query and the same outcomes in the
    same order; only latencies and timestamps can differ.  When one run
    is rejected ([JSON.stringify] threw on its combined response, which
    holds its latencies and timestamp), the other, if it answers, answers
    200. *)
Theorem answers_do_not_depend_on_scheduling (rt : Runtime) (host host' : Host)
    (request : Request.t) (env : Env) (w w' : World) :
  (forall req, network host req = network host' req) ->
  match fst (handleRequest host request env w),
        fst (handleRequest host' request env w') with
  | Fulfilled response, Fulfilled response' =>
      Response.status response = Response.status response'
      /\ Response.headers response = Response.headers response'
      /\ match Response.body response, Response.body response' with
         | SuccessBody combined, SuccessBody combined' =>
             CombinedResponse.query combined = CombinedResponse.query combined'
             /\ map verdict (CombinedResponse.responses combined)
                = map verdict (CombinedResponse.responses combined')
             /\ CombinedResponse.providersQueried combined
                = CombinedResponse.providersQueried combined'
         | ErrorBody message details _, ErrorBody message' details' _ =>
             message = message' /\ details = details'
         | _, _ => False
         end
  | Fulfilled response, Rejected _ => Response.status response = 200%N
  | Rejected _, Fulfilled response' => Response.status response' = 200%N
  | _, _ => True
  end.
Proof.
  intros Hnet.
  destruct (handleRequest_cases host request env w)
    as [[Hm [stamp [w1 [E _]]]]
       |[[Hm [e [stamp [w1 [Hj [E _]]]]]]
        |[[Hm [rd [m [stamp [w1 [Hj [Hv [E _]]]]]]]]
         |[Hm [rd [Hj Hv]]]]]];
    destruct (handleRequest_cases host' request env w')
      as [[Hm' [stamp' [w1' [E' _]]]]
         |[[Hm' [e' [stamp' [w1' [Hj' [E' _]]]]]]
          |[[Hm' [rd' [m' [stamp' [w1' [Hj' [Hv' [E' _]]]]]]]]
           |[Hm' [rd' [Hj' Hv']]]]]];
    try contradiction; try congruence;
    try (rewrite E, E'; cbn [fst Response.status Response.headers Response.body
                             error_response]).
  - auto.
  - rewrite Hj in Hj'. injection Hj' as <-. auto.
  - rewrite Hj in Hj'. injection Hj' as <-. rewrite Hv in Hv'. injection Hv' as <-.
    auto.
  - rewrite Hj in Hj'. injection Hj' as <-. destruct Hv' as [v Hv']. congruence.
  - rewrite Hj in Hj'. injection Hj' as <-. destruct Hv as [v Hv]. congruence.
  - rewrite Hj in Hj'. injection Hj' as <-. clear Hm' Hv'.
    destruct (validated_parts env Hv) as [keys [q [Hkeys Hq]]].
    destruct (query_function_verdict (network host') q (effective_schema rd) keys)
      as [V HV].
    pose proof (@handleRequest_follows rt host (fun p _ out => verdict out = V p)
                  request env rd w keys q Hm Hj Hv Hkeys Hq
                  (fun p => HV p host Hnet [])) as H.
    pose proof (@handleRequest_follows rt host' (fun p _ out => verdict out = V p)
                  request env rd w' keys q Hm Hj Hv Hkeys Hq
                  (fun p => HV p host' (fun req => eq_refl) [])) as H'.
    destruct (fst (handleRequest host request env w)) as [response|e|];
      destruct (fst (handleRequest host' request env w')) as [response'|e'|];
      try exact I.
    + destruct (available keys) as [|p0 chosen].
      * destruct H as [stamp ->]. destruct H' as [stamp' ->]. cbn. auto.
      * destruct H as [stamp [finish [outcomes [-> Hall]]]].
        destruct H' as [stamp' [finish' [outcomes' [-> Hall']]]].
        cbn [Response.status Response.headers Response.body CombinedResponse.query
             CombinedResponse.responses CombinedResponse.providersQueried].
        apply Forall2_verdicts in Hall. apply Forall2_verdicts in Hall'.
        split; [reflexivity|]. split; [reflexivity|]. split; [reflexivity|].
        split; [congruence|].
        apply (f_equal (@length _)) in Hall. apply (f_equal (@length _)) in Hall'.
        rewrite !length_map in *. congruence.
    + destruct H' as [Hav _]. destruct (available keys) as [|p0 chosen];
        [contradiction|].
      destruct H as [stamp [finish [outcomes [-> _]]]]. reflexivity.
    + destruct H as [Hav _]. destruct (available keys) as [|p0 chosen];
        [contradiction|].
      destruct H' as [stamp [finish [outcomes [-> _]]]]. reflexivity.
Qed.

(** The sample request on two hosts with the same network, different
    clocks and different completion orders. *)
Lemma answers_do_not_depend_on_scheduling_witness :
  (forall req, network Sample.host req = network Cases.other_host req)
  /\ match fst (@handleRequest Sample.runtime Sample.host Sample.request
                  Sample.two_keys initial_world),
           fst (@handleRequest Sample.runtime Cases.other_host Sample.request
                  Sample.two_keys initial_world) with
     | Fulfilled response, Fulfilled response' =>
         Response.status response = Response.status response'
         /\ Response.headers response = Response.headers response'
         /\ match Response.body response, Response.body response' with
            | SuccessBody combined, SuccessBody combined' =>
                CombinedResponse.query combined = CombinedResponse.query combined'
                /\ map verdict (CombinedResponse.responses combined)
                   = map verdict (CombinedResponse.responses combined')
                /\ CombinedResponse.providersQueried combined
                   = CombinedResponse.providersQueried combined'
            | ErrorBody message details _, ErrorBody message' details' _ =>
                message = message' /\ details = details'
            | _, _ => False
            end
     | Fulfilled response, Rejected _ => Response.status response = 200%N
     | Rejected _, Fulfilled response' => Response.status response' = 200%N
     | _, _ => True
     end.
Proof.
  assert (Hnet : forall req, network Sample.host req = network Cases.other_host req)
    by (intros req; reflexivity).
  split; [exact Hnet|].
  exact (@answers_do_not_depend_on_scheduling Sample.runtime Sample.host
           Cases.other_host Sample.request Sample.two_keys initial_world
           initial_world Hnet).
Defined.
